(** * Open Catalyst toolkit: sharded dataset index, metric evaluator and
      batched L-BFGS relaxation, embedded from the Python sources.

    - [TrajectoryLmdb]: ocpmodels/datasets/trajectory_lmdb.py
    - [Evaluator], [EvaluatorBinary] : ocpmodels/modules/evaluator.py
    - [LBFGS]         : src/fairchem/core/common/relaxation/optimizers/lbfgs_torch.py
*)

From Stdlib Require Import ZArith List Bool Ascii Lia QArith Qcanon Qcabs Floats.
From stdpp Require Import gmap strings list fin_maps.
Import ListNotations.

(* ===================================================================== *)
(** * Sharded dataset index (trajectory_lmdb.py)                          *)
(* ===================================================================== *)

Module TrajectoryLmdb.
Local Open Scope Z_scope.

(** Ways in which [__getitem__] can end. *)
Inductive outcome (Data : Type) : Type :=
| Returned (d : Data)        (* the decoded (and transformed) record *)
| AssertionError             (* assert el_idx >= 0 *)
| IndexError                 (* list index out of range *)
| TypeError.                 (* pickle.loads(None): key absent from the shard *)
Arguments Returned {Data} d.
Arguments AssertionError {Data}.
Arguments IndexError {Data}.
Arguments TypeError {Data}.

(** [np.cumsum(l).tolist()] *)
Fixpoint cumsum_from (acc : Z) (l : list Z) : list Z :=
  match l with
  | [] => []
  | x :: r => (acc + x) :: cumsum_from (acc + x) r
  end.

Definition cumsum (l : list Z) : list Z := cumsum_from 0 l.

(** [sum(l)] *)
Definition sum (l : list Z) : Z := fold_right Z.add 0 l.

(** [[j for j in range(n)]]: empty when [n <= 0]. *)
Definition range (n : Z) : list Z := map Z.of_nat (seq 0 (Z.to_nat n)).

(** Python list indexing with a non-negative or negative subscript. *)
Definition py_index {A} (l : list A) (i : Z) : option A :=
  if 0 <=? i then nth_error l (Z.to_nat i)
  else if 0 <=? Z.of_nat (length l) + i
       then nth_error l (Z.to_nat (Z.of_nat (length l) + i))
       else None.

Section Dataset.

Variable Data : Type.

(** The state built by [__init__]: one key list per shard, the stored
    records of every shard (shard number, ascii-encoded key) and the
    optional transform. *)
Record dataset := {
  _keys : list (list Z);
  shard_get : nat -> Z -> option Data;   (* env.begin().get(key), unpickled *)
  transform : option (Data -> Data)
}.

(** [__init__], from the "length" record found in each shard; [None] is the
    failed assertion [len(self.db_paths) > 0]. *)
Definition init (lengths : list Z) (get : nat -> Z -> option Data)
    (tr : option (Data -> Data)) : option dataset :=
  if (0 <? length lengths)%nat
  then Some {| _keys := map range lengths; shard_get := get; transform := tr |}
  else None.

Definition _keylens (ds : dataset) : list Z :=
  map (fun k => Z.of_nat (length k)) (_keys ds).

Definition _keylen_cumulative (ds : dataset) : list Z := cumsum (_keylens ds).

(** [__len__] *)
Definition len (ds : dataset) : Z := sum (_keylens ds).

(** The scan [for i in range(len(cum)): if cum[i] > idx: db_idx = i; break];
    [None] when the loop runs to its end without a break. *)
Fixpoint scan (cum : list Z) (idx : Z) (i : nat) : option nat :=
  match cum with
  | [] => None
  | c :: rest => if c >? idx then Some i else scan rest idx (S i)
  end.

Definition db_idx_of (ds : dataset) (idx : Z) : nat :=
  match scan (_keylen_cumulative ds) idx 0 with
  | Some i => i
  | None => 0%nat
  end.

Definition el_idx_of (ds : dataset) (idx : Z) : Z :=
  let db_idx := db_idx_of ds idx in
  if Nat.eqb db_idx 0 then idx
  else idx - nth (db_idx - 1) (_keylen_cumulative ds) 0.

(** The pair (shard, local index) computed by the first half of
    [__getitem__]. *)
Definition locate (ds : dataset) (idx : Z) : nat * Z :=
  (db_idx_of ds idx, el_idx_of ds idx).

(** [__getitem__] *)
Definition getitem (ds : dataset) (idx : Z) : outcome Data :=
  let db_idx := db_idx_of ds idx in
  let el_idx := el_idx_of ds idx in
  if el_idx <? 0 then AssertionError
  else
    match nth_error (_keys ds) db_idx with      (* self.db_paths[db_idx] *)
    | None => IndexError
    | Some keys =>
      match py_index keys el_idx with           (* self._keys[db_idx][el_idx] *)
      | None => IndexError
      | Some key =>
        match shard_get ds db_idx key with
        | None => TypeError
        | Some d =>
          Returned (match transform ds with
                    | None => d
                    | Some f => f d
                    end)
        end
      end
    end.

(** Length [L_s] of shard [s] and the number of samples before it. *)
Definition shard_len (ds : dataset) (s : nat) : Z := nth s (_keylens ds) 0.
Definition offset (ds : dataset) (s : nat) : Z := sum (firstn s (_keylens ds)).

(** The valid (shard, local) pairs. *)
Definition valid_pair (ds : dataset) (p : nat * Z) : Prop :=
  (fst p < length (_keylens ds))%nat /\ 0 <= snd p < shard_len ds (fst p).

End Dataset.

Arguments _keys {Data} d.
Arguments shard_get {Data} d _ _.
Arguments transform {Data} d.
Arguments init {Data} lengths get tr.
Arguments _keylens {Data} ds.
Arguments _keylen_cumulative {Data} ds.
Arguments len {Data} ds.
Arguments db_idx_of {Data} ds idx.
Arguments el_idx_of {Data} ds idx.
Arguments locate {Data} ds idx.
Arguments getitem {Data} ds idx.
Arguments shard_len {Data} ds s.
Arguments offset {Data} ds s.
Arguments valid_pair {Data} ds p.

(** ** The manifest files read by [__init__]

    Every text file lists one sample per line; [__init__] keeps, for each
    system, the running indices of its samples. *)

Fixpoint has_char (c : ascii) (s : string) : bool :=
  match s with
  | EmptyString => false
  | String c' r => Ascii.eqb c' c || has_char c r
  end.

(** [os.path.basename(p)]: what follows the last ['/']. *)
Fixpoint basename (p : string) : string :=
  match p with
  | EmptyString => EmptyString
  | String c r => if has_char "/"%char p then basename r else p
  end.

(** [s.split(",")[0]]: what precedes the first comma. *)
Fixpoint before_comma (s : string) : string :=
  match s with
  | EmptyString => EmptyString
  | String c r =>
      if Ascii.eqb c ","%char then EmptyString else String c (before_comma r)
  end.

(** [p.rfind(c)], [-1] when [c] does not occur; [i] is the index of the
    first character of [p]. *)
Fixpoint rfind_from (c : ascii) (p : string) (i : Z) : Z :=
  match p with
  | EmptyString => -1
  | String c' r =>
      let later := rfind_from c r (i + 1) in
      if 0 <=? later then later
      else if Ascii.eqb c' c then i else -1
  end.

Definition rfind (c : ascii) (p : string) : Z := rfind_from c p 0.

(** [p[a:b]] for [0 <= a]. *)
Definition slice (p : string) (a b : Z) : string :=
  String.substring (Z.to_nat a) (Z.to_nat (b - a)) p.

Fixpoint all_dots (s : string) : bool :=
  match s with
  | EmptyString => true
  | String c r => Ascii.eqb c "."%char && all_dots r
  end.

(** [os.path.splitext(p)[0]]: [p] without its extension; a name made of
    leading dots only has no extension. *)
Definition splitext_root (p : string) : string :=
  let sepIndex := rfind "/"%char p in
  let dotIndex := rfind "."%char p in
  if (sepIndex <? dotIndex) && negb (all_dots (slice p (sepIndex + 1) dotIndex))
  then slice p 0 dotIndex
  else p.

(** [os.path.splitext(os.path.basename(sample).split(",")[0])[0]] *)
Definition systemid (sample : string) : string :=
  splitext_root (before_comma (basename sample)).

(** The inner loop: [self._system_samples[systemid].append(self._keyidx);
    self._keyidx += 1] for every line kept. *)
Fixpoint add_samples (traj_steps : list string) (keyidx : Z)
    (samples : gmap string (list Z)) : Z * gmap string (list Z) :=
  match traj_steps with
  | [] => (keyidx, samples)
  | sample :: rest =>
      let sid := systemid sample in
      add_samples rest (keyidx + 1)
        (<[sid := default [] (samples !! sid) ++ [keyidx]]> samples)
  end.

(** The outer loop over [enumerate(self.txt_paths)]: file [kidx] keeps its
    first [self._keylens[kidx]] lines; [None] is the IndexError of a text
    file without a shard of its number. *)
Fixpoint read_manifests (keylens : list Z) (txts : list (list string))
    (kidx : nat) (keyidx : Z) (samples : gmap string (list Z))
    : option (Z * gmap string (list Z)) :=
  match txts with
  | [] => Some (keyidx, samples)
  | lines :: rest =>
      match nth_error keylens kidx with
      | None => None
      | Some n =>
          let '(keyidx, samples) :=
            add_samples (take (Z.to_nat n) lines) keyidx samples in
          read_manifests keylens rest (S kidx) keyidx samples
      end
  end.

(** [self._keyidx] and [self._system_samples] as [__init__] leaves them,
    from the lines of the text files. *)
Definition system_samples {Data} (ds : dataset Data) (txts : list (list string))
    : option (Z * gmap string (list Z)) :=
  read_manifests (_keylens ds) txts 0 0 ∅.

(** What the loops keep true: every index recorded is below the running
    index, and every index below it is recorded. *)
Definition recorded (k : Z) (m : gmap string (list Z)) : Prop :=
  (forall sid l i, m !! sid = Some l -> i ∈ l -> 0 <= i < k) /\
  (forall i, 0 <= i < k -> exists sid l, m !! sid = Some l /\ i ∈ l).

(** A three-shard example with lengths 2, 0 and 3, whose records are the
    pairs (shard, key). *)
Definition example_ds : dataset (nat * Z) :=
  {| _keys := map range [2; 0; 3];
     shard_get := fun s k => Some (s, k);
     transform := None |}.

End TrajectoryLmdb.

(* ===================================================================== *)
(** * Metric evaluator (evaluator.py)                                     *)
(* ===================================================================== *)

(** Numbers are exact rationals ([Qc]): the sums, differences and quotients
    of the Python code are taken without rounding.  A division by the
    Python integer zero raises, as it does in Python.  What depends on the
    rounding of the code's own arithmetic is stated on [EvaluatorBinary]. *)

Module Evaluator.
Local Open Scope Qc_scope.

Inductive exn : Set :=
| AssertionError
| ZeroDivisionError
| NotImplementedError
| KeyError
| IndexError
| NameError
| RuntimeError.

Inductive result (A : Type) : Type :=
| Ok (a : A)
| Raise (e : exn).
Arguments Ok {A} a.
Arguments Raise {A} e.

#[global] Instance result_ret : MRet result := fun A a => Ok a.
#[global] Instance result_bind : MBind result := fun A B k r =>
  match r with
  | Ok a => k a
  | Raise e => Raise e
  end.

(** A tensor: its shape and its elements in row-major order. *)
Record tensor := { shape : list nat; data : list Qc }.

Definition vec (v : list Qc) : tensor := {| shape := [length v]; data := v |}.

(** The dictionaries [prediction] and [target]. *)
Abbreviation tdict := (gmap string tensor).

(** The record [{"metric": .., "total": .., "numel": ..}].  [metric] is
    [None] for Python's [None] (a fresh accumulator) and for the mean of an
    empty tensor, which is not a number. *)
Record stat := { metric : option Qc; total : Qc; numel : Z }.

(** The dictionary of accumulators, keyed by metric name. *)
Abbreviation metrics := (gmap string stat).

(** Dictionaries are objects: the store maps an object's identity to its
    present contents. *)
Definition loc := nat.
Abbreviation heap := (gmap loc (gmap string stat)).

(** The dictionary [{}] that is the default value of [prev_metrics]: it is
    built once, when [def eval] is executed, and every call that omits the
    argument receives this very object. *)
Definition prev_metrics_default : loc := 0%nat.
Definition heap_init : heap := {[ prev_metrics_default := ∅ ]}.

(** ** Elementwise tensor operations *)

Definition sumQc (l : list Qc) : Qc := fold_right Qcplus 0 l.

(** [torch.mean(t).item()]: not a number on an empty tensor. *)
Definition mean (l : list Qc) : option Qc :=
  match l with
  | [] => None
  | _ => Some (sumQc l / Qc_of_Z (Z.of_nat (length l)))
  end.

(** [prediction.numel()] *)
Definition tnumel (t : tensor) : Z := Z.of_nat (fold_right Nat.mul 1%nat (shape t)).

(** [f(target, prediction)] elementwise, for tensors of one shape (shapes
    that differ are broadcast or refused by the back end; they are refused
    here). *)
Definition elementwise (f : Qc -> Qc -> Qc) (a b : tensor) : result (list Qc) :=
  if bool_decide (shape a = shape b) then Ok (zip_with f (data a) (data b))
  else Raise RuntimeError.

(** [torch.abs(target - prediction)], for one element *)
Definition abs_err (t p : Qc) : Qc := Qcabs (t - p).

(** [absolute_error(prediction, target)] *)
Definition absolute_error (prediction target : tensor) : result stat :=
  match elementwise abs_err target prediction with
  | Raise e => Raise e
  | Ok error =>
      Ok {| metric := mean error; total := sumQc error; numel := tnumel prediction |}
  end.

(** [squared_error(prediction, target)] *)
Definition squared_error (prediction target : tensor) : result stat :=
  match elementwise (fun t p => (t - p) * (t - p)) target prediction with
  | Raise e => Raise e
  | Ok error =>
      Ok {| metric := mean error; total := sumQc error; numel := tnumel prediction |}
  end.

(** [d[key]] *)
Definition getattr (d : tdict) (key : string) : result tensor :=
  match d !! key with
  | Some t => Ok t
  | None => Raise KeyError
  end.

Definition on_attr (f : tensor -> tensor -> result stat) (key : string)
    (prediction target : tdict) : result stat :=
  match getattr prediction key with
  | Raise e => Raise e
  | Ok p =>
    match getattr target key with
    | Raise e => Raise e
    | Ok t => f p t
    end
  end.

Definition energy_mae := on_attr absolute_error "energy".
Definition energy_mse := on_attr squared_error "energy".
Definition forces_mae := on_attr absolute_error "forces".
Definition forces_mse := on_attr squared_error "forces".
Definition positions_mae := on_attr absolute_error "positions".
Definition positions_mse := on_attr squared_error "positions".

(** [e_thresh = 0.02] *)
Definition e_thresh : Qc := Q2Qc (2 # 100).

(** [energy_within_threshold(prediction, target)] *)
Definition energy_within_threshold (prediction target : tdict) : result stat :=
  match getattr target "energy" with
  | Raise e => Raise e
  | Ok t =>
    match getattr prediction "energy" with
    | Raise e => Raise e
    | Ok p =>
      match elementwise abs_err t p with
      | Raise e => Raise e
      | Ok error_energy =>
        let success :=
          Z.of_nat (length (filter (fun e => e < e_thresh) error_energy)) in
        match shape t with
        | [] => Raise IndexError                       (* size(0) of a scalar *)
        | n :: _ =>
          let total_ := Z.of_nat n in
          if Z.eqb total_ 0 then Raise ZeroDivisionError
          else Ok {| metric := Some (Qc_of_Z success / Qc_of_Z total_);
                     total := Qc_of_Z success;
                     numel := total_ |}
        end
      end
    end
  end.

(** ** The accumulator update *)

(** What [update] may be handed as [stat]. *)
Inductive stat_arg :=
| StatDict (s : stat)      (* a dict with metric, total and numel *)
| StatNum (x : Qc)         (* a float or an int *)
| StatTensor               (* a tensor *)
| StatOther.               (* anything else *)

(** Code that mutates the one dictionary [metrics] and may raise; what was
    written before an exception stays written. *)
Definition M (A : Type) : Type := gmap string stat -> result A * gmap string stat.

#[global] Instance M_ret : MRet M := fun A a m => (Ok a, m).
#[global] Instance M_bind : MBind M := fun A B k c m =>
  match c m with
  | (Ok a, m') => k a m'
  | (Raise e, m') => (Raise e, m')
  end.

Definition raise {A} (e : exn) : M A := fun m => (Raise e, m).
Definition lift {A} (r : result A) : M A := fun m => (r, m).
Definition assert (b : bool) : M unit :=
  if b then mret tt else raise AssertionError.
Definition modify (f : gmap string stat -> gmap string stat) : M unit :=
  fun m => (Ok tt, f m).
Definition read : M (gmap string stat) := fun m => (Ok m, m).

Fixpoint for_each {A} (l : list A) (body : A -> M unit) : M unit :=
  match l with
  | [] => mret tt
  | x :: r => body x ≫= fun _ => for_each r body
  end.

Definition stat_init : stat := {| metric := None; total := 0; numel := 0 |}.

(** [metrics[key]["total"] += t; metrics[key]["numel"] += n;
     metrics[key]["metric"] = metrics[key]["total"] / metrics[key]["numel"]] *)
Definition accumulate (key : string) (t : Qc) (n : Z) : M unit :=
  m ← read;
  let a := default stat_init (m !! key) in
  let tot := a.(total) + t in
  let num := (a.(numel) + n)%Z in
  modify (insert key {| metric := a.(metric); total := tot; numel := num |}) ≫= fun _ =>
  if Z.eqb num 0 then raise ZeroDivisionError
  else modify (insert key {| metric := Some (tot / Qc_of_Z num);
                             total := tot; numel := num |}).

(** [Evaluator.update(key, stat, metrics)]; the dictionary it returns is
    the dictionary it was given. *)
Definition update (key : string) (st : stat_arg) : M unit :=
  m ← read;
  (if bool_decide (m !! key = None) then modify (insert key stat_init)
   else mret tt) ≫= fun _ =>
  match st with
  | StatDict s => accumulate key s.(total) s.(numel)
  | StatNum x => accumulate key x 1
  | StatTensor => raise NotImplementedError
  | StatOther => mret tt
  end.

(** ** The evaluator *)

Inductive task_name := s2ef | is2rs | is2re.

Definition task_metrics (t : task_name) : list string :=
  match t with
  | s2ef => ["forcesx_mae"; "forcesy_mae"; "forcesz_mae"; "forces_mae";
             "forces_cos"; "forces_magnitude"; "energy_mae";
             "energy_force_within_threshold"]
  | is2rs => ["average_distance_within_threshold"; "positions_mae";
              "positions_mse"]
  | is2re => ["energy_mae"; "energy_mse"; "energy_within_threshold"]
  end.

Definition task_attributes (t : task_name) : list string :=
  match t with
  | s2ef => ["energy"; "forces"; "natoms"]
  | is2rs => ["positions"; "cell"; "pbc"; "natoms"]
  | is2re => ["energy"]
  end.

Definition atomic_number_tasks (t : task_name) : gset string :=
  match t with
  | s2ef => {[ "forces_mae"; "forces_cos" ]}
  | is2rs => ∅
  | is2re => ∅
  end.

(** The fields [__init__] sets.  [atomic_number_map] lists the tracked
    atomic numbers with their labels, in the order of the dictionary. *)
Record evaluator := {
  task : task_name;
  atomic_number_map : list (Z * string);
  atomic_number_metrics : gset string
}.

(** [fn.split("_")[0]] *)
Fixpoint before_underscore (s : string) : string :=
  match s with
  | EmptyString => EmptyString
  | String c r =>
      if Ascii.eqb c "_"%char then EmptyString else String c (before_underscore r)
  end.

(** [t[~mask] = 0] for a mask over the first dimension. *)
Definition zero_unmasked (mask : list bool) (t : tensor) : result tensor :=
  match shape t with
  | [] => Raise IndexError
  | n :: rest =>
      if Nat.eqb (length mask) n then
        let row := fold_right Nat.mul 1%nat rest in
        Ok {| shape := shape t;
              data := imap (fun j x => if nth (j / row) mask false then x else 0)
                           (data t) |}
      else Raise IndexError
  end.

Section Dispatch.

(** [eval(fn)(prediction, target)]: the metric functions are looked up by
    name among the module's globals when the call is made. *)
Variable call_metric : string -> tdict -> tdict -> result stat.

(** The first half of [_eval_metric_fn]: the record [res] and the name
    [fn_metric_name] under which it is accumulated. *)
Definition metric_stat (fn : string) (prediction target : tdict)
    (fn_prefix : option string) (numel_ : option Z) : result (string * stat) :=
  let fn_metric_name :=
    match fn_prefix with
    | Some pre => if String.eqb pre "" then fn else pre +:+ fn
    | None => fn
    end in
  match call_metric fn prediction target with
  | Raise e => Raise e
  | Ok res =>
    match numel_ with
    | None => Ok (fn_metric_name, res)
    | Some n =>
        if Z.eqb n 0 then Raise ZeroDivisionError
        else Ok (fn_metric_name,
                 {| metric := Some (res.(total) / Qc_of_Z n);
                    total := res.(total); numel := n |})
    end
  end.

(** [_eval_metric_fn] *)
Definition _eval_metric_fn (fn : string) (prediction target : tdict)
    (fn_prefix : option string) (numel_ : option Z) : M unit :=
  '(fn_metric_name, res) ← lift (metric_stat fn prediction target fn_prefix numel_);
  update fn_metric_name (StatDict res).

(** [_eval_atomwise_metrics]; [atomic_numbers] is the tensor of atomic
    numbers, one per atom. *)
Definition _eval_atomwise_metrics (ev : evaluator) (fn : string)
    (atomic_numbers : list Z) (prediction target : tdict) : M unit :=
  let metric_key := before_underscore fn in
  let metric_key :=
    if String.prefix "forces" metric_key then "forces"%string else metric_key in
  assert (String.eqb metric_key "forces" || String.eqb metric_key "energy") ≫= fun _ =>
  assert (bool_decide (is_Some (prediction !! metric_key)) &&
          bool_decide (is_Some (target !! metric_key))) ≫= fun _ =>
  for_each ev.(atomic_number_map) (fun '(atomic_number, label) =>
    let mask := map (Z.eqb atomic_number) atomic_numbers in
    p ← lift (getattr prediction metric_key);
    p' ← lift (zero_unmasked mask p);
    let prediction_copy := <[metric_key := p']> prediction in
    t ← lift (getattr target metric_key);
    t' ← lift (zero_unmasked mask t);
    let target_copy := <[metric_key := t']> target in
    _eval_metric_fn fn prediction_copy target_copy
      (Some ("atomwise_" +:+ label +:+ "_"))
      (Some (Z.of_nat (length (filter (fun b => b = true) mask)) * 3)%Z)).

(** The body of [eval], acting on the dictionary bound to [metrics]. *)
Definition eval_body (ev : evaluator) (prediction target : tdict)
    (atomic_numbers : option (list Z)) : M unit :=
  for_each (task_attributes ev.(task)) (fun attr =>
    assert (bool_decide (is_Some (prediction !! attr))) ≫= fun _ =>
    assert (bool_decide (is_Some (target !! attr))) ≫= fun _ =>
    assert (bool_decide (shape <$> prediction !! attr = shape <$> target !! attr)))
  ≫= fun _ =>
  for_each (task_metrics ev.(task)) (fun fn =>
    _eval_metric_fn fn prediction target None None ≫= fun _ =>
    match atomic_numbers with
    | Some an =>
        if bool_decide (fn ∈ ev.(atomic_number_metrics))
        then _eval_atomwise_metrics ev fn an prediction target
        else mret tt
    | None => mret tt
    end).

(** [Evaluator.eval(prediction, target, prev_metrics, atomic_numbers)].
    [prev_metrics] is [None] when the caller omits the argument; the
    dictionary named by [metrics] is then the default object.  The body
    mutates that dictionary where it lives and the call returns the same
    object. *)
Definition eval (ev : evaluator) (prediction target : tdict)
    (prev_metrics : option loc) (atomic_numbers : option (list Z))
    (h : heap) : result loc * heap :=
  let metrics_ := default prev_metrics_default prev_metrics in
  match h !! metrics_ with
  | None => (Raise RuntimeError, h)            (* not a live dictionary *)
  | Some m =>
      match eval_body ev prediction target atomic_numbers m with
      | (Ok _, m') => (Ok metrics_, <[metrics_ := m']> h)
      | (Raise e, m') => (Raise e, <[metrics_ := m']> h)
      end
  end.

(** ** What one call contributes

    The records that a call of [eval] hands to [update], with the names
    under which they are accumulated, in the order of the calls. *)

Definition atomwise_stats (ev : evaluator) (fn : string)
    (atomic_numbers : list Z) (prediction target : tdict)
    : result (list (string * stat)) :=
  let metric_key := before_underscore fn in
  let metric_key :=
    if String.prefix "forces" metric_key then "forces"%string else metric_key in
  if negb (String.eqb metric_key "forces" || String.eqb metric_key "energy")
  then Raise AssertionError
  else if negb (bool_decide (is_Some (prediction !! metric_key)) &&
                bool_decide (is_Some (target !! metric_key)))
  then Raise AssertionError
  else
    mapM (fun '(atomic_number, label) =>
      let mask := map (Z.eqb atomic_number) atomic_numbers in
      p ← getattr prediction metric_key;
      p' ← zero_unmasked mask p;
      let prediction_copy := <[metric_key := p']> prediction in
      t ← getattr target metric_key;
      t' ← zero_unmasked mask t;
      let target_copy := <[metric_key := t']> target in
      metric_stat fn prediction_copy target_copy
        (Some ("atomwise_" +:+ label +:+ "_"))
        (Some (Z.of_nat (length (filter (fun b => b = true) mask)) * 3)%Z))
      ev.(atomic_number_map).

Definition attributes_ok (ev : evaluator) (prediction target : tdict) : bool :=
  forallb (fun attr =>
    bool_decide (is_Some (prediction !! attr)) &&
    bool_decide (is_Some (target !! attr)) &&
    bool_decide (shape <$> prediction !! attr = shape <$> target !! attr))
    (task_attributes ev.(task)).

Definition eval_stats (ev : evaluator) (prediction target : tdict)
    (atomic_numbers : option (list Z)) : result (list (string * stat)) :=
  if negb (attributes_ok ev prediction target) then Raise AssertionError
  else
    per_fn ← mapM (fun fn =>
      s ← metric_stat fn prediction target None None;
      rest ← match atomic_numbers with
             | Some an =>
                 if bool_decide (fn ∈ ev.(atomic_number_metrics))
                 then atomwise_stats ev fn an prediction target
                 else Ok []
             | None => Ok []
             end;
      Ok (s :: rest)) (task_metrics ev.(task));
    Ok (concat per_fn).

(** Calls [evaluator.eval(prediction, target, atomic_numbers=an)], which
    omit [prev_metrics], made one after the other; the objects they
    return. *)
Fixpoint eval_omitting (ev : evaluator)
    (calls : list (tdict * tdict * option (list Z))) (h : heap)
    : result (list loc) * heap :=
  match calls with
  | [] => (Ok [], h)
  | (prediction, target, an) :: rest =>
      match eval ev prediction target None an h with
      | (Raise e, h') => (Raise e, h')
      | (Ok l, h') =>
          match eval_omitting ev rest h' with
          | (Raise e, h'') => (Raise e, h'')
          | (Ok ls, h'') => (Ok (l :: ls), h'')
          end
      end
  end.

(** The contributions of a call ([[]] for a call that raises before its
    first update). *)
Definition call_stats (ev : evaluator)
    (call : tdict * tdict * option (list Z)) : list (string * stat) :=
  match eval_stats ev call.1.1 call.1.2 call.2 with
  | Ok cs => cs
  | Raise _ => []
  end.

End Dispatch.

(** The sum of the totals, and of the element counts, that a list of
    contributions holds for one key. *)
Definition key_total (k : string) (cs : list (string * stat)) : Qc :=
  sumQc (map (fun c => total c.2) (filter (fun c => c.1 = k) cs)).

Definition key_numel (k : string) (cs : list (string * stat)) : Z :=
  fold_right Z.add 0%Z (map (fun c => numel c.2) (filter (fun c => c.1 = k) cs)).

(** The updates that a list of contributions stands for. *)
Definition apply_updates (cs : list (string * stat)) : M unit :=
  for_each cs (fun '(k, s) => update k (StatDict s)).

(** The accumulator stored under a key ([stat_init] when there is none). *)
Definition acc_at (m : gmap string stat) (k : string) : stat :=
  default stat_init (m !! k).

(** Raw data accumulated batch by batch under one key: each batch is a
    pair of a prediction and a target tensor, scored by
    [absolute_error]. *)
Definition accumulate_absolute_error (key : string)
    (batches : list (list Qc * list Qc)) : M unit :=
  for_each batches (fun '(p, t) =>
    res ← lift (absolute_error (vec p) (vec t));
    update key (StatDict res)).

(** The metric functions of the module that work on exact numbers, looked
    up by name ([forces_cos], [forces_magnitude] and the distance metric
    need square roots and are not among them). *)
Definition module_globals (fn : string) (prediction target : tdict) : result stat :=
  if String.eqb fn "energy_mae" then energy_mae prediction target
  else if String.eqb fn "energy_mse" then energy_mse prediction target
  else if String.eqb fn "energy_within_threshold"
       then energy_within_threshold prediction target
  else if String.eqb fn "forces_mae" then forces_mae prediction target
  else if String.eqb fn "forces_mse" then forces_mse prediction target
  else if String.eqb fn "positions_mae" then positions_mae prediction target
  else if String.eqb fn "positions_mse" then positions_mse prediction target
  else Raise NameError.

(** [t[:, c]]: the slices of index [c] along the second dimension. *)
Definition column (c : nat) (t : tensor) : result tensor :=
  match shape t with
  | n :: k :: rest =>
      if (c <? k)%nat then
        let row := fold_right Nat.mul 1%nat rest in
        Ok {| shape := n :: rest;
              data := flat_map (fun i => take row (drop ((i * k + c) * row) (data t)))
                               (seq 0 n) |}
      else Raise IndexError
  | _ => Raise IndexError                  (* too many indices *)
  end.

Definition on_column (f : tensor -> tensor -> result stat) (key : string)
    (c : nat) (prediction target : tdict) : result stat :=
  match getattr prediction key with
  | Raise e => Raise e
  | Ok p =>
    match column c p with
    | Raise e => Raise e
    | Ok pc =>
      match getattr target key with
      | Raise e => Raise e
      | Ok t =>
        match column c t with
        | Raise e => Raise e
        | Ok tc => f pc tc
        end
      end
    end
  end.

Definition forcesx_mae := on_column absolute_error "forces" 0.
Definition forcesy_mae := on_column absolute_error "forces" 1.
Definition forcesz_mae := on_column absolute_error "forces" 2.
Definition forcesx_mse := on_column squared_error "forces" 0.
Definition forcesy_mse := on_column squared_error "forces" 1.
Definition forcesz_mse := on_column squared_error "forces" 2.

(** An (n, 3) tensor from its rows. *)
Definition rows3 (rows : list (Qc * Qc * Qc)) : tensor :=
  {| shape := [length rows; 3%nat];
     data := flat_map (fun r => [r.1.1; r.1.2; r.2]) rows |}.

(** ** Energies and forces within their thresholds *)

(** [f_thresh = 0.03] *)
Definition f_thresh : Qc := Q2Qc (3 # 100).

(** [t.size(0)] *)
Definition size0 (t : tensor) : result nat :=
  match shape t with
  | [] => Raise IndexError
  | n :: _ => Ok n
  end.

(** The number of elements of one slice along the first dimension. *)
Definition row_size (t : tensor) : nat := fold_right Nat.mul 1%nat (tail (shape t)).

(** An integer tensor holds whole numbers; one of its entries used as an
    index or a length. *)
Definition to_index (q : Qc) : nat := Z.to_nat (Qnum q).
Definition of_index (n : nat) : Qc := Qc_of_Z (Z.of_nat n).

(** [t[i] < c] used as a condition: the slice must hold one element. *)
Definition item_lt (t : tensor) (i : nat) (c : Qc) : result bool :=
  match shape t with
  | [] => Raise IndexError
  | n :: _ =>
      if (i <? n)%nat then
        match take (row_size t) (drop (i * row_size t) (data t)) with
        | [x]%list => Ok (bool_decide (x < c))
        | _ => Raise RuntimeError          (* no truth value *)
        end
      else Raise IndexError
  end.

Definition qmax (a b : Qc) : Qc := if bool_decide (a < b) then b else a.

(** [t[start : start + n].max()]: a slice past the end is cut short, and
    an empty slice has no maximum. *)
Definition slice_max (t : tensor) (start n : nat) : result Qc :=
  match shape t with
  | [] => Raise IndexError
  | _ :: _ =>
      match take (n * row_size t) (drop (start * row_size t) (data t)) with
      | [] => Raise RuntimeError
      | x :: xs => Ok (fold_left qmax xs x)
      end
  end.

(** The loop [for i, n in enumerate(target["natoms"])] over the entries
    still to come; the number of successes it counts. *)
Fixpoint threshold_loop (ns : list Qc) (i start_idx : nat)
    (error_energy error_forces : tensor) : result Z :=
  match ns with
  | [] => Ok 0%Z
  | n :: rest =>
      hit ← (below ← item_lt error_energy i e_thresh;
             if below : bool then
               m ← slice_max error_forces start_idx (to_index n);
               Ok (bool_decide (m < f_thresh))
             else Ok false);
      more ← threshold_loop rest (S i) (start_idx + to_index n)
               error_energy error_forces;
      Ok ((if hit : bool then 1 else 0) + more)%Z
  end.

(** [energy_force_within_threshold(prediction, target)], for a
    one-dimensional [natoms]. *)
Definition energy_force_within_threshold (prediction target : tdict) : result stat :=
  natoms ← getattr target "natoms";
  pf ← getattr prediction "forces";
  nf ← size0 pf;
  if negb (bool_decide (sumQc (data natoms) = of_index nf)) then Raise AssertionError
  else
    total_ ← size0 natoms;
    pe ← getattr prediction "energy";
    ne ← size0 pe;
    if negb (Nat.eqb total_ ne) then Raise AssertionError
    else
      tf ← getattr target "forces";
      error_forces ← elementwise abs_err tf pf;
      te ← getattr target "energy";
      error_energy ← elementwise abs_err te pe;
      success ← threshold_loop (data natoms) 0 0
                  {| shape := shape te; data := error_energy |}
                  {| shape := shape tf; data := error_forces |};
      if Nat.eqb total_ 0 then Raise ZeroDivisionError
      else Ok {| metric := Some (Qc_of_Z success / Qc_of_Z (Z.of_nat total_));
                 total := Qc_of_Z success;
                 numel := Z.of_nat total_ |}.

(** [Evaluator(task="is2re")] *)
Definition evaluator_is2re : evaluator :=
  {| task := is2re; atomic_number_map := [];
     atomic_number_metrics := atomic_number_tasks is2re |}.

(** The scenario of two samples: targets 1.0 and 2.0, predictions 1.01 and
    2.03. *)
Definition scenario_target : tdict :=
  {[ "energy"%string := vec [Q2Qc 1; Q2Qc 2] ]}.
Definition scenario_prediction : tdict :=
  {[ "energy"%string := vec [Q2Qc (101 # 100); Q2Qc (203 # 100)] ]}.

End Evaluator.

(* ===================================================================== *)
(** * Batched L-BFGS relaxation (lbfgs_torch.py)                          *)
(* ===================================================================== *)

Module LBFGS.
#[local] Set Warnings "-inexact-float".

(** ** The numerical back end

    The tensor library is a collaborator of the optimizer: the arithmetic
    it supplies is an interface, instantiated by the binary64
    floating-point numbers the code computes with. *)

Class Scalar (T : Type) := {
  fzero : T;
  fone : T;
  feps : T;                   (* the literal 1e-7 *)
  fadd : T -> T -> T;
  fsub : T -> T -> T;
  fmul : T -> T -> T;
  fdiv : T -> T -> T;
  fneg : T -> T;
  fabs : T -> T;
  fsqrt : T -> T;
  fmin : T -> T -> T;         (* torch.min(a, b) *)
  fmax : T -> T -> T;         (* the running maximum of a reduction *)
  flt : T -> T -> bool;       (* a < b *)
  to_float32 : T -> T         (* x.to(dtype=torch.float32) *)
}.

(** Rounding of a binary64 number to the nearest binary32 number. *)
Definition round_binary32 (x : float) : float :=
  match Prim2SF x with
  | S754_finite s m e =>
      SF2Prim (binary_normalize 24 128 (if s then Z.neg m else Z.pos m) e s)
  | _ => x
  end.

#[global] Instance Scalar_float : Scalar float := {|
  fzero := 0%float;
  fone := 1%float;
  feps := 0x1.ad7f29abcaf48p-24%float;
  fadd := PrimFloat.add;
  fsub := PrimFloat.sub;
  fmul := PrimFloat.mul;
  fdiv := PrimFloat.div;
  fneg := PrimFloat.opp;
  fabs := PrimFloat.abs;
  fsqrt := PrimFloat.sqrt;
  fmin := fun a b =>
    if PrimFloat.is_nan a then a else if PrimFloat.is_nan b then b
    else if PrimFloat.ltb b a then b else a;
  fmax := fun a b =>
    if PrimFloat.is_nan a then a else if PrimFloat.is_nan b then b
    else if PrimFloat.ltb a b then b else a;
  flt := PrimFloat.ltb;
  to_float32 := round_binary32
|}.

(** ** Tensors: a vector is a list, an (N, 3) tensor a list of rows *)

Section Tensors.
Context {T : Type} {ST : Scalar T}.

Definition tsum (v : list T) : T := fold_left fadd v fzero.

(** [(x * y).sum(dim=-1)] for one row *)
Definition row_dot (x y : list T) : T := tsum (zip_with fmul x y).

(** [torch.norm(dr, dim=1)] for one row *)
Definition row_norm (x : list T) : T := fsqrt (tsum (map (fun a => fmul a a) x)).

Definition tadd (a b : list (list T)) : list (list T) := zip_with (zip_with fadd) a b.
Definition tsub (a b : list (list T)) : list (list T) := zip_with (zip_with fsub) a b.
Definition tneg (a : list (list T)) : list (list T) := map (map fneg) a.

(** [c * a] for a scalar [c] *)
Definition tscale (c : T) (a : list (list T)) : list (list T) := map (map (fmul c)) a.

(** [a * c.unsqueeze(1)]: row [i] of [a] times [c[i]] *)
Definition scale_rows (a : list (list T)) (c : list T) : list (list T) :=
  zip_with (fun row ci => map (fun x => fmul x ci) row) a c.

(** [v[index]] *)
Definition gather (v : list T) (index : list nat) : list T :=
  map (fun b => nth b v fzero) index.

(** [scatter(src, index, reduce=..)]: the output has one entry per group
    [0 .. max(index)]. *)
Definition dim_size (index : list nat) : nat :=
  match index with
  | [] => 0
  | _ => S (foldr Nat.max 0 index)
  end.

Definition segment (src : list T) (index : list nat) (b : nat) : list T :=
  (filter (fun p => p.2 = b) (zip src index)).*1.

Definition scatter_sum (src : list T) (index : list nat) : list T :=
  map (fun b => tsum (segment src index b)) (seq 0 (dim_size index)).

(** A group without entries gets 0. *)
Definition scatter_max (src : list T) (index : list nat) : list T :=
  map (fun b => match segment src index b with
                | [] => fzero
                | x :: xs => fold_left fmax xs x
                end) (seq 0 (dim_size index)).

(** [torch.where(mask.unsqueeze(1), a, 0.0)] *)
Definition where_rows (mask : list bool) (a : list (list T)) : list (list T) :=
  zip_with (fun (m : bool) row => if m then row else map (fun _ => fzero) row) mask a.

(** [torch.abs(a).max()]; [None] on a tensor without elements. *)
Definition abs_max (a : list (list T)) : option T :=
  match map fabs (concat a) with
  | [] => None
  | x :: xs => Some (fold_left fmax xs x)
  end.

(** [deque(maxlen=..).append(x)] *)
Definition deque_append {A} (maxlen : nat) (x : A) (d : list A) : list A :=
  drop (length (d ++ [x]) - maxlen) (d ++ [x]).

End Tensors.

(** ** The optimizable batch

    The optimizer drives a collaborator, the optimizable batch, through
    this interface: [OB] is the state of the batch (with the model behind
    it) and [Atoms] what a trajectory file stores for one system. *)

Class Optimizable (T OB Atoms : Type) := {
  get_positions : OB -> list (list T);
  set_positions_batch : list (list T) -> OB -> OB;
  get_forces : OB -> list (list T);         (* get_forces(apply_constraint=True) *)
  get_potential_energies : OB -> list T;
  get_max_forces : OB -> list T;            (* one entry per system *)
  batch_indices : OB -> list nat;
  update_graph : OB -> OB;
  get_atoms_list : OB -> list Atoms;
  natoms : OB -> list nat;                  (* batch.natoms *)
  pos_rows : OB -> nat;                     (* batch.pos.shape[0] *)
  set_energy_forces : list T -> list (list T) -> OB -> OB
                                            (* batch.energy, batch.forces = .. *)
}.

Inductive exn : Set :=
| TypeError               (* an operand that is None *)
| UnboundLocalError       (* a local variable read before assignment *)
| IndexError
| RuntimeError.

Inductive result (A : Type) : Type :=
| Ok (a : A)
| Raise (e : exn).
Arguments Ok {A} a.
Arguments Raise {A} e.

(** What the run does to the outside: trajectory files and the log. *)
Inductive event (T Atoms : Type) : Type :=
| Open (name : string)                    (* Trajectory(name.traj_tmp, mode="w") *)
| WriteAtoms (i : nat) (atoms : Atoms)    (* trajectories[i].write(atoms) *)
| Close (i : nat)                         (* trajectories[i].close() *)
| Rename (name : string)                  (* name.traj_tmp -> name.traj *)
| Log (iteration : Z) (max_forces : list T)
| EmptyCache.                             (* torch.cuda.empty_cache() *)
Arguments Open {T Atoms} name.
Arguments WriteAtoms {T Atoms} i atoms.
Arguments Close {T Atoms} i.
Arguments Rename {T Atoms} name.
Arguments Log {T Atoms} iteration max_forces.
Arguments EmptyCache {T Atoms}.

(** The events that open, close or rename a trajectory file. *)
Definition file_event {T Atoms : Type} (e : event T Atoms) : bool :=
  match e with
  | Open _ | Close _ | Rename _ => true
  | _ => false
  end.

Section Optimizer.
Context {T OB Atoms : Type} {ST : Scalar T} {OP : Optimizable T OB Atoms}.

(** The attributes [__init__] sets. *)
Record config := {
  maxstep : T;
  memory : nat;
  damping : T;
  alpha : T;
  save_full : bool;
  traj_dir : bool;                (* is a directory given? *)
  traj_names : list string;
  mask_converged : bool;
  otf_graph : bool
}.

Definition H0 (cfg : config) : T := fdiv fone cfg.(alpha).

(** The attributes [run] and [step] change. *)
Record state := {
  optimizable : OB;
  s_ : list (list (list T));
  y_ : list (list (list T));
  rho_ : list (list T);
  r0 : option (list (list T));
  f0 : option (list (list T))
}.

(** [LBFGS.set_positions] *)
Definition set_positions (cfg : config) (positions : list (list T))
    (update_mask : list bool) (ob : OB) : OB :=
  let positions :=
    if cfg.(mask_converged) then where_rows update_mask positions else positions in
  let ob := set_positions_batch (map (map to_float32) positions) ob in
  if cfg.(otf_graph) then ob else update_graph ob.

(** [LBFGS.check_convergence]: the per-atom mask, the energies, the forces,
    and the log line. *)
Definition check_convergence (fmax_ : T) (iteration : Z) (ob : OB)
    : list bool * list T * list (list T) * event T Atoms :=
  let energy := get_potential_energies ob in
  let forces := get_forces ob in
  let max_forces := get_max_forces ob in
  let per_atom := gather max_forces (batch_indices ob) in
  (map (fun f => flt f fmax_) per_atom, energy, forces, Log iteration max_forces).

(** [LBFGS._determine_step] *)
Definition _determine_step (cfg : config) (index : list nat) (dr : list (list T))
    : list (list T) :=
  let steplengths := map row_norm dr in
  let longest_steps := scatter_max steplengths index in
  let longest_steps := gather longest_steps index in
  let scale := map (fun l => fmul (fdiv fone (fadd l feps)) (fmin l cfg.(maxstep)))
                   longest_steps in
  let dr := scale_rows dr scale in
  map (map (fun x => fmul x cfg.(damping))) dr.

(** [LBFGS._batched_dot] *)
Definition _batched_dot (index : list nat) (x y : list (list T)) : list T :=
  scatter_sum (zip_with row_dot x y) index.

(** The block [# Update s, y, rho] of [step]. *)
Definition update_history (cfg : config) (iteration : Z) (forces r : list (list T))
    (st : state) : result state :=
  if (0 <? iteration)%Z then
    match st.(r0), st.(f0) with
    | Some r0_, Some f0_ =>
        let s0 := tsub r r0_ in
        let y0 := tneg (tsub forces f0_) in
        Ok {| optimizable := st.(optimizable);
              s_ := deque_append cfg.(memory) s0 st.(s_);
              y_ := deque_append cfg.(memory) y0 st.(y_);
              rho_ := deque_append cfg.(memory)
                        (map (fdiv fone)
                             (_batched_dot (batch_indices st.(optimizable)) y0 s0))
                        st.(rho_);
              r0 := st.(r0); f0 := st.(f0) |}
    | _, _ => Raise TypeError
    end
  else Ok st.

(** The first loop of the two-loop recursion, [i] running down from
    [loopmax - 1] to 0: the list [todo] holds the indices still to visit,
    [alpha_] the rows of [alpha] already filled. *)
Fixpoint first_loop (index : list nat) (st : state) (todo : list nat)
    (q : list (list T)) (alpha_ : list (nat * list T))
    : result (list (list T) * list (nat * list T)) :=
  match todo with
  | [] => Ok (q, alpha_)
  | i :: rest =>
      match st.(rho_) !! i, st.(s_) !! i, st.(y_) !! i with
      | Some rho_i, Some s_i, Some y_i =>
          let alpha_i := zip_with fmul rho_i (_batched_dot index s_i q) in
          let q := tsub q (scale_rows y_i (gather alpha_i index)) in
          first_loop index st rest q ((i, alpha_i) :: alpha_)
      | _, _, _ => Raise IndexError
      end
  end.

(** The second loop, [i] running up from 0 to [loopmax - 1]. *)
Fixpoint second_loop (index : list nat) (st : state) (todo : list nat)
    (alpha_ : list (nat * list T)) (z : list (list T)) : result (list (list T)) :=
  match todo with
  | [] => Ok z
  | i :: rest =>
      match st.(rho_) !! i, st.(s_) !! i, st.(y_) !! i,
            (list_to_map alpha_ : gmap nat (list T)) !! i with
      | Some rho_i, Some s_i, Some y_i, Some alpha_i =>
          let beta := zip_with fmul rho_i (_batched_dot index y_i z) in
          let z := tadd z (scale_rows s_i
                     (zip_with fsub (gather alpha_i index) (gather beta index))) in
          second_loop index st rest alpha_ z
      | _, _, _, _ => Raise IndexError
      end
  end.

(** [LBFGS.step] *)
Definition step (cfg : config) (iteration : Z) (forces : option (list (list T)))
    (update_mask : list bool) (st : state) : result state :=
  let ob := st.(optimizable) in
  let forces := match forces with Some f => f | None => get_forces ob end in
  let r := get_positions ob in
  match update_history cfg iteration forces r st with
  | Raise e => Raise e
  | Ok st =>
    let index := batch_indices ob in
    let loopmax := Nat.min cfg.(memory) (Z.to_nat iteration) in
    let q := tneg forces in
    match first_loop index st (rev (seq 0 loopmax)) q [] with
    | Raise e => Raise e
    | Ok (q, alpha_) =>
      let z := tscale (H0 cfg) q in
      match second_loop index st (seq 0 loopmax) alpha_ z with
      | Raise e => Raise e
      | Ok z =>
        let p := tneg z in
        let dr := _determine_step cfg index p in
        match abs_max dr with
        | None => Raise RuntimeError
        | Some biggest =>
          if flt biggest feps then Ok st          (* same configuration again *)
          else
            Ok {| optimizable := set_positions cfg (tadd r dr) update_mask ob;
                  s_ := st.(s_); y_ := st.(y_); rho_ := st.(rho_);
                  r0 := Some r; f0 := Some forces |}
        end
      end
    end
  end.

(** [torch.split(mask, sizes)]; the sizes must add up to the length. *)
Fixpoint split_go {A} (l : list A) (sizes : list nat) : list (list A) :=
  match sizes with
  | [] => []
  | n :: rest => take n l :: split_go (drop n l) rest
  end.

Definition split_sizes {A} (l : list A) (sizes : list nat) : option (list (list A)) :=
  if Nat.eqb (sum_list sizes) (length l) then Some (split_go l sizes) else None.

(** The loop of [LBFGS.write] over [zip(atoms, trajectories, masks)];
    [i] numbers the trajectory.  The writes made, and the exception that
    ended the loop if one did. *)
Fixpoint write_loop (cfg : config) (i : nat) (atoms : list Atoms) (ntraj : nat)
    (masks : list (list bool)) : list (event T Atoms) * option exn :=
  match atoms, ntraj, masks with
  | atm :: atoms', S ntraj', mask :: masks' =>
      match mask with
      | [] => ([], Some IndexError)                      (* mask[0] *)
      | m0 :: _ =>
          let '(evs, e) := write_loop cfg (S i) atoms' ntraj' masks' in
          (if m0 || negb cfg.(save_full) then WriteAtoms i atm :: evs else evs, e)
      end
  | _, _, _ => ([], None)
  end.

(** [LBFGS.write] *)
Definition write (cfg : config) (energy : list T) (forces : list (list T))
    (update_mask : list bool) (ob : OB)
    : list (event T Atoms) * option exn * OB :=
  let ob := set_energy_forces energy forces ob in
  let atoms_objects := get_atoms_list ob in
  match split_sizes update_mask (natoms ob) with
  | None => ([], Some RuntimeError, ob)
  | Some update_mask_ =>
      (write_loop cfg 0 atoms_objects (length cfg.(traj_names)) update_mask_, ob)
  end.

(** The local variables of [run] that outlive the loop. *)
Record locals := {
  iteration_ : Z;
  converged_ : bool;
  converged_mask_ : list bool;
  energy_ : option (list T);                  (* [None]: not yet bound *)
  forces_ : option (list (list T))
}.

(** The [while] loop of [run]; [fuel] bounds the iterations left.  The
    events are returned oldest first. *)
Fixpoint run_loop (cfg : config) (fmax_ : T) (steps : Z) (fuel : nat)
    (loc : locals) (st : state)
    : list (event T Atoms) * result (locals * state) :=
  match fuel with
  | O => ([], Ok (loc, st))
  | S fuel' =>
    if negb ((loc.(iteration_) <? steps)%Z && negb loc.(converged_))
    then ([], Ok (loc, st))
    else
      let iteration := loc.(iteration_) in
      let ob := st.(optimizable) in
      let '(_converged_mask, energy, forces, log) :=
        check_convergence fmax_ iteration ob in
      let converged_mask := zip_with orb loc.(converged_mask_) _converged_mask in
      let converged := forallb (fun b => b) converged_mask in
      let update_mask := map negb converged_mask in
      let '(written, failed, ob) :=
        if cfg.(traj_dir) &&
           (cfg.(save_full) || converged || (iteration =? steps - 1)%Z ||
            (iteration =? 0)%Z)
        then write cfg energy (take (pos_rows ob) forces)
                   (take (pos_rows ob) update_mask) ob
        else ([], None, ob) in
      match failed with
      | Some e => (log :: written, Raise e)
      | None =>
        let st := {| optimizable := ob; s_ := st.(s_); y_ := st.(y_);
                     rho_ := st.(rho_); r0 := st.(r0); f0 := st.(f0) |} in
        match (if negb converged && (iteration <? steps - 1)%Z
               then step cfg iteration (Some forces) update_mask st
               else Ok st) with
        | Raise e => (log :: written, Raise e)
        | Ok st =>
          let loc := {| iteration_ := (iteration + 1)%Z;
                        converged_ := converged;
                        converged_mask_ := converged_mask;
                        energy_ := Some energy;
                        forces_ := Some forces |} in
          let '(evs, r) := run_loop cfg fmax_ steps fuel' loc st in
          (log :: written ++ evs, r)
        end
      end
  end.

(** [LBFGS.run(fmax, steps)]: the events of the run and the batch it
    returns. *)
Definition run (cfg : config) (fmax_ : T) (steps : Z) (ob : OB)
    : list (event T Atoms) * result OB :=
  let st := {| optimizable := ob; s_ := []; y_ := []; rho_ := [];
               r0 := None; f0 := None |} in
  let opened :=
    if cfg.(traj_dir) then map Open cfg.(traj_names) else [] in
  let loc := {| iteration_ := 0; converged_ := false;
                converged_mask_ := map (fun _ => false) (batch_indices ob);
                energy_ := None; forces_ := None |} in
  match run_loop cfg fmax_ steps (Z.to_nat steps) loc st with
  | (evs, Raise e) => (opened ++ evs, Raise e)
  | (evs, Ok (loc, st)) =>
      let closed :=
        if cfg.(traj_dir)
        then map Close (seq 0 (length cfg.(traj_names))) ++
             map Rename cfg.(traj_names)
        else [] in
      let evs := opened ++ evs ++ [EmptyCache] ++ closed in
      match loc.(energy_), loc.(forces_) with
      | Some energy, Some forces =>
          let ob := st.(optimizable) in
          (evs, Ok (set_energy_forces energy (take (pos_rows ob) forces) ob))
      | _, _ => (evs, Raise UnboundLocalError)
      end
  end.

End Optimizer.

Arguments config T : clear implicits.
Arguments state T OB : clear implicits.
Arguments locals T : clear implicits.

(** ** A batch to run the optimizer on *)

(** Modelled from the spec: the optimizable batch, whose module
    ([optimizable]) is not among the sources.  The spec lists what the
    optimizer consumes: positions and their setter, forces, potential
    energies, the maximal force of each system, the batch indices, the
    graph update, the list of atoms objects and the counts.  The setter
    stores the positions it is given and the getter returns them; energies
    and forces are what the model predicts at the stored positions; the
    maximal force of a system is the largest norm among its atoms'
    forces. *)
Record batch (T : Type) := {
  pos : list (list T);
  batch_index : list nat;
  natoms_ : list nat;
  model : list (list T) -> list T * list (list T);
  energy : option (list T);
  forces : option (list (list T));
  graph_updates : nat
}.
Arguments pos {T} b.
Arguments batch_index {T} b.
Arguments natoms_ {T} b.
Arguments model {T} b.
Arguments energy {T} b.
Arguments forces {T} b.
Arguments graph_updates {T} b.

#[global] Instance Optimizable_batch {T : Type} {ST : Scalar T}
    : Optimizable T (batch T) (list (list T)) := {|
  get_positions b := pos b;
  set_positions_batch p b :=
    {| pos := p; batch_index := batch_index b; natoms_ := natoms_ b;
       model := model b; energy := energy b; forces := forces b;
       graph_updates := graph_updates b |};
  get_forces b := (model b (pos b)).2;
  get_potential_energies b := (model b (pos b)).1;
  get_max_forces b :=
    scatter_max (map row_norm (model b (pos b)).2) (batch_index b);
  batch_indices b := batch_index b;
  update_graph b :=
    {| pos := pos b; batch_index := batch_index b; natoms_ := natoms_ b;
       model := model b; energy := energy b; forces := forces b;
       graph_updates := S (graph_updates b) |};
  get_atoms_list b := split_go (pos b) (natoms_ b);
  natoms b := natoms_ b;
  pos_rows b := length (pos b);
  set_energy_forces e f b :=
    {| pos := pos b; batch_index := batch_index b; natoms_ := natoms_ b;
       model := model b; energy := Some e; forces := Some f;
       graph_updates := graph_updates b |}
|}.

(** The positions of the batch a run returns, if it returns one. *)
Definition returned_positions {T : Type} (r : result (batch T))
    : option (list (list T)) :=
  match r with
  | Ok b => Some (pos b)
  | Raise _ => None
  end.

(** A harmonic force field: every atom is pulled to its own centre, with
    force [centre - position]; a system's energy is half the squared
    distance of its atoms from their centres. *)
Definition harmonic {T : Type} {ST : Scalar T} (index : list nat)
    (centres : list (list T)) (positions : list (list T))
    : list T * list (list T) :=
  let f := tsub centres positions in
  (map (fun e => fdiv e (fadd fone fone)) (scatter_sum (zip_with row_dot f f) index), f).

Definition harmonic_batch {T : Type} {ST : Scalar T} (index natoms_ : list nat)
    (centres positions : list (list T)) : batch T :=
  {| pos := positions; batch_index := index; natoms_ := natoms_;
     model := harmonic index centres; energy := None; forces := None;
     graph_updates := 0 |}.

(** The default arguments of [__init__], without and with trajectories
    for two systems. *)
Definition default_config : config float :=
  {| maxstep := 0x1.47ae147ae147bp-7%float;        (* 0.01 *)
     memory := 100;
     damping := 0.25%float;
     alpha := 100%float;
     save_full := true;
     traj_dir := false;
     traj_names := [];
     mask_converged := true;
     otf_graph := true |}.

Definition traj_config : config float :=
  {| maxstep := 0x1.47ae147ae147bp-7%float;
     memory := 100;
     damping := 0.25%float;
     alpha := 100%float;
     save_full := true;
     traj_dir := true;
     traj_names := ["a"; "b"]%string;
     mask_converged := true;
     otf_graph := true |}.

(** Two systems of one atom each: the first sits at its centre (1, 2, 3),
    the second half a unit away from its centre, the origin. *)
Definition two_atoms : batch float :=
  harmonic_batch [0; 1] [1; 1]
    [[1; 2; 3]; [0; 0; 0]]%float
    [[1; 2; 3]; [0.5; 0; 0]]%float.

(** The optimizer after a step that moved the second atom only. *)
Definition stalled : state float (batch float) :=
  {| optimizable :=
       harmonic_batch [0; 1] [1; 1]
         [[1; 2; 3]; [0; 0; 0]]%float
         [[1; 2; 3]; [0.25; 0; 0]]%float;
     s_ := []; y_ := []; rho_ := [];
     r0 := Some [[1; 2; 3]; [0.5; 0; 0]]%float;
     f0 := Some [[0; 0; 0]; [-0.5; 0; 0]]%float |}.

(** One atom a hair away from its centre. *)
Definition nearly_relaxed : batch float :=
  harmonic_batch [0; 1] [1; 1]
    [[0; 0; 0]; [0; 0; 0]]%float
    [[0x1p-20; 0; 0]; [0x1p-20; 0; 0]]%float.

End LBFGS.

(* ===================================================================== *)
(** * The metric records in the arithmetic of the code (evaluator.py)     *)
(* ===================================================================== *)

(** The tensors the evaluator is given are float32 tensors, and the
    records it builds and accumulates hold Python floats (binary64): every
    operation on a tensor is rounded to binary32, [item()] is exact, and
    every [+=] and [/] of [update] is rounded to binary64.  The functions
    below are those of [Evaluator] on one-dimensional tensors, in that
    arithmetic; a binary32 number is held as the binary64 number of the
    same value. *)

Module EvaluatorBinary.
#[local] Set Warnings "-inexact-float".
Local Open Scope float_scope.

Abbreviation result := Evaluator.result.
Abbreviation Ok := Evaluator.Ok.
Abbreviation Raise := Evaluator.Raise.

Definition round32 : float -> float := LBFGS.round_binary32.

(** [float(n)] for a Python integer (counts stay far below the range of
    binary64). *)
Definition of_int (n : Z) : float := SF2Prim (binary_normalize 53 1024 n 0 false).

(** The record [{"metric": .., "total": .., "numel": ..}]; [metric] is
    [None] for Python's [None]. *)
Record stat := { metric : option float; total : float; numel : Z }.

Definition stat_init : stat := {| metric := None; total := 0; numel := 0 |}.

(** [torch.sum(t)] of a float32 tensor, taken from left to right (the
    library fixes no order of summation). *)
Definition tsum32 (t : list float) : float :=
  fold_left (fun acc x => round32 (acc + x)) t 0.

(** [torch.mean(t)]: not a number on an empty tensor. *)
Definition tmean32 (t : list float) : float :=
  round32 (tsum32 t / round32 (of_int (Z.of_nat (length t)))).

(** [f(target, prediction)] elementwise; shapes that differ are broadcast
    or refused by the back end, and are refused here. *)
Definition elementwise (f : float -> float -> float) (a b : list float)
    : result (list float) :=
  if Nat.eqb (length a) (length b) then Ok (zip_with f a b)
  else Raise Evaluator.RuntimeError.

(** [torch.abs(target - prediction)], for one element *)
Definition abs_err (t p : float) : float := abs (round32 (t - p)).

(** [absolute_error(prediction, target)] *)
Definition absolute_error (prediction target : list float) : result stat :=
  match elementwise abs_err target prediction with
  | Evaluator.Raise e => Raise e
  | Evaluator.Ok error =>
      Ok {| metric := Some (tmean32 error); total := tsum32 error;
            numel := Z.of_nat (length prediction) |}
  end.

(** [e_thresh = 0.02], compared with a float32 tensor. *)
Definition e_thresh : float := round32 0.02.

(** [energy_within_threshold], on the two energy tensors. *)
Definition energy_within_threshold (prediction target : list float) : result stat :=
  match elementwise abs_err target prediction with
  | Evaluator.Raise e => Raise e
  | Evaluator.Ok error_energy =>
      let success :=
        Z.of_nat (length (List.filter (fun e => e <? e_thresh) error_energy)) in
      let total_ := Z.of_nat (length target) in
      if Z.eqb total_ 0 then Raise Evaluator.ZeroDivisionError
      else Ok {| metric := Some (of_int success / of_int total_);
                 total := of_int success;
                 numel := total_ |}
  end.

(** What [update] may be handed as [stat]. *)
Inductive stat_arg :=
| StatDict (s : stat)
| StatNum (x : float)
| StatTensor
| StatOther.

(** [metrics[key]["total"] += t; metrics[key]["numel"] += n;
    metrics[key]["metric"] = metrics[key]["total"] / metrics[key]["numel"]];
    what was written before the division raises stays written. *)
Definition accumulate (key : string) (t : float) (n : Z) (m : gmap string stat)
    : result unit * gmap string stat :=
  let a := default stat_init (m !! key) in
  let tot := a.(total) + t in
  let num := (a.(numel) + n)%Z in
  let m := <[key := {| metric := a.(metric); total := tot; numel := num |}]> m in
  if Z.eqb num 0 then (Raise Evaluator.ZeroDivisionError, m)
  else (Ok tt, <[key := {| metric := Some (tot / of_int num);
                           total := tot; numel := num |}]> m).

(** [Evaluator.update(key, stat, metrics)] *)
Definition update (key : string) (st : stat_arg) (m : gmap string stat)
    : result unit * gmap string stat :=
  let m := if bool_decide (m !! key = None) then <[key := stat_init]> m else m in
  match st with
  | StatDict s => accumulate key s.(total) s.(numel) m
  | StatNum x => accumulate key x 1 m
  | StatTensor => (Raise Evaluator.NotImplementedError, m)
  | StatOther => (Ok tt, m)
  end.

(** The accumulator stored under a key ([stat_init] when there is none). *)
Definition acc_at (m : gmap string stat) (k : string) : stat :=
  default stat_init (m !! k).

(** Records merged one after the other under one key. *)
Fixpoint update_all (key : string) (ss : list stat) (m : gmap string stat)
    : result unit * gmap string stat :=
  match ss with
  | [] => (Ok tt, m)
  | s :: rest =>
      match update key (StatDict s) m with
      | (Evaluator.Ok _, m') => update_all key rest m'
      | (Evaluator.Raise e, m') => (Raise e, m')
      end
  end.

(** Raw data accumulated batch by batch under one key: each batch is a
    pair of a prediction and a target tensor, scored by
    [absolute_error]. *)
Fixpoint accumulate_absolute_error (key : string)
    (batches : list (list float * list float)) (m : gmap string stat)
    : result unit * gmap string stat :=
  match batches with
  | [] => (Ok tt, m)
  | (p, t) :: rest =>
      match absolute_error p t with
      | Evaluator.Raise e => (Raise e, m)
      | Evaluator.Ok res =>
          match update key (StatDict res) m with
          | (Evaluator.Ok _, m') => accumulate_absolute_error key rest m'
          | (Evaluator.Raise e, m') => (Raise e, m')
          end
      end
  end.

End EvaluatorBinary.

(* ===================================================================== *)
(** * Properties of the sharded dataset index                             *)
(* ===================================================================== *)

Module TrajectoryLmdbSpec.
Import TrajectoryLmdb.
Local Open Scope Z_scope.

Lemma sum_firstn_S (lens : list Z) (s : nat) :
  (s < length lens)%nat ->
  sum (firstn (S s) lens) = sum (firstn s lens) + nth s lens 0.
Proof.
  revert s. induction lens as [|x r IH]; intros s Hs; simpl in Hs.
  - lia.
  - destruct s as [|s].
    + simpl. lia.
    + change (sum (firstn (S (S s)) (x :: r))) with (x + sum (firstn (S s) r)).
      rewrite IH by lia. simpl. lia.
Qed.

Lemma sum_firstn_all (lens : list Z) (s : nat) :
  (length lens <= s)%nat -> sum (firstn s lens) = sum lens.
Proof. intros H. now rewrite firstn_all2. Qed.

Lemma sum_nonneg (lens : list Z) : Forall (fun x => 0 <= x) lens -> 0 <= sum lens.
Proof. induction 1; simpl; lia. Qed.

Lemma sum_firstn_mono (lens : list Z) (s t : nat) :
  Forall (fun x => 0 <= x) lens -> (s <= t)%nat ->
  sum (firstn s lens) <= sum (firstn t lens).
Proof.
  intros Hpos. revert s t.
  induction Hpos as [|x r Hx Hr IH]; intros s t Hst.
  - rewrite !firstn_nil. lia.
  - destruct s as [|s]; destruct t as [|t]; simpl; try lia.
    + pose proof (sum_nonneg (firstn t r)) as Hn.
      specialize (Hn (Forall_take _ t _ Hr)). lia.
    + specialize (IH s t). lia.
Qed.

Lemma nth_cumsum_from (lens : list Z) (acc : Z) (s : nat) :
  (s < length lens)%nat ->
  nth s (cumsum_from acc lens) 0 = acc + sum (firstn (S s) lens).
Proof.
  revert acc s. induction lens as [|x r IH]; intros acc s Hs; simpl in Hs.
  - lia.
  - destruct s as [|s].
    + simpl. lia.
    + change (nth (S s) (cumsum_from acc (x :: r)) 0)
        with (nth s (cumsum_from (acc + x) r) 0).
      rewrite IH by lia.
      change (sum (firstn (S (S s)) (x :: r))) with (x + sum (firstn (S s) r)).
      lia.
Qed.

Lemma length_cumsum_from (lens : list Z) (acc : Z) :
  length (cumsum_from acc lens) = length lens.
Proof. revert acc. induction lens; intros; simpl; auto. Qed.

(** The scan stops at the shard whose range of global indices holds [idx]. *)
Lemma scan_in_range (lens : list Z) (acc idx : Z) (i : nat) :
  Forall (fun x => 0 <= x) lens ->
  acc <= idx < acc + sum lens ->
  exists s, scan (cumsum_from acc lens) idx i = Some (i + s)%nat /\
            (s < length lens)%nat /\
            acc + sum (firstn s lens) <= idx < acc + sum (firstn (S s) lens).
Proof.
  intros Hpos. revert acc i.
  induction Hpos as [|x r Hx Hr IH]; intros acc i Hidx; simpl in Hidx.
  - lia.
  - simpl. destruct (Z.gtb_spec (acc + x) idx) as [Hgt|Hle].
    + exists 0%nat. simpl. rewrite Nat.add_0_r. repeat split; try lia.
    + destruct (IH (acc + x) (S i)) as (s & Hs & Hlt & Hrange); [lia|].
      exists (S s). rewrite Hs. repeat split.
      * f_equal. lia.
      * simpl. lia.
      * simpl. lia.
      * change (sum (firstn (S (S s)) (x :: r))) with (x + sum (firstn (S s) r)).
        lia.
Qed.

(** Past the last sample the scan never breaks. *)
Lemma scan_past_end (lens : list Z) (acc idx : Z) (i : nat) :
  Forall (fun x => 0 <= x) lens ->
  acc + sum lens <= idx ->
  scan (cumsum_from acc lens) idx i = None.
Proof.
  intros Hpos. revert acc i.
  induction Hpos as [|x r Hx Hr IH]; intros acc i Hidx; simpl in *.
  - reflexivity.
  - pose proof (sum_nonneg r Hr).
    destruct (Z.gtb_spec (acc + x) idx) as [Hgt|Hle]; [lia|].
    apply IH. lia.
Qed.

Section Facts.
Context {Data : Type}.
Implicit Types ds : dataset Data.

Lemma keylens_nonneg ds : Forall (fun x => 0 <= x) (_keylens ds).
Proof.
  unfold _keylens. induction (_keys ds) as [|k r IH]; simpl; constructor.
  - lia.
  - exact IH.
Qed.

Lemma length_keylens ds : length (_keylens ds) = length (_keys ds).
Proof. unfold _keylens. now rewrite length_map. Qed.

(** What the first half of [__getitem__] computes for an index in range. *)
Lemma locate_in_range ds idx :
  0 <= idx < len ds ->
  exists s, locate ds idx = (s, idx - offset ds s) /\
            (s < length (_keylens ds))%nat /\
            offset ds s <= idx < offset ds s + shard_len ds s /\
            nth s (_keylen_cumulative ds) 0 = offset ds s + shard_len ds s.
Proof.
  intros Hidx.
  destruct (scan_in_range (_keylens ds) 0 idx 0 (keylens_nonneg ds))
    as (s & Hscan & Hlt & Hrange); [exact Hidx|].
  simpl in Hscan.
  exists s. unfold locate, el_idx_of, db_idx_of, _keylen_cumulative, cumsum.
  rewrite Hscan. unfold offset, shard_len.
  rewrite sum_firstn_S in Hrange by exact Hlt.
  repeat split; try lia.
  - f_equal. destruct s as [|s]; simpl Nat.eqb; cbv iota.
    + simpl. lia.
    + replace (S s - 1)%nat with s by lia.
      rewrite nth_cumsum_from by lia. lia.
  - rewrite nth_cumsum_from by lia. rewrite sum_firstn_S by lia. lia.
Qed.

(** Two valid pairs that name the same global index are the same pair. *)
Lemma offset_injective ds s l s' l' :
  valid_pair ds (s, l) -> valid_pair ds (s', l') ->
  offset ds s + l = offset ds s' + l' -> (s, l) = (s', l').
Proof.
  unfold valid_pair, offset, shard_len. simpl.
  intros [Hs Hl] [Hs' Hl'] Heq.
  pose proof (keylens_nonneg ds) as Hpos.
  destruct (Nat.lt_trichotomy s s') as [Hlt|[->|Hgt]].
  - pose proof (sum_firstn_mono (_keylens ds) (S s) s' Hpos ltac:(lia)).
    rewrite sum_firstn_S in H by lia. lia.
  - f_equal. lia.
  - pose proof (sum_firstn_mono (_keylens ds) (S s') s Hpos ltac:(lia)).
    rewrite sum_firstn_S in H by lia. lia.
Qed.

Lemma offset_in_range ds s l :
  valid_pair ds (s, l) -> 0 <= offset ds s + l < len ds.
Proof.
  unfold valid_pair, offset, shard_len, len. simpl. intros [Hs Hl].
  pose proof (keylens_nonneg ds) as Hpos.
  pose proof (sum_firstn_mono (_keylens ds) 0 s Hpos ltac:(lia)) as H0.
  pose proof (sum_firstn_mono (_keylens ds) (S s) (length (_keylens ds)) Hpos
                ltac:(lia)) as H1.
  rewrite sum_firstn_S in H1 by lia.
  rewrite (sum_firstn_all (_keylens ds) (length (_keylens ds))) in H1 by lia.
  simpl in H0. lia.
Qed.

Lemma init_nonempty lengths get tr ds :
  init lengths get tr = Some ds -> (0 < length (_keys ds))%nat.
Proof.
  unfold init. destruct (Nat.ltb_spec 0 (length lengths)) as [H|H]; [|discriminate].
  intros [= <-]. simpl. now rewrite length_map.
Qed.

Lemma shard_len_keys ds s :
  shard_len ds s = Z.of_nat (length (nth s (_keys ds) [])).
Proof.
  unfold shard_len, _keylens.
  change 0 with (Z.of_nat (length (@nil Z))) at 1.
  apply (map_nth (fun k : list Z => Z.of_nat (length k))).
Qed.

Lemma offset_keys ds s :
  offset ds s = sum (map (fun k => Z.of_nat (length k)) (firstn s (_keys ds))).
Proof. unfold offset, _keylens. now rewrite firstn_map. Qed.

(** C4: with [L_s] the number of keys that shard [s] holds (for a dataset
    built by [__init__], the length stored in the shard), [__len__] is the
    sum of the [L_s], and every global index [idx] in [0, len) is resolved by
    [__getitem__] to one pair (shard, local index): the shard is the first
    whose cumulative count strictly exceeds [idx], the local index lies in
    [0, L_shard), [idx] is the number of samples of the shards before plus
    the local index, and the record fetched is the one stored under that
    shard's key at that local index; the map from indices to pairs is
    injective on [0, len) and every pair (s, l) with [0 <= l < L_s] is the
    image of an index of [0, len). *)
Theorem getitem_index_bijection ds :
  let L := fun s : nat => Z.of_nat (length (nth s (_keys ds) [])) in
  let before := fun s : nat =>
    sum (map (fun k => Z.of_nat (length k)) (firstn s (_keys ds))) in
  let valid := fun p : nat * Z =>
    (fst p < length (_keys ds))%nat /\ 0 <= snd p < L (fst p) in
  len ds = sum (map (fun k => Z.of_nat (length k)) (_keys ds)) /\
  (forall lengths get tr, init lengths get tr = Some ds ->
     length (_keys ds) = length lengths /\
     forall s, (s < length lengths)%nat -> L s = Z.max 0 (nth s lengths 0)) /\
  (forall idx, 0 <= idx < len ds ->
     let s := fst (locate ds idx) in
     let l := snd (locate ds idx) in
     valid (s, l) /\
     idx = before s + l /\
     nth s (_keylen_cumulative ds) 0 > idx /\
     (forall j, (j < s)%nat -> nth j (_keylen_cumulative ds) 0 <= idx) /\
     exists key,
       nth_error (nth s (_keys ds) []) (Z.to_nat l) = Some key /\
       getitem ds idx =
         match shard_get ds s key with
         | None => TypeError
         | Some d => Returned (match transform ds with
                               | None => d
                               | Some f => f d
                               end)
         end) /\
  (forall i j, 0 <= i < len ds -> 0 <= j < len ds ->
     locate ds i = locate ds j -> i = j) /\
  (forall p, valid p ->
     exists idx, 0 <= idx < len ds /\ locate ds idx = p).
Proof.
  intros L before valid.
  assert (forall p, valid p <-> valid_pair ds p) as Hvalid_iff.
  { intros [s l]. unfold valid, valid_pair, L. cbn [fst snd].
    now rewrite shard_len_keys, length_keylens. }
  split; [reflexivity|]. split; [|split; [|split]].
  - intros lengths get tr Hinit. unfold init in Hinit.
    destruct (0 <? length lengths)%nat; [|discriminate].
    injection Hinit as <-. cbn [_keys]. split; [apply length_map|].
    intros s Hs. unfold L. cbn [_keys].
    change (@nil Z) with (range 0).
    rewrite (map_nth range). unfold range.
    rewrite length_map, length_seq. lia.
  - intros idx Hidx.
    destruct (locate_in_range ds idx Hidx) as (s & Hloc & Hs & Hrange & Hcum).
    rewrite Hloc. cbn [fst snd]. cbv zeta.
    assert (valid_pair ds (s, idx - offset ds s)) as Hvalid.
    { split; cbn [fst snd]; [exact Hs | lia]. }
    split; [now apply Hvalid_iff|].
    split; [unfold before; rewrite <- offset_keys; lia|].
    split; [lia|]. split.
    + intros j Hj. unfold _keylen_cumulative, cumsum.
      rewrite nth_cumsum_from by lia.
      pose proof (sum_firstn_mono (_keylens ds) (S j) s (keylens_nonneg ds)
                    ltac:(lia)) as Hm.
      unfold offset in Hrange. lia.
    + rewrite length_keylens in Hs.
      destruct (nth_error (_keys ds) s) as [keys|] eqn:Hkeys;
        [|apply nth_error_None in Hkeys; lia].
      rewrite (nth_error_nth _ _ [] Hkeys).
      assert (shard_len ds s = Z.of_nat (length keys)) as Hlen.
      { rewrite shard_len_keys. now rewrite (nth_error_nth _ _ [] Hkeys). }
      destruct (nth_error keys (Z.to_nat (idx - offset ds s))) as [key|] eqn:Hkey;
        [|apply nth_error_None in Hkey; lia].
      exists key. split; [reflexivity|].
      unfold getitem. injection Hloc as Hdb Hel. rewrite Hdb, Hel, Hkeys.
      destruct (Z.ltb_spec (idx - offset ds s) 0) as [Hneg|_]; [lia|].
      unfold py_index.
      destruct (Z.leb_spec 0 (idx - offset ds s)) as [_|Hneg]; [|lia].
      now rewrite Hkey.
  - intros i j Hi Hj Heq.
    destruct (locate_in_range ds i Hi) as (s & Hloc & Hs & Hrange & _).
    destruct (locate_in_range ds j Hj) as (s' & Hloc' & Hs' & Hrange' & _).
    rewrite Hloc, Hloc' in Heq. injection Heq as -> Hl. lia.
  - intros [s l] Hvalid. apply Hvalid_iff in Hvalid.
    pose proof (offset_in_range ds s l Hvalid) as Hidx.
    exists (offset ds s + l). split; [exact Hidx|].
    destruct (locate_in_range ds _ Hidx) as (s' & Hloc & Hs' & Hrange & _).
    rewrite Hloc. apply (offset_injective ds).
    + split; cbn [fst snd]; [exact Hs' | lia].
    + exact Hvalid.
    + lia.
Qed.

(** C9: for an index at or past the end there is no bounds check: the scan
    finds no cumulative count above [idx], shard 0 and local index [idx] are
    kept, the assertion [el_idx >= 0] holds, the lookup in shard 0's key list
    is out of range, and [__getitem__] ends in an IndexError instead of
    returning a record. *)
Theorem getitem_past_end_index_error ds idx :
  (0 < length (_keys ds))%nat ->
  len ds <= idx ->
  scan (_keylen_cumulative ds) idx 0 = None /\
  locate ds idx = (0%nat, idx) /\
  (idx <? 0) = false /\
  (exists keys0, nth_error (_keys ds) 0 = Some keys0 /\
                 py_index keys0 idx = None) /\
  getitem ds idx = IndexError /\
  (forall d, getitem ds idx <> Returned d).
Proof.
  intros Hne Hidx.
  assert (scan (_keylen_cumulative ds) idx 0 = None) as Hscan.
  { apply scan_past_end; [apply keylens_nonneg | exact Hidx]. }
  assert (locate ds idx = (0%nat, idx)) as Hloc.
  { unfold locate, el_idx_of, db_idx_of. now rewrite Hscan. }
  pose proof (sum_nonneg _ (keylens_nonneg ds)) as Hlen. fold (len ds) in Hlen.
  assert ((idx <? 0) = false) as Hassert by (apply Z.ltb_ge; lia).
  destruct (_keys ds) as [|keys0 rest] eqn:Hkeys; [simpl in Hne; lia|].
  assert (py_index keys0 idx = None) as Hpy.
  { unfold py_index. destruct (Z.leb_spec 0 idx) as [_|Hneg]; [|lia].
    apply nth_error_None.
    unfold len, _keylens in Hidx. rewrite Hkeys in Hidx. simpl in Hidx.
    pose proof (sum_nonneg (map (fun k => Z.of_nat (length k)) rest)) as Hr.
    assert (Forall (fun x => 0 <= x) (map (fun k : list Z => Z.of_nat (length k)) rest)).
    { clear. induction rest; simpl; constructor; [lia|auto]. }
    specialize (Hr H). lia. }
  assert (getitem ds idx = IndexError) as Hget.
  { unfold getitem. injection Hloc as Hdb Hel.
    rewrite Hdb, Hel, Hassert, Hkeys. simpl. now rewrite Hpy. }
  repeat split; try assumption.
  - exists keys0. split; [reflexivity | exact Hpy].
  - intros d. rewrite Hget. discriminate.
Qed.

End Facts.

(** The example dataset is one the constructor builds. *)
Example example_ds_init :
  init [2; 0; 3] (fun s k => Some (s, k)) None = Some example_ds.
Proof. reflexivity. Qed.

Example example_ds_locate :
  map (locate example_ds) [0; 1; 2; 3; 4] =
  [(0%nat, 0); (0%nat, 1); (2%nat, 0); (2%nat, 1); (2%nat, 2)].
Proof. reflexivity. Qed.

(** The dataset with shard lengths 2, 0 and 3 has five samples, and the
    record at local index 1 of the last shard, behind the empty shard, is
    reached from an index below 5. *)
Lemma getitem_index_bijection_witness :
  len example_ds = 5 /\
  exists idx, 0 <= idx < len example_ds /\ locate example_ds idx = (2%nat, 1).
Proof.
  destruct (getitem_index_bijection example_ds) as (Hlen & _ & _ & _ & Honto).
  split; [exact Hlen|]. apply (Honto (2%nat, 1)).
  vm_compute. repeat split; lia || discriminate.
Defined.

Lemma getitem_past_end_index_error_witness :
  (0 < length (_keys example_ds))%nat /\ len example_ds <= 5 /\
  locate example_ds 5 = (0%nat, 5) /\ getitem example_ds 5 = IndexError.
Proof.
  assert (0 < length (_keys example_ds))%nat as H0 by (vm_compute; lia).
  assert (len example_ds <= 5) as H1 by (vm_compute; discriminate).
  split; [exact H0|]. split; [exact H1|].
  split; apply (getitem_past_end_index_error example_ds 5 H0 H1).
Defined.

(** ** Further properties of the dataset *)

Section MoreFacts.
Context {Data : Type}.
Implicit Types ds : dataset Data.

(** X1: a negative index is not counted from the end, as it is for a
    Python list: the scan leaves shard 0, the local index is the negative
    index itself, and the assertion [el_idx >= 0] fails. *)
Theorem getitem_negative_index ds idx :
  idx < 0 -> getitem ds idx = AssertionError.
Proof.
  intros Hneg.
  assert (db_idx_of ds idx = 0%nat) as Hdb.
  { unfold db_idx_of, _keylen_cumulative, cumsum.
    pose proof (keylens_nonneg ds) as Hpos.
    destruct (_keylens ds) as [|x r]; [reflexivity|].
    apply Forall_cons in Hpos as [Hx _]. simpl.
    destruct (Z.gtb_spec (0 + x) idx) as [_|Hle]; [reflexivity | lia]. }
  unfold getitem, el_idx_of. rewrite Hdb. simpl.
  destruct (Z.ltb_spec idx 0) as [_|Hge]; [reflexivity | lia].
Qed.

Lemma nth_error_range (n l : Z) :
  0 <= l < n -> nth_error (range n) (Z.to_nat l) = Some l.
Proof.
  intros Hl. unfold range.
  rewrite nth_error_map, nth_error_seq.
  destruct (Nat.ltb_spec (Z.to_nat l) (Z.to_nat n)) as [_|Hge]; [|lia].
  simpl. f_equal. lia.
Qed.

Lemma length_range (n : Z) : Z.of_nat (length (range n)) = Z.max 0 n.
Proof. unfold range. rewrite length_map, length_seq. lia. Qed.

(** X2: in a dataset built by [__init__] the keys of a shard are its
    local indices, so the sample at position [l] of shard [s] is read at the
    global index "samples stored before shard [s], plus [l]": [__getitem__]
    returns the record stored in shard [s] under key [l], transformed, and
    raises a TypeError when the shard has no such key. *)
Theorem getitem_init_reads_local_key (lengths : list Z)
    (get : nat -> Z -> option Data) (tr : option (Data -> Data)) ds (s : nat) (l : Z) :
  init lengths get tr = Some ds ->
  (s < length lengths)%nat ->
  0 <= l < nth s lengths 0 ->
  offset ds s = sum (map (Z.max 0) (firstn s lengths)) /\
  getitem ds (offset ds s + l) =
    match get s l with
    | None => TypeError
    | Some d => Returned (match tr with None => d | Some f => f d end)
    end.
Proof.
  unfold init. destruct (0 <? length lengths)%nat; [|discriminate].
  intros [= <-] Hs Hl.
  set (ds := {| _keys := map range lengths; shard_get := get; transform := tr |}).
  assert (_keylens ds = map (Z.max 0) lengths) as Hlens.
  { unfold _keylens, ds. simpl. rewrite map_map. apply map_ext.
    intros n. apply length_range. }
  assert (valid_pair ds (s, l)) as Hvalid.
  { unfold valid_pair, shard_len. rewrite Hlens, length_map. simpl.
    split; [exact Hs|].
    rewrite (nth_indep _ 0 (Z.max 0 0)) by (rewrite length_map; exact Hs).
    rewrite (map_nth (Z.max 0)). lia. }
  split.
  { unfold offset. rewrite Hlens, firstn_map. reflexivity. }
  pose proof (offset_in_range ds s l Hvalid) as Hidx.
  destruct (locate_in_range ds _ Hidx) as (s' & Hloc & Hs' & Hrange & _).
  assert ((s', offset ds s + l - offset ds s') = (s, l)) as Heq.
  { apply (offset_injective ds); [|exact Hvalid|lia].
    split; cbn [fst snd]; [exact Hs' | lia]. }
  rewrite Heq in Hloc. injection Hloc as Hdb Hel.
  unfold getitem. rewrite Hdb, Hel.
  destruct (Z.ltb_spec l 0) as [Hneg|_]; [lia|].
  cbn [_keys ds shard_get transform].
  rewrite nth_error_map.
  destruct (nth_error lengths s) as [n|] eqn:Hn;
    [|apply nth_error_None in Hn; lia].
  rewrite (nth_error_nth _ _ 0 Hn) in Hl. simpl.
  unfold py_index. destruct (Z.leb_spec 0 l) as [_|Hneg]; [|lia].
  rewrite nth_error_range by exact Hl. reflexivity.
Qed.

End MoreFacts.

(** ** The manifest files *)

Lemma basename_no_slash (p : string) : has_char "/" (basename p) = false.
Proof.
  induction p as [|c r IH]; [reflexivity|].
  cbn [basename]. destruct (has_char "/" (String c r)) eqn:Hc; [exact IH | exact Hc].
Qed.

Lemma has_char_before_comma (c : ascii) (s : string) :
  has_char c (before_comma s) = true -> has_char c s = true.
Proof.
  induction s as [|c' r IH]; simpl; [discriminate|].
  destruct (Ascii.eqb c' ","); simpl; [discriminate|].
  destruct (Ascii.eqb c' c); simpl; [reflexivity | exact IH].
Qed.

Lemma before_comma_no_comma (s : string) : has_char "," (before_comma s) = false.
Proof.
  induction s as [|c r IH]; simpl; [reflexivity|].
  destruct (Ascii.eqb c ",") eqn:Hc; simpl; [reflexivity|].
  rewrite Hc. exact IH.
Qed.

Lemma has_char_substring (c : ascii) (n m : nat) (p : string) :
  has_char c (String.substring n m p) = true -> has_char c p = true.
Proof.
  revert n m. induction p as [|c' r IH]; intros n m.
  - destruct n, m; simpl; discriminate.
  - destruct n as [|n].
    + destruct m as [|m]; simpl; [discriminate|].
      destruct (Ascii.eqb c' c); simpl; [reflexivity | apply IH].
    + simpl. intros H. apply IH in H. rewrite H. apply orb_true_r.
Qed.

Lemma has_char_splitext_root (c : ascii) (p : string) :
  has_char c (splitext_root p) = true -> has_char c p = true.
Proof.
  unfold splitext_root, slice.
  destruct (_ && _); [apply has_char_substring | trivial].
Qed.

Lemma has_char_app_slash (a b : string) : has_char "/" (a +:+ String "/" b) = true.
Proof.
  induction a as [|c a IH]; simpl; [reflexivity|].
  rewrite IH. apply orb_true_r.
Qed.

(** X3: the system identifier of a manifest line holds neither a ['/']
    nor a comma, and it is taken from what follows the last ['/'] of the
    whole line, wherever that is: what precedes it, commas included, is
    ignored. *)
Theorem systemid_after_last_slash (sample : string) :
  has_char "/" (systemid sample) = false /\
  has_char "," (systemid sample) = false /\
  forall front : string,
    systemid (front +:+ String "/" sample) = systemid sample.
Proof.
  split; [|split].
  - unfold systemid.
    destruct (has_char "/" (splitext_root (before_comma (basename sample)))) eqn:H;
      [|reflexivity].
    apply has_char_splitext_root, has_char_before_comma in H.
    now rewrite basename_no_slash in H.
  - unfold systemid.
    destruct (has_char "," (splitext_root (before_comma (basename sample)))) eqn:H;
      [|reflexivity].
    apply has_char_splitext_root in H.
    now rewrite before_comma_no_comma in H.
  - intros front. unfold systemid. f_equal. f_equal.
    induction front as [|c front IH].
    + reflexivity.
    + change (String c front +:+ String "/" sample)
        with (String c (front +:+ String "/" sample)).
      cbn [basename].
      change (has_char "/" (String c (front +:+ String "/" sample)))
        with (Ascii.eqb c "/" || has_char "/" (front +:+ String "/" sample)).
      rewrite has_char_app_slash, orb_true_r. exact IH.
Qed.

Lemma add_samples_recorded (lines : list string) :
  forall k m k' m',
  0 <= k -> recorded k m ->
  add_samples lines k m = (k', m') ->
  k' = k + Z.of_nat (length lines) /\ recorded k' m'.
Proof.
  induction lines as [|sample lines IH]; intros k m k' m' Hk [Hin Hall] Hrun.
  - injection Hrun as <- <-. split; [simpl; lia | split; assumption].
  - simpl in Hrun. apply IH in Hrun as [-> Hrec]; [split; [simpl length; lia | exact Hrec] | lia |].
    split.
    + intros sid l i Hl Hi.
      destruct (decide (systemid sample = sid)) as [<-|Hne].
      * rewrite lookup_insert_eq in Hl. injection Hl as <-.
        apply elem_of_app in Hi as [Hi|Hi].
        -- destruct (m !! systemid sample) as [l0|] eqn:Hm; simpl in Hi.
           ++ specialize (Hin _ _ _ Hm Hi). lia.
           ++ inversion Hi.
        -- apply list_elem_of_singleton in Hi as ->. lia.
      * rewrite lookup_insert_ne in Hl by exact Hne.
        specialize (Hin _ _ _ Hl Hi). lia.
    + intros i Hi.
      destruct (decide (i = k)) as [->|Hne].
      * exists (systemid sample), (default [] (m !! systemid sample) ++ [k]).
        split; [apply lookup_insert_eq|]. apply elem_of_app. right.
        apply list_elem_of_singleton. reflexivity.
      * destruct (Hall i ltac:(lia)) as (sid & l & Hl & Hil).
        destruct (decide (systemid sample = sid)) as [<-|Hne'].
        -- exists (systemid sample), (default [] (m !! systemid sample) ++ [k]).
           split; [apply lookup_insert_eq|]. rewrite Hl. simpl.
           apply elem_of_app. left. exact Hil.
        -- exists sid, l. split; [|exact Hil].
           now rewrite lookup_insert_ne.
Qed.

Lemma read_manifests_recorded (keylens : list Z) (txts : list (list string)) :
  Forall (fun x => 0 <= x) keylens ->
  forall kidx k m k' m',
  0 <= k -> recorded k m ->
  read_manifests keylens txts kidx k m = Some (k', m') ->
  k <= k' <= k + sum (skipn kidx keylens) /\ recorded k' m'.
Proof.
  intros Hpos. induction txts as [|lines txts IH]; intros kidx k m k' m' Hk Hrec Hrun.
  - injection Hrun as <- <-.
    pose proof (sum_nonneg (skipn kidx keylens) (Forall_drop _ kidx _ Hpos)).
    split; [lia | exact Hrec].
  - simpl in Hrun.
    destruct (nth_error keylens kidx) as [n|] eqn:Hn; [|discriminate].
    destruct (add_samples (take (Z.to_nat n) lines) k m) as [k1 m1] eqn:Hadd.
    apply add_samples_recorded in Hadd as [Hk1 Hrec1]; [|exact Hk|exact Hrec].
    apply IH in Hrun as [Hk' Hrec']; [|lia|exact Hrec1].
    split; [|exact Hrec'].
    assert (skipn kidx keylens = n :: skipn (S kidx) keylens) as Hskip.
    { clear -Hn. revert kidx Hn. induction keylens as [|x r IHr]; intros kidx Hn.
      - destruct kidx; discriminate.
      - destruct kidx as [|kidx]; simpl in *.
        + injection Hn as ->. reflexivity.
        + now apply IHr. }
    rewrite Hskip. simpl.
    assert (0 <= n) as Hn0.
    { rewrite Forall_forall in Hpos. apply Hpos.
      apply list_elem_of_In. eapply nth_error_In; eassumption. }
    rewrite length_take in Hk1. lia.
Qed.

Section Manifests.
Context {Data : Type}.

(** X4: when [__init__] gets through the manifest files, the running
    index it ends with is at most the length of the dataset, every index
    recorded for a system lies below it, so is an index [__getitem__]
    accepts, and every index below it is recorded for some system. *)
Theorem system_samples_cover_indices (ds : dataset Data)
    (txts : list (list string)) (k : Z) (m : gmap string (list Z)) :
  system_samples ds txts = Some (k, m) ->
  0 <= k <= len ds /\
  (forall sid l i, m !! sid = Some l -> i ∈ l -> 0 <= i < k) /\
  (forall i, 0 <= i < k -> exists sid l, m !! sid = Some l /\ i ∈ l).
Proof.
  intros Hrun. unfold system_samples in Hrun.
  apply (read_manifests_recorded _ _ (keylens_nonneg ds)) in Hrun
    as [Hk [Hin Hall]].
  - rewrite drop_0 in Hk. split; [unfold len; lia|]. split; assumption.
  - lia.
  - split.
    + intros sid l i Hl. rewrite lookup_empty in Hl. discriminate.
    + intros i Hi. lia.
Qed.

(** X5: a manifest file beyond the number of shards makes [__init__] fail
    (the IndexError of [self._keylens[kidx]]). *)
Theorem system_samples_more_files_than_shards (ds : dataset Data)
    (txts : list (list string)) :
  (length (_keys ds) < length txts)%nat ->
  system_samples ds txts = None.
Proof.
  intros Hlen. unfold system_samples. rewrite <- length_keylens in Hlen.
  assert (forall kidx k m,
            (kidx <= length (_keylens ds) < kidx + length txts)%nat ->
            read_manifests (_keylens ds) txts kidx k m = None) as Hgen.
  { clear Hlen. induction txts as [|lines txts IH]; intros kidx k m Hlen.
    - simpl in Hlen. lia.
    - simpl.
      destruct (nth_error (_keylens ds) kidx) as [n|] eqn:Hn; [|reflexivity].
      destruct (add_samples (take (Z.to_nat n) lines) k m) as [k1 m1].
      apply IH. simpl in Hlen.
      assert (kidx < length (_keylens ds))%nat
        by (apply nth_error_Some; congruence).
      lia. }
  apply Hgen. simpl. lia.
Qed.

End Manifests.

Lemma system_samples_cover_indices_witness :
  exists k m,
    system_samples example_ds [["a.traj,0"; "b.traj,1"; "a.traj,2"]; ["zz"]; ["a.x"; "c.y"]]
      = Some (k, m) /\ 0 <= k <= len example_ds.
Proof.
  destruct (system_samples example_ds
              [["a.traj,0"; "b.traj,1"; "a.traj,2"]; ["zz"]; ["a.x"; "c.y"]])
    as [[k m]|] eqn:Hrun.
  - exists k, m. split; [reflexivity|].
    apply (system_samples_cover_indices example_ds _ k m Hrun).
  - vm_compute in Hrun. discriminate Hrun.
Defined.

Lemma system_samples_more_files_than_shards_witness :
  system_samples example_ds [[]; []; []; ["q"]] = None.
Proof.
  apply (system_samples_more_files_than_shards example_ds). simpl. lia.
Defined.

Lemma getitem_negative_index_witness :
  -1 < 0 /\ getitem example_ds (-1) = AssertionError.
Proof.
  split; [lia|]. apply (getitem_negative_index example_ds (-1)). lia.
Defined.

Lemma getitem_init_reads_local_key_witness :
  getitem example_ds (offset example_ds 2 + 1) = Returned (2%nat, 1).
Proof.
  apply (getitem_init_reads_local_key [2; 0; 3] (fun s k => Some (s, k)) None
           example_ds 2 1 eq_refl); simpl; lia.
Defined.

End TrajectoryLmdbSpec.

(* ===================================================================== *)
(** * Properties of the metric evaluator                                  *)
(* ===================================================================== *)

Module EvaluatorSpec.
Import Evaluator.
#[local] Set Warnings "-inexact-float".
Local Open Scope Qc_scope.

Ltac run_M :=
  unfold update, accumulate, read, modify, raise, lift, assert,
    mbind, M_bind, mret, M_ret; simpl.

Ltac step_result :=
  unfold mbind at 1; unfold result_bind at 1; cbv beta iota.

(** One merge step, whatever the dictionary holds under [key]. *)
Lemma update_dict_run (key : string) (s : stat) (m : gmap string stat) :
  let a := acc_at m key in
  let tot := total a + total s in
  let num := (numel a + numel s)%Z in
  update key (StatDict s) m =
    if Z.eqb num 0
    then (Raise ZeroDivisionError,
          <[key := {| metric := metric a; total := tot; numel := num |}]> m)
    else (Ok tt,
          <[key := {| metric := Some (tot / Qc_of_Z num);
                      total := tot; numel := num |}]> m).
Proof.
  cbv zeta. unfold acc_at. run_M.
  destruct (m !! key) as [a|] eqn:Hm.
  - rewrite bool_decide_eq_false_2 by discriminate. simpl. rewrite ?Hm. simpl.
    destruct (Z.eqb (numel a + numel s) 0); simpl.
    + reflexivity.
    + now rewrite insert_insert_eq.
  - rewrite bool_decide_eq_true_2 by reflexivity. simpl.
    rewrite lookup_insert_eq. simpl.
    destruct (Z.eqb (0 + numel s) 0); simpl.
    + now rewrite insert_insert_eq.
    + now rewrite !insert_insert_eq.
Qed.

Lemma sumQc_app (l1 l2 : list Qc) : sumQc (l1 ++ l2) = sumQc l1 + sumQc l2.
Proof.
  induction l1 as [|x l1 IH]; simpl.
  - now rewrite Qcplus_0_l.
  - rewrite IH. ring.
Qed.

Lemma absolute_error_vec (p t : list Qc) :
  length p = length t ->
  absolute_error (vec p) (vec t) =
    Ok {| metric := mean (zip_with abs_err t p);
          total := sumQc (zip_with abs_err t p);
          numel := Z.of_nat (length p) |}.
Proof.
  intros Hlen. unfold absolute_error, elementwise, vec, tnumel. simpl.
  rewrite Hlen. rewrite bool_decide_eq_true_2 by reflexivity.
  rewrite Nat.mul_1_r. reflexivity.
Qed.

(** ** Calls of [eval] and the dictionary they share *)

Lemma for_each_app {A} (l1 l2 : list A) (body : A -> M unit) (m : gmap string stat) :
  for_each (l1 ++ l2) body m =
  match for_each l1 body m with
  | (Ok _, m') => for_each l2 body m'
  | (Raise e, m') => (Raise e, m')
  end.
Proof.
  revert m. induction l1 as [|x l1 IH]; intros m; simpl.
  - reflexivity.
  - unfold mbind, M_bind. destruct (body x m) as [[[]|e] m']; [apply IH | reflexivity].
Qed.

Lemma apply_updates_app (cs1 cs2 : list (string * stat)) (m m1 m2 : gmap string stat) :
  apply_updates cs1 m = (Ok tt, m1) ->
  apply_updates cs2 m1 = (Ok tt, m2) ->
  apply_updates (cs1 ++ cs2) m = (Ok tt, m2).
Proof.
  unfold apply_updates. intros H1 H2. rewrite for_each_app, H1. exact H2.
Qed.

Lemma acc_at_insert_eq (k : string) (v : stat) (m : gmap string stat) :
  acc_at (<[k := v]> m) k = v.
Proof. unfold acc_at. now rewrite lookup_insert_eq. Qed.

Lemma acc_at_insert_ne (k k' : string) (v : stat) (m : gmap string stat) :
  k <> k' -> acc_at (<[k := v]> m) k' = acc_at m k'.
Proof. intros H. unfold acc_at. now rewrite lookup_insert_ne. Qed.

(** A successful merge adds the record to the accumulator of its key and
    leaves the other keys alone. *)
Lemma update_dict_ok (key : string) (s : stat) (m m' : gmap string stat) :
  update key (StatDict s) m = (Ok tt, m') ->
  forall k,
    total (acc_at m' k) = total (acc_at m k) + (if decide (key = k) then total s else 0) /\
    numel (acc_at m' k) = (numel (acc_at m k) + (if decide (key = k) then numel s else 0))%Z.
Proof.
  rewrite update_dict_run.
  destruct (Z.eqb (numel (acc_at m key) + numel s) 0); [discriminate|].
  intros [= <-] k.
  destruct (decide (key = k)) as [->|Hne].
  - rewrite acc_at_insert_eq. simpl. split; reflexivity.
  - rewrite acc_at_insert_ne by exact Hne.
    split; [now rewrite Qcplus_0_r | lia].
Qed.

Lemma key_total_cons (k : string) (c : string * stat) (cs : list (string * stat)) :
  key_total k (c :: cs) = (if decide (c.1 = k) then total c.2 else 0) + key_total k cs.
Proof.
  unfold key_total. rewrite filter_cons.
  destruct (decide (c.1 = k)); simpl; [reflexivity | now rewrite Qcplus_0_l].
Qed.

Lemma key_numel_cons (k : string) (c : string * stat) (cs : list (string * stat)) :
  key_numel k (c :: cs) = ((if decide (c.1 = k) then numel c.2 else 0) + key_numel k cs)%Z.
Proof.
  unfold key_numel. rewrite filter_cons.
  destruct (decide (c.1 = k)); simpl; [reflexivity | lia].
Qed.

Lemma key_total_app (k : string) (cs1 cs2 : list (string * stat)) :
  key_total k (cs1 ++ cs2) = key_total k cs1 + key_total k cs2.
Proof.
  unfold key_total. now rewrite filter_app, map_app, sumQc_app.
Qed.

Lemma key_numel_app (k : string) (cs1 cs2 : list (string * stat)) :
  key_numel k (cs1 ++ cs2) = (key_numel k cs1 + key_numel k cs2)%Z.
Proof.
  unfold key_numel. rewrite filter_app, map_app.
  induction (map (fun c : string * stat => numel c.2) (filter (fun c => c.1 = k) cs1));
    simpl; lia.
Qed.

(** Every key ends with its old accumulator plus what the list holds for
    it. *)
Lemma apply_updates_ok (cs : list (string * stat)) :
  forall (m m' : gmap string stat),
  apply_updates cs m = (Ok tt, m') ->
  forall k,
    total (acc_at m' k) = total (acc_at m k) + key_total k cs /\
    numel (acc_at m' k) = (numel (acc_at m k) + key_numel k cs)%Z.
Proof.
  induction cs as [|[key s] cs IH]; intros m m' Hrun k.
  - injection Hrun as <-. unfold key_total, key_numel. simpl.
    split; [now rewrite Qcplus_0_r | lia].
  - unfold apply_updates in Hrun. simpl in Hrun.
    unfold mbind, M_bind in Hrun.
    destruct (update key (StatDict s) m) as [[[]|e] m1] eqn:Hupd; [|discriminate].
    destruct (update_dict_ok _ _ _ _ Hupd k) as [Ht Hn].
    destruct (IH _ _ Hrun k) as [Ht' Hn'].
    rewrite key_total_cons, key_numel_cons. simpl.
    rewrite Ht', Hn', Ht, Hn. split; [now rewrite Qcplus_assoc | lia].
Qed.

Lemma assert_run (b : bool) (m : gmap string stat) :
  assert b m = (if b then Ok tt else Raise AssertionError, m).
Proof. destruct b; reflexivity. Qed.

Section Calls.

Variable call_metric : string -> tdict -> tdict -> result stat.
Variable ev : evaluator.

Lemma eval_metric_fn_run fn prediction target pre n (m : gmap string stat) :
  _eval_metric_fn call_metric fn prediction target pre n m =
  match metric_stat call_metric fn prediction target pre n with
  | Raise e => (Raise e, m)
  | Ok (k, s) => update k (StatDict s) m
  end.
Proof.
  unfold _eval_metric_fn, mbind, M_bind, lift.
  destruct (metric_stat call_metric fn prediction target pre n) as [[k s]|e];
    reflexivity.
Qed.

(** A loop whose body computes one record and merges it. *)
Lemma for_each_single {A} (body : A -> M unit) (P : A -> result (string * stat)) :
  (forall x m, body x m = match P x with
                          | Raise e => (Raise e, m)
                          | Ok (k, s) => update k (StatDict s) m
                          end) ->
  forall (l : list A) (m m' : gmap string stat),
  for_each l body m = (Ok tt, m') ->
  exists cs, mapM P l = Ok cs /\ apply_updates cs m = (Ok tt, m').
Proof.
  intros Hbody. induction l as [|x l IH]; intros m m' Hrun; simpl in *.
  - injection Hrun as <-. exists []. split; reflexivity.
  - unfold mbind, M_bind in Hrun. rewrite Hbody in Hrun.
    destruct (P x) as [[k s]|e]; [|discriminate].
    destruct (update k (StatDict s) m) as [[[]|e] m1] eqn:Hupd; [|discriminate].
    destruct (IH _ _ Hrun) as (cs & Hcs & Happ).
    exists ((k, s) :: cs). split.
    + step_result. rewrite Hcs. reflexivity.
    + unfold apply_updates. simpl. unfold mbind, M_bind. rewrite Hupd. exact Happ.
Qed.

(** A loop whose body merges a list of records. *)
Lemma for_each_many {A} (body : A -> M unit) (P : A -> result (list (string * stat))) :
  (forall x m m', body x m = (Ok tt, m') ->
     exists cs, P x = Ok cs /\ apply_updates cs m = (Ok tt, m')) ->
  forall (l : list A) (m m' : gmap string stat),
  for_each l body m = (Ok tt, m') ->
  exists css, mapM P l = Ok css /\ apply_updates (concat css) m = (Ok tt, m').
Proof.
  intros Hbody. induction l as [|x l IH]; intros m m' Hrun; simpl in *.
  - injection Hrun as <-. exists []. split; reflexivity.
  - unfold mbind, M_bind in Hrun.
    destruct (body x m) as [[[]|e] m1] eqn:Hx; [|discriminate].
    destruct (Hbody _ _ _ Hx) as (cs & Hcs & Happ).
    destruct (IH _ _ Hrun) as (css & Hcss & Happ').
    exists (cs :: css). split.
    + rewrite Hcs. step_result. rewrite Hcss. reflexivity.
    + simpl. eapply apply_updates_app; eassumption.
Qed.

Lemma attributes_run (prediction target : tdict) (l : list string) (m : gmap string stat) :
  for_each l (fun attr =>
    assert (bool_decide (is_Some (prediction !! attr))) ≫= fun _ =>
    assert (bool_decide (is_Some (target !! attr))) ≫= fun _ =>
    assert (bool_decide (shape <$> prediction !! attr = shape <$> target !! attr))) m =
  (if forallb (fun attr =>
        bool_decide (is_Some (prediction !! attr)) &&
        bool_decide (is_Some (target !! attr)) &&
        bool_decide (shape <$> prediction !! attr = shape <$> target !! attr)) l
   then Ok tt else Raise AssertionError, m).
Proof.
  induction l as [|attr l IH]; simpl.
  - reflexivity.
  - unfold mbind, M_bind. rewrite !assert_run.
    destruct (bool_decide (is_Some (prediction !! attr)));
      destruct (bool_decide (is_Some (target !! attr)));
      destruct (bool_decide (shape <$> prediction !! attr = shape <$> target !! attr));
      simpl; try reflexivity.
    apply IH.
Qed.

Lemma atomwise_run fn an prediction target (m m' : gmap string stat) :
  _eval_atomwise_metrics call_metric ev fn an prediction target m = (Ok tt, m') ->
  exists cs, atomwise_stats call_metric ev fn an prediction target = Ok cs /\
             apply_updates cs m = (Ok tt, m').
Proof.
  unfold _eval_atomwise_metrics, atomwise_stats.
  set (key := if String.prefix "forces" (before_underscore fn)
              then "forces"%string else before_underscore fn).
  unfold mbind at 1. unfold M_bind at 1. rewrite assert_run.
  destruct (String.eqb key "forces" || String.eqb key "energy"); simpl;
    [|discriminate].
  unfold mbind at 1. unfold M_bind at 1. rewrite assert_run.
  destruct (bool_decide (is_Some (prediction !! key)) &&
            bool_decide (is_Some (target !! key))); simpl; [|discriminate].
  apply for_each_single. intros [a label] m0.
  unfold mbind, M_bind, result_bind, lift.
  destruct (getattr prediction key) as [p|e]; [|reflexivity].
  destruct (zero_unmasked (map (Z.eqb a) an) p) as [p'|e]; [|reflexivity].
  destruct (getattr target key) as [t|e]; [|reflexivity].
  destruct (zero_unmasked (map (Z.eqb a) an) t) as [t'|e]; [|reflexivity].
  apply eval_metric_fn_run.
Qed.

(** A call that returns has merged exactly its contributions. *)
Lemma eval_body_run prediction target an (m m' : gmap string stat) :
  eval_body call_metric ev prediction target an m = (Ok tt, m') ->
  exists cs, eval_stats call_metric ev prediction target an = Ok cs /\
             apply_updates cs m = (Ok tt, m').
Proof.
  unfold eval_body, eval_stats, attributes_ok.
  unfold mbind at 1. unfold M_bind at 1. rewrite attributes_run.
  destruct (forallb _ (task_attributes (task ev))); simpl; [|discriminate].
  intros Hrun.
  eapply for_each_many in Hrun as (css & Hcss & Happ).
  - exists (concat css). unfold mbind at 1. unfold result_bind at 1.
    rewrite Hcss. split; [reflexivity | exact Happ].
  - clear. intros fn m0 m1 Hfn. cbv beta in Hfn.
    unfold mbind at 1 in Hfn. unfold M_bind at 1 in Hfn.
    rewrite eval_metric_fn_run in Hfn.
    unfold mbind at 1. unfold result_bind at 1.
    destruct (metric_stat call_metric fn prediction target None None) as [[k s]|e];
      [|discriminate].
    destruct (update k (StatDict s) m0) as [[[]|e] m2] eqn:Hupd; [|discriminate].
    assert (apply_updates [(k, s)] m0 = (Ok tt, m2)) as Hone.
    { unfold apply_updates. simpl. unfold mbind, M_bind. now rewrite Hupd. }
    destruct an as [an|].
    + destruct (bool_decide (fn ∈ atomic_number_metrics ev)).
      * apply atomwise_run in Hfn as (cs & Hcs & Happ).
        exists ((k, s) :: cs). step_result. rewrite Hcs.
        split; [reflexivity|].
        change ((k, s) :: cs) with ([(k, s)] ++ cs).
        eapply apply_updates_app; eassumption.
      * injection Hfn as <-. exists [(k, s)]%list. split; [reflexivity | exact Hone].
    + injection Hfn as <-. exists [(k, s)]%list. split; [reflexivity | exact Hone].
Qed.

Lemma eval_ok prediction target prev an (h : gmap loc (gmap string stat)) l h' :
  eval call_metric ev prediction target prev an h = (Ok l, h') ->
  l = default prev_metrics_default prev /\
  exists m m', h !! l = Some m /\
    eval_body call_metric ev prediction target an m = (Ok tt, m') /\
    h' = <[l := m']> h.
Proof.
  unfold eval. intros Hrun.
  destruct (h !! default prev_metrics_default prev) as [m|] eqn:Hm; [|discriminate].
  destruct (eval_body call_metric ev prediction target an m) as [[[]|e] m'] eqn:Hbody;
    [|discriminate].
  injection Hrun as <- <-. split; [reflexivity|].
  exists m, m'. rewrite Hm. auto.
Qed.


End Calls.

Ltac qc_eq := apply Qc_is_canon; vm_compute; reflexivity.

(** Two calls [evaluator.eval(prediction, target)] on the same data: the
    second returns the default dictionary with the totals and counts of
    both, where one call on a fresh interpreter gives those of one. *)
Example eval_twice_accumulates :
  let call := (scenario_prediction, scenario_target, @None (list Z)) in
  let entry (r : result (list loc) * gmap loc (gmap string stat)) :=
    (fun m => (numel (acc_at m "energy_mae"), this (total (acc_at m "energy_mae"))))
      <$> r.2 !! prev_metrics_default in
  (eval_omitting module_globals evaluator_is2re [call] heap_init).1 =
    Ok [prev_metrics_default]%list /\
  entry (eval_omitting module_globals evaluator_is2re [call] heap_init) =
    Some (2%Z, (1 # 25)%Q) /\
  (eval_omitting module_globals evaluator_is2re [call; call] heap_init).1 =
    Ok [prev_metrics_default; prev_metrics_default] /\
  entry (eval_omitting module_globals evaluator_is2re [call; call] heap_init) =
    Some (4%Z, (2 # 25)%Q).
Proof. vm_compute. repeat split; reflexivity. Qed.

(** C7: with targets 1.0 and 2.0 and predictions 1.01 and 2.03, only the
    first sample is within the 0.02 threshold, and
    [energy_within_threshold] returns total 1, numel 2 and metric 1/2. *)
Theorem energy_within_threshold_scenario :
  energy_within_threshold scenario_prediction scenario_target =
    Ok {| metric := Some (Q2Qc (1 # 2)); total := Q2Qc 1; numel := 2 |} /\
  elementwise abs_err (vec [Q2Qc 1; Q2Qc 2])
                      (vec [Q2Qc (101 # 100); Q2Qc (203 # 100)]) =
    Ok [Q2Qc (1 # 100); Q2Qc (3 # 100)] /\
  (Q2Qc (1 # 100) < e_thresh) /\ ~ (Q2Qc (3 # 100) < e_thresh).
Proof.
  split; [|split; [|split]].
  - unfold energy_within_threshold, scenario_prediction, scenario_target, getattr.
    rewrite !lookup_singleton_eq.
    replace (elementwise abs_err (vec [Q2Qc 1; Q2Qc 2])
               (vec [Q2Qc (101 # 100); Q2Qc (203 # 100)]))
      with (Ok [Q2Qc (1 # 100); Q2Qc (3 # 100)] : result (list Qc)).
    + cbn [shape vec length].
      replace (filter (fun e => e < e_thresh) [Q2Qc (1 # 100); Q2Qc (3 # 100)])
        with [Q2Qc (1 # 100)]%list.
      * simpl. do 2 f_equal. f_equal. qc_eq.
      * rewrite filter_cons_True by (vm_compute; reflexivity).
        rewrite filter_cons_False by (vm_compute; discriminate).
        reflexivity.
    + unfold elementwise. simpl. f_equal. f_equal; [qc_eq|]. f_equal. qc_eq.
  - unfold elementwise. simpl. f_equal. f_equal; [qc_eq|]. f_equal. qc_eq.
  - vm_compute. reflexivity.
  - vm_compute. discriminate.
Qed.

(** The two comparisons of the scenario come out the same in binary64
    arithmetic. *)
Example threshold_scenario_binary64 :
  (PrimFloat.ltb (PrimFloat.abs (1 - 1.01)) 0.02 = true /\
   PrimFloat.ltb (PrimFloat.abs (2 - 2.03)) 0.02 = false)%float.
Proof. split; reflexivity. Qed.

(** A merge into a zero count raises, and so does a split whose first
    batch is empty, although one pass over the same data succeeds. *)
Lemma update_zero_count_raises :
  update "energy_mae" (StatDict {| metric := None; total := 0; numel := 0 |}) ∅ =
    (Raise ZeroDivisionError, {[ "energy_mae"%string := stat_init ]}) /\
  (accumulate_absolute_error "energy_mae"
     [([], []); ([Q2Qc 1]%list, [Q2Qc 2]%list)] ∅).1 = Raise ZeroDivisionError /\
  (accumulate_absolute_error "energy_mae"
     [([Q2Qc 1]%list, [Q2Qc 2]%list)]%list ∅).1 = Ok tt.
Proof.
  split; [|split].
  - rewrite update_dict_run. unfold acc_at. rewrite lookup_empty. simpl.
    rewrite Qcplus_0_l. reflexivity.
  - unfold accumulate_absolute_error. simpl for_each.
    unfold mbind at 1. unfold M_bind at 1.
    unfold mbind at 1. unfold M_bind at 1. unfold lift at 1.
    rewrite absolute_error_vec by reflexivity.
    rewrite update_dict_run. unfold acc_at. rewrite lookup_empty. reflexivity.
  - unfold accumulate_absolute_error. simpl for_each.
    unfold mbind at 1. unfold M_bind at 1.
    unfold mbind at 1. unfold M_bind at 1. unfold lift at 1.
    rewrite absolute_error_vec by reflexivity.
    rewrite update_dict_run. unfold acc_at. rewrite lookup_empty. reflexivity.
Qed.

(** ** Further properties of the evaluator *)

(** X6: whatever [update] is handed and however it ends, it touches the
    accumulator of its own key only. *)
Theorem update_leaves_other_keys (key : string) (st : stat_arg)
    (m : gmap string stat) (k : string) :
  k <> key -> (update key st m).2 !! k = m !! k.
Proof.
  intros Hne.
  assert (forall t n (m0 : gmap string stat),
            (accumulate key t n m0).2 !! k = m0 !! k) as Hacc.
  { intros t n m0. unfold accumulate, read, modify, raise, mbind, M_bind. simpl.
    destruct (Z.eqb _ 0); simpl.
    - now rewrite lookup_insert_ne.
    - now rewrite !lookup_insert_ne. }
  unfold update, read, modify, raise, mbind, M_bind, mret, M_ret. simpl.
  destruct (bool_decide (m !! key = None)); simpl;
    destruct st; simpl; rewrite ?Hacc, ?lookup_insert_ne; auto.
Qed.

Lemma update_leaves_other_keys_witness :
  (update "energy_mae" StatTensor {[ "energy_mse"%string := stat_init ]}).2
    !! "energy_mse"%string =
  ({[ "energy_mse"%string := stat_init ]} : gmap string stat) !! "energy_mse"%string.
Proof.
  apply (update_leaves_other_keys "energy_mae" StatTensor
           {[ "energy_mse"%string := stat_init ]} "energy_mse").
  discriminate.
Defined.

(** X7: a tensor handed to [update] raises NotImplementedError, but not
    before a key that was missing has been given its zero accumulator; an
    accumulator that was there is left as it was. *)
Theorem update_tensor_raises_after_creating_key (key : string)
    (m : gmap string stat) :
  (update key StatTensor m).1 = Raise NotImplementedError /\
  (update key StatTensor m).2 !! key = Some (acc_at m key).
Proof.
  unfold update, read, modify, raise, mbind, M_bind, mret, M_ret, acc_at. simpl.
  destruct (m !! key) as [a|] eqn:Hm.
  - rewrite bool_decide_eq_false_2 by discriminate. simpl. auto.
  - rewrite bool_decide_eq_true_2 by reflexivity. simpl.
    now rewrite lookup_insert_eq.
Qed.

Lemma update_num_run (key : string) (x : Qc) (m : gmap string stat) :
  let a := acc_at m key in
  let tot := total a + x in
  let num := (numel a + 1)%Z in
  update key (StatNum x) m =
    if Z.eqb num 0
    then (Raise ZeroDivisionError,
          <[key := {| metric := metric a; total := tot; numel := num |}]> m)
    else (Ok tt,
          <[key := {| metric := Some (tot / Qc_of_Z num);
                      total := tot; numel := num |}]> m).
Proof.
  cbv zeta. unfold acc_at. run_M.
  destruct (m !! key) as [a|] eqn:Hm.
  - rewrite bool_decide_eq_false_2 by discriminate. simpl. rewrite ?Hm. simpl.
    destruct (Z.eqb (numel a + 1) 0); simpl.
    + reflexivity.
    + now rewrite insert_insert_eq.
  - rewrite bool_decide_eq_true_2 by reflexivity. simpl.
    rewrite lookup_insert_eq. simpl. now rewrite !insert_insert_eq.
Qed.

(** Plain numbers folded into an accumulator that already holds data. *)
Lemma update_numbers_run (key : string) (xs : list Qc) :
  forall (m : gmap string stat) (a : stat),
  m !! key = Some a ->
  (0 < numel a)%Z ->
  metric a = Some (total a / Qc_of_Z (numel a)) ->
  for_each xs (fun x => update key (StatNum x)) m =
    (Ok tt,
     <[key := {| metric := Some ((total a + sumQc xs) /
                                 Qc_of_Z (numel a + Z.of_nat (length xs)));
                 total := total a + sumQc xs;
                 numel := (numel a + Z.of_nat (length xs))%Z |}]> m).
Proof.
  induction xs as [|x xs IH]; intros m a Hm Hpos Hmetric.
  - simpl. unfold mret, M_ret. f_equal. symmetry.
    rewrite Qcplus_0_r, Z.add_0_r. apply insert_id. rewrite Hm.
    destruct a as [me to nu]. simpl in *. now rewrite Hmetric.
  - simpl for_each. unfold mbind at 1. unfold M_bind at 1.
    rewrite update_num_run. unfold acc_at. rewrite Hm. simpl.
    destruct (Z.eqb_spec (numel a + 1) 0) as [Hz|Hnz]; [lia|].
    erewrite IH; [| apply lookup_insert_eq | simpl; lia | reflexivity].
    simpl. rewrite insert_insert_eq.
    replace (numel a + 1 + Z.of_nat (length xs))%Z
      with (numel a + Z.pos (Pos.of_succ_nat (length xs)))%Z by lia.
    rewrite !Qcplus_assoc. reflexivity.
Qed.

(** X8: plain numbers handed to [update] one after the other, for a key
    that is new, leave their sum as total, their number as count and their
    mean as metric. *)
Theorem update_numbers_running_mean (key : string) (x : Qc) (xs : list Qc)
    (m : gmap string stat) :
  m !! key = None ->
  for_each (x :: xs) (fun x => update key (StatNum x)) m =
    (Ok tt,
     <[key := {| metric := mean (x :: xs);
                 total := sumQc (x :: xs);
                 numel := Z.of_nat (length (x :: xs)) |}]> m).
Proof.
  intros Hm. simpl for_each. unfold mbind at 1. unfold M_bind at 1.
  rewrite update_num_run. unfold acc_at. rewrite Hm. simpl.
  erewrite update_numbers_run;
    [| apply lookup_insert_eq | simpl; lia | reflexivity].
  cbn [total numel metric]. rewrite insert_insert_eq.
  replace (0 + 1 + Z.of_nat (length xs))%Z with (Z.of_nat (S (length xs)))
    by lia.
  rewrite !Qcplus_0_l. reflexivity.
Qed.

Lemma update_numbers_running_mean_witness :
  for_each [Q2Qc 1; Q2Qc 2] (fun x => update "loss" (StatNum x)) ∅ =
    (Ok tt,
     {[ "loss"%string := {| metric := mean [Q2Qc 1; Q2Qc 2];
                            total := sumQc [Q2Qc 1; Q2Qc 2];
                            numel := 2 |} ]}).
Proof.
  exact (update_numbers_running_mean "loss" (Q2Qc 1) [Q2Qc 2]%list ∅
           (lookup_empty _)).
Defined.

(** X9: for two tensors of one shape, the mean absolute and the mean
    squared error do not depend on which of them is called the
    prediction. *)
Theorem errors_are_symmetric (a b : tensor) :
  shape a = shape b ->
  absolute_error a b = absolute_error b a /\
  squared_error a b = squared_error b a.
Proof.
  intros Heq.
  assert (forall (f : Qc -> Qc -> Qc), (forall x y, f x y = f y x) ->
            forall l1 l2 : list Qc, zip_with f l1 l2 = zip_with f l2 l1) as Hzip.
  { intros f Hf. induction l1 as [|x l1 IH]; intros [|y l2]; simpl; try reflexivity.
    now rewrite Hf, IH. }
  unfold absolute_error, squared_error, elementwise.
  rewrite !bool_decide_eq_true_2 by congruence.
  unfold tnumel. rewrite Heq. split.
  - rewrite (Hzip abs_err); [reflexivity|].
    intros x y. apply Qcabs_Qcminus.
  - rewrite (Hzip (fun t p => (t - p) * (t - p))); [reflexivity|].
    intros x y. ring.
Qed.

Lemma errors_are_symmetric_witness :
  absolute_error (vec [Q2Qc 1; Q2Qc 2]) (vec [Q2Qc 0; Q2Qc 4]) =
    absolute_error (vec [Q2Qc 0; Q2Qc 4]) (vec [Q2Qc 1; Q2Qc 2]) /\
  squared_error (vec [Q2Qc 1; Q2Qc 2]) (vec [Q2Qc 0; Q2Qc 4]) =
    squared_error (vec [Q2Qc 0; Q2Qc 4]) (vec [Q2Qc 1; Q2Qc 2]).
Proof.
  exact (errors_are_symmetric (vec [Q2Qc 1; Q2Qc 2]) (vec [Q2Qc 0; Q2Qc 4]) eq_refl).
Defined.

Lemma length_filter_le {A} (P : A -> Prop) `{forall x, Decision (P x)} (l : list A) :
  (length (filter P l) <= length l)%nat.
Proof.
  induction l as [|x l IH]; simpl; [lia|].
  rewrite filter_cons. destruct (decide (P x)); simpl; lia.
Qed.

Lemma energy_within_threshold_vec (pv tv : list Qc) :
  length pv = length tv ->
  pv <> [] ->
  energy_within_threshold {[ "energy"%string := vec pv ]}
                          {[ "energy"%string := vec tv ]} =
    let success :=
      Z.of_nat (length (filter (fun e => e < e_thresh) (zip_with abs_err tv pv))) in
    Ok {| metric := Some (Qc_of_Z success / Qc_of_Z (Z.of_nat (length pv)));
          total := Qc_of_Z success;
          numel := Z.of_nat (length pv) |}.
Proof.
  intros Hlen Hne.
  unfold energy_within_threshold, getattr. rewrite !lookup_singleton_eq.
  unfold elementwise, vec. cbn [shape data]. rewrite Hlen.
  rewrite bool_decide_eq_true_2 by reflexivity.
  destruct (Z.eqb_spec (Z.of_nat (length tv)) 0) as [Hz|_]; [|reflexivity].
  destruct pv; [contradiction | simpl in Hlen; lia].
Qed.

Lemma squared_error_vec (p t : list Qc) :
  length p = length t ->
  squared_error (vec p) (vec t) =
    let error := zip_with (fun t p => (t - p) * (t - p)) t p in
    Ok {| metric := mean error; total := sumQc error;
          numel := Z.of_nat (length p) |}.
Proof.
  intros Hlen. unfold squared_error, elementwise, vec, tnumel. simpl.
  rewrite Hlen. rewrite bool_decide_eq_true_2 by reflexivity.
  rewrite Nat.mul_1_r. reflexivity.
Qed.

(** X10: on energies of [n >= 1] systems, [energy_within_threshold]
    returns a count of successes between 0 and [n] as total, [n] as numel
    and their quotient as metric. *)
Theorem energy_within_threshold_is_a_rate (pv tv : list Qc) :
  length pv = length tv ->
  pv <> [] ->
  exists success : Z,
    (0 <= success <= Z.of_nat (length pv))%Z /\
    energy_within_threshold {[ "energy"%string := vec pv ]}
                            {[ "energy"%string := vec tv ]} =
      Ok {| metric := Some (Qc_of_Z success / Qc_of_Z (Z.of_nat (length pv)));
            total := Qc_of_Z success;
            numel := Z.of_nat (length pv) |}.
Proof.
  intros Hlen Hne.
  exists (Z.of_nat (length (filter (fun e => e < e_thresh) (zip_with abs_err tv pv)))).
  split.
  - split; [lia|].
    pose proof (length_filter_le (fun e => e < e_thresh) (zip_with abs_err tv pv)) as Hf.
    rewrite length_zip_with in Hf. lia.
  - now rewrite energy_within_threshold_vec.
Qed.

Lemma energy_within_threshold_is_a_rate_witness :
  exists success : Z,
    (0 <= success <= 2)%Z /\
    energy_within_threshold scenario_prediction scenario_target =
      Ok {| metric := Some (Qc_of_Z success / Qc_of_Z 2);
            total := Qc_of_Z success; numel := 2 |}.
Proof.
  exact (energy_within_threshold_is_a_rate
           [Q2Qc (101 # 100); Q2Qc (203 # 100)] [Q2Qc 1; Q2Qc 2]
           eq_refl ltac:(discriminate)).
Defined.

(** X12: [eval] checks the task's attributes before it accumulates
    anything: when one of them is missing from the prediction or from the
    target, or their shapes differ, the call raises AssertionError and
    every dictionary is as it was. *)
Theorem eval_checks_attributes_first
    (call_metric : string -> tdict -> tdict -> result stat) (ev : evaluator)
    (prediction target : tdict) (prev : option loc) (an : option (list Z))
    (h : gmap loc (gmap string stat)) (attr : string) :
  is_Some (h !! default prev_metrics_default prev) ->
  attr ∈ task_attributes (task ev) ->
  prediction !! attr = None \/ target !! attr = None \/
    shape <$> prediction !! attr <> shape <$> target !! attr ->
  eval call_metric ev prediction target prev an h = (Raise AssertionError, h).
Proof.
  intros [m Hm] Hattr Hbad. unfold eval. rewrite Hm.
  unfold eval_body. unfold mbind at 1. unfold M_bind at 1.
  rewrite attributes_run.
  assert (forallb (fun attr =>
            bool_decide (is_Some (prediction !! attr)) &&
            bool_decide (is_Some (target !! attr)) &&
            bool_decide (shape <$> prediction !! attr = shape <$> target !! attr))
            (task_attributes (task ev)) = false) as ->.
  { apply not_true_is_false. intros Hall.
    rewrite forallb_forall in Hall.
    apply list_elem_of_In in Hattr. specialize (Hall _ Hattr).
    apply andb_prop in Hall as [Hall H3]. apply andb_prop in Hall as [H1 H2].
    apply bool_decide_eq_true_1 in H1, H2, H3.
    destruct Hbad as [Hp | [Ht | Hs]].
    - rewrite Hp in H1. now destruct H1.
    - rewrite Ht in H2. now destruct H2.
    - contradiction. }
  now rewrite insert_id.
Qed.

Lemma eval_checks_attributes_first_witness :
  eval module_globals evaluator_is2re ∅ scenario_target None None heap_init =
    (Raise AssertionError, heap_init).
Proof.
  apply (eval_checks_attributes_first module_globals evaluator_is2re ∅
           scenario_target None None heap_init "energy").
  - eexists. reflexivity.
  - apply list_elem_of_In. simpl. auto.
  - left. reflexivity.
Defined.

(** The slices of an (n, 3) tensor along its second dimension. *)
Lemma column_data (c : nat) (proj : Qc * Qc * Qc -> Qc) :
  (forall r : Qc * Qc * Qc, take 1 (drop c [r.1.1; r.1.2; r.2]) = [proj r]%list) ->
  forall (rows : list (Qc * Qc * Qc)) (start : nat) (pre : list Qc),
  length pre = (start * 3)%nat ->
  flat_map (fun i => take 1 (drop ((i * 3 + c) * 1)
                       (pre ++ flat_map (fun r => [r.1.1; r.1.2; r.2]) rows)))
           (seq start (length rows)) = map proj rows.
Proof.
  intros Hproj. induction rows as [|r rows IH]; intros start pre Hpre.
  - reflexivity.
  - cbn [length seq flat_map map].
    change (proj r :: map proj rows) with ([proj r]%list ++ map proj rows).
    f_equal.
    + replace ((start * 3 + c) * 1)%nat with (length pre + c)%nat by lia.
      rewrite drop_app_add.
      change ([r.1.1; r.1.2; r.2] ++ flat_map (fun r0 => [r0.1.1; r0.1.2; r0.2]) rows)
        with (r.1.1 :: r.1.2 :: r.2 :: flat_map (fun r0 => [r0.1.1; r0.1.2; r0.2]) rows).
      specialize (Hproj r).
      destruct c as [|[|[|c]]]; simpl in *; try exact Hproj; destruct c; discriminate Hproj.
    + specialize (IH (S start) (pre ++ [r.1.1; r.1.2; r.2])).
      rewrite <- app_assoc in IH. apply IH.
      rewrite length_app. simpl. lia.
Qed.

Lemma column_rows3 (c : nat) (proj : Qc * Qc * Qc -> Qc)
    (rows : list (Qc * Qc * Qc)) :
  (c < 3)%nat ->
  (forall r : Qc * Qc * Qc, take 1 (drop c [r.1.1; r.1.2; r.2]) = [proj r]%list) ->
  column c (rows3 rows) = Ok (vec (map proj rows)).
Proof.
  intros Hc Hproj. unfold column, rows3, vec. cbn [shape data fold_right].
  destruct (Nat.ltb_spec c 3) as [_|]; [|lia].
  rewrite length_map. do 2 f_equal.
  apply (column_data c proj Hproj rows 0 []). reflexivity.
Qed.

(** X13: on (n, 3) force tensors of one shape, [forcesx_mae],
    [forcesy_mae] and [forcesz_mae] score the columns: each returns what
    [absolute_error] returns on the vector of that component of the rows,
    a record that counts n elements, while [forces_mae] counts 3 n. *)
Theorem forces_components_score_columns (P T : list (Qc * Qc * Qc)) :
  length P = length T ->
  let prediction : tdict := {[ "forces"%string := rows3 P ]} in
  let target : tdict := {[ "forces"%string := rows3 T ]} in
  forcesx_mae prediction target =
    absolute_error (vec (map (fun r => r.1.1) P)) (vec (map (fun r => r.1.1) T)) /\
  forcesy_mae prediction target =
    absolute_error (vec (map (fun r => r.1.2) P)) (vec (map (fun r => r.1.2) T)) /\
  forcesz_mae prediction target =
    absolute_error (vec (map snd P)) (vec (map snd T)) /\
  exists sx sy sz s,
    forcesx_mae prediction target = Ok sx /\
    forcesy_mae prediction target = Ok sy /\
    forcesz_mae prediction target = Ok sz /\
    forces_mae prediction target = Ok s /\
    numel sx = Z.of_nat (length P) /\
    numel sy = Z.of_nat (length P) /\
    numel sz = Z.of_nat (length P) /\
    numel s = (3 * Z.of_nat (length P))%Z.
Proof.
  intros Hlen prediction target.
  unfold forcesx_mae, forcesy_mae, forcesz_mae, forces_mae, on_column, on_attr,
    getattr, prediction, target.
  rewrite !lookup_singleton_eq.
  rewrite !(column_rows3 0 (fun r => r.1.1)) by (auto; lia).
  rewrite !(column_rows3 1 (fun r => r.1.2)) by (auto; lia).
  rewrite !(column_rows3 2 snd) by (auto; lia).
  repeat (split; [reflexivity|]).
  rewrite !absolute_error_vec by (rewrite !length_map; exact Hlen).
  unfold absolute_error, elementwise, rows3. cbn [shape data].
  rewrite Hlen, bool_decide_eq_true_2 by reflexivity.
  do 4 eexists. repeat (split; [reflexivity|]).
  cbn [total numel]. rewrite !length_map.
  repeat split; unfold tnumel; simpl; lia.
Qed.

Lemma forces_components_score_columns_witness :
  forcesy_mae {[ "forces"%string := rows3 [(Q2Qc 1, Q2Qc 2, Q2Qc 3)] ]}
              {[ "forces"%string := rows3 [(Q2Qc 0, Q2Qc 4, Q2Qc 3)] ]} =
    absolute_error (vec [Q2Qc 2]%list) (vec [Q2Qc 4]%list).
Proof.
  exact (proj1 (proj2 (forces_components_score_columns
           [(Q2Qc 1, Q2Qc 2, Q2Qc 3)]%list [(Q2Qc 0, Q2Qc 4, Q2Qc 3)]%list eq_refl))).
Defined.

(** One turn of the loop over the task's metrics when no atomic numbers
    are given. *)
Lemma eval_metric_turn (call_metric : string -> tdict -> tdict -> result stat)
    (fn : string) (prediction target : tdict) (m : gmap string stat) :
  (_eval_metric_fn call_metric fn prediction target None None ≫= fun _ => mret tt) m =
  match call_metric fn prediction target with
  | Raise e => (Raise e, m)
  | Ok s => update fn (StatDict s) m
  end.
Proof.
  unfold mbind at 1. unfold M_bind at 1. rewrite eval_metric_fn_run.
  unfold metric_stat. destruct (call_metric fn prediction target) as [s|e];
    [|reflexivity].
  destruct (update fn (StatDict s) m) as [[[]|e] m1]; reflexivity.
Qed.

(** X14: one call of [eval] for the task is2re on the energies of
    [n >= 1] systems returns the dictionary it was given, with [n] added
    to the count of each of the keys energy_mae, energy_mse and
    energy_within_threshold, the summed absolute error added to the total
    of energy_mae, and every other key as it was. *)
Theorem eval_is2re_contributes (pv tv : list Qc) (prev : option loc)
    (h : gmap loc (gmap string stat)) (m : gmap string stat) :
  h !! default prev_metrics_default prev = Some m ->
  length pv = length tv ->
  pv <> [] ->
  (forall k, 0 <= numel (acc_at m k))%Z ->
  exists m',
    eval module_globals evaluator_is2re
         {[ "energy"%string := vec pv ]} {[ "energy"%string := vec tv ]}
         prev None h =
      (Ok (default prev_metrics_default prev),
       <[default prev_metrics_default prev := m']> h) /\
    (forall k, k ∈ task_metrics is2re ->
       numel (acc_at m' k) = (numel (acc_at m k) + Z.of_nat (length pv))%Z) /\
    total (acc_at m' "energy_mae") =
      total (acc_at m "energy_mae") + sumQc (zip_with abs_err tv pv) /\
    (forall k, k ∉ task_metrics is2re -> m' !! k = m !! k).
Proof.
  intros Hm Hlen Hne Hpos.
  assert (0 < Z.of_nat (length pv))%Z as Hn
    by (destruct pv; [contradiction | simpl; lia]).
  unfold eval. rewrite Hm.
  unfold eval_body. unfold mbind at 1. unfold M_bind at 1.
  rewrite attributes_run. cbn [task evaluator_is2re task_attributes task_metrics forallb].
  rewrite !lookup_singleton_eq. cbn [fmap option_fmap option_map vec shape].
  rewrite !bool_decide_eq_true_2
    by (try (eexists; reflexivity); now rewrite Hlen).
  cbn [andb for_each].
  assert (energy_mae {[ "energy"%string := vec pv ]} {[ "energy"%string := vec tv ]} =
          absolute_error (vec pv) (vec tv)) as Hmae.
  { unfold energy_mae, on_attr, getattr. now rewrite !lookup_singleton_eq. }
  assert (energy_mse {[ "energy"%string := vec pv ]} {[ "energy"%string := vec tv ]} =
          squared_error (vec pv) (vec tv)) as Hmse.
  { unfold energy_mse, on_attr, getattr. now rewrite !lookup_singleton_eq. }
  unfold mbind at 1. unfold M_bind at 1. rewrite eval_metric_turn.
  change (module_globals "energy_mae") with energy_mae.
  rewrite Hmae, absolute_error_vec by assumption.
  rewrite update_dict_run. cbn [total numel].
  destruct (Z.eqb_spec (numel (acc_at m "energy_mae") + Z.of_nat (length pv)) 0)
    as [Hz|_]; [specialize (Hpos "energy_mae"); lia|].
  unfold mbind at 1. unfold M_bind at 1. rewrite eval_metric_turn.
  change (module_globals "energy_mse") with energy_mse.
  rewrite Hmse, squared_error_vec by assumption.
  cbv beta iota zeta. rewrite update_dict_run. cbn [total numel].
  rewrite !acc_at_insert_ne by discriminate.
  destruct (Z.eqb_spec (numel (acc_at m "energy_mse") + Z.of_nat (length pv)) 0)
    as [Hz|_]; [specialize (Hpos "energy_mse"); lia|].
  unfold mbind at 1. unfold M_bind at 1. rewrite eval_metric_turn.
  change (module_globals "energy_within_threshold") with energy_within_threshold.
  rewrite energy_within_threshold_vec by assumption.
  cbv beta iota zeta. rewrite update_dict_run. cbn [total numel].
  rewrite !acc_at_insert_ne by discriminate.
  destruct (Z.eqb_spec (numel (acc_at m "energy_within_threshold") +
                        Z.of_nat (length pv)) 0)
    as [Hz|_]; [specialize (Hpos "energy_within_threshold"); lia|].
  unfold mret, M_ret.
  eexists. split; [reflexivity|]. split; [|split].
  - intros k Hk. apply list_elem_of_In in Hk. simpl in Hk.
    destruct Hk as [<- | [<- | [<- | []]]].
    + now rewrite !acc_at_insert_ne, acc_at_insert_eq by discriminate.
    + now rewrite acc_at_insert_ne, acc_at_insert_eq by discriminate.
    + now rewrite acc_at_insert_eq.
  - now rewrite !acc_at_insert_ne, acc_at_insert_eq by discriminate.
  - intros k Hk.
    rewrite !lookup_insert_ne; [reflexivity | | |];
      intros <-; apply Hk, list_elem_of_In; simpl; auto.
Qed.

Lemma eval_is2re_contributes_witness :
  exists m',
    eval module_globals evaluator_is2re scenario_prediction scenario_target
         None None heap_init =
      (Ok prev_metrics_default, <[prev_metrics_default := m']> heap_init) /\
    (forall k, k ∈ task_metrics is2re -> numel (acc_at m' k) = (numel (acc_at ∅ k) + 2)%Z) /\
    total (acc_at m' "energy_mae") =
      total (acc_at ∅ "energy_mae") +
      sumQc (zip_with abs_err [Q2Qc 1; Q2Qc 2] [Q2Qc (101 # 100); Q2Qc (203 # 100)]) /\
    (forall k, k ∉ task_metrics is2re -> m' !! k = (∅ : gmap string stat) !! k).
Proof.
  apply (eval_is2re_contributes
           [Q2Qc (101 # 100); Q2Qc (203 # 100)] [Q2Qc 1; Q2Qc 2] None heap_init ∅).
  - reflexivity.
  - reflexivity.
  - discriminate.
  - intros k. unfold acc_at. rewrite lookup_empty. simpl. lia.
Defined.

(** A loop raises when the body raises at one of its elements and can
    raise nothing else. *)
Lemma for_each_raises {A} (body : A -> M unit) (E : exn) (x0 : A) (l : list A) :
  (forall x m, exists m', body x m = (Ok tt, m') \/ body x m = (Raise E, m')) ->
  (forall m, exists m', body x0 m = (Raise E, m')) ->
  x0 ∈ l ->
  forall m, exists m', for_each l body m = (Raise E, m').
Proof.
  intros Hany Hx0. induction l as [|x l IH]; intros Hin m.
  - now apply elem_of_nil in Hin.
  - simpl. unfold mbind, M_bind.
    apply elem_of_cons in Hin as [<-|Hin].
    + destruct (Hx0 m) as [m' ->]. eauto.
    + destruct (Hany x m) as [m' [-> | ->]]; [|eauto].
      apply IH, Hin.
Qed.

Lemma absolute_error_same_shape (p t : tensor) :
  shape p = shape t -> exists res, absolute_error p t = Ok res.
Proof.
  intros Heq. unfold absolute_error, elementwise.
  rewrite bool_decide_eq_true_2 by congruence. eauto.
Qed.

Lemma zero_unmasked_rows3 (mask : list bool) (rows : list (Qc * Qc * Qc)) :
  length rows = length mask ->
  exists t, zero_unmasked mask (rows3 rows) = Ok t /\
            shape t = [length rows; 3%nat].
Proof.
  intros Hlen. unfold zero_unmasked, rows3. cbn [shape data].
  rewrite Hlen, Nat.eqb_refl. eexists. split; reflexivity.
Qed.

Lemma filter_eqb_absent (a : Z) (an : list Z) :
  a ∉ an -> filter (fun b => b = true) (map (Z.eqb a) an) = [].
Proof.
  induction an as [|x an IH]; intros Hnot; [reflexivity|].
  apply not_elem_of_cons in Hnot as [Hne Hnot]. simpl.
  rewrite filter_cons_False.
  - apply IH, Hnot.
  - intros Heq. apply Z.eqb_eq in Heq. contradiction.
Qed.

(** X15: atom-wise tracking of [forces_mae] divides by three times the
    number of atoms that have the tracked atomic number:
    [_eval_atomwise_metrics] raises ZeroDivisionError whenever one of the
    tracked atomic numbers has no atom in the batch. *)
Theorem atomwise_absent_atomic_number_raises (ev : evaluator)
    (an : list Z) (P T : list (Qc * Qc * Qc)) (a : Z) (label : string)
    (m : gmap string stat) :
  (a, label) ∈ atomic_number_map ev ->
  a ∉ an ->
  length P = length an ->
  length T = length an ->
  exists m',
    _eval_atomwise_metrics module_globals ev "forces_mae" an
      {[ "forces"%string := rows3 P ]} {[ "forces"%string := rows3 T ]} m =
    (Raise ZeroDivisionError, m').
Proof.
  intros Hin Habsent HP HT.
  unfold _eval_atomwise_metrics.
  change (before_underscore "forces_mae") with "forces"%string.
  cbn [String.prefix String.eqb Ascii.eqb Bool.eqb orb].
  unfold mbind at 1. unfold M_bind at 1. rewrite assert_run.
  unfold mbind at 1. unfold M_bind at 1. rewrite assert_run.
  rewrite !lookup_singleton_eq.
  rewrite !bool_decide_eq_true_2 by (eexists; reflexivity). cbn [andb].
  assert (forall (a0 : Z) (lab : string) (m0 : gmap string stat),
    exists r m',
      (p ← lift (getattr {[ "forces"%string := rows3 P ]} "forces");
       p' ← lift (zero_unmasked (map (Z.eqb a0) an) p);
       t ← lift (getattr {[ "forces"%string := rows3 T ]} "forces");
       t' ← lift (zero_unmasked (map (Z.eqb a0) an) t);
       _eval_metric_fn module_globals "forces_mae"
         (<["forces"%string := p']> {[ "forces"%string := rows3 P ]})
         (<["forces"%string := t']> {[ "forces"%string := rows3 T ]})
         (Some ("atomwise_" +:+ lab +:+ "_"))
         (Some (Z.of_nat (length (filter (fun b => b = true)
                                         (map (Z.eqb a0) an))) * 3)%Z)) m0 =
      (r, m') /\
      (r = Raise ZeroDivisionError \/ a0 ∈ an /\ r = Ok tt)) as Hturn.
  { intros a0 lab m0.
    unfold getattr. rewrite !lookup_singleton_eq.
    destruct (zero_unmasked_rows3 (map (Z.eqb a0) an) P) as (p' & Hp & Hsp);
      [now rewrite length_map|].
    destruct (zero_unmasked_rows3 (map (Z.eqb a0) an) T) as (t' & Ht & Hst);
      [now rewrite length_map|].
    unfold mbind at 1. unfold M_bind at 1. unfold lift at 1.
    unfold mbind at 1. unfold M_bind at 1. unfold lift at 1. rewrite Hp.
    unfold mbind at 1. unfold M_bind at 1. unfold lift at 1.
    unfold mbind at 1. unfold M_bind at 1. unfold lift at 1. rewrite Ht.
    rewrite eval_metric_fn_run. unfold metric_stat.
    change (module_globals "forces_mae") with forces_mae.
    unfold forces_mae, on_attr, getattr. rewrite !lookup_insert_eq.
    destruct (absolute_error_same_shape p' t') as [res ->]; [congruence|].
    destruct (decide (a0 ∈ an)) as [Hin0|Hnot].
    - destruct (Z.eqb _ 0); [do 2 eexists; split; [reflexivity | now left]|].
      rewrite update_dict_run. cbv zeta.
      destruct (Z.eqb _ 0); do 2 eexists; (split; [reflexivity|]);
        [now left | right; now split].
    - rewrite filter_eqb_absent by exact Hnot. simpl.
      do 2 eexists; split; [reflexivity | now left]. }
  apply (for_each_raises _ ZeroDivisionError (a, label)); [| |exact Hin].
  - intros [a0 lab] m0.
    destruct (Hturn a0 lab m0) as (r & m' & Hrun & [-> | [_ ->]]); exists m'; auto.
  - intros m0.
    destruct (Hturn a label m0) as (r & m' & Hrun & [-> | [Hin0 _]]);
      [eauto | contradiction].
Qed.

Lemma atomwise_absent_atomic_number_raises_witness :
  exists m',
    _eval_atomwise_metrics module_globals
      {| task := s2ef; atomic_number_map := [(1%Z, "H"%string); (8%Z, "O"%string)];
         atomic_number_metrics := atomic_number_tasks s2ef |}
      "forces_mae" [1%Z; 1%Z]
      {[ "forces"%string := rows3 [(Q2Qc 1, Q2Qc 2, Q2Qc 3); (Q2Qc 0, Q2Qc 0, Q2Qc 1)] ]}
      {[ "forces"%string := rows3 [(Q2Qc 1, Q2Qc 2, Q2Qc 2); (Q2Qc 0, Q2Qc 1, Q2Qc 1)] ]}
      ∅ =
    (Raise ZeroDivisionError, m').
Proof.
  apply (atomwise_absent_atomic_number_raises _ _ _ _ 8%Z "O").
  - apply list_elem_of_In. simpl. auto.
  - intros Hin. apply list_elem_of_In in Hin. simpl in Hin.
    destruct Hin as [H|[H|[]]]; discriminate H.
  - reflexivity.
  - reflexivity.
Defined.

(** ** Energies and forces within their thresholds *)

Lemma to_index_of_index (n : nat) : to_index (of_index n) = n.
Proof. unfold to_index, of_index. simpl. apply Nat2Z.id. Qed.

Lemma sumQc_of_index (ns : list nat) :
  sumQc (map of_index ns) = of_index (sum_list ns).
Proof.
  induction ns as [|n ns IH]; simpl.
  - symmetry. apply Z2Qc_inj_0.
  - rewrite IH. unfold of_index. now rewrite Nat2Z.inj_add, Z2Qc_inj_add.
Qed.

Lemma energy_within_threshold_lookup (prediction target : tdict) (pv tv : list Qc) :
  prediction !! "energy"%string = Some (vec pv) ->
  target !! "energy"%string = Some (vec tv) ->
  length pv = length tv ->
  pv <> [] ->
  energy_within_threshold prediction target =
    let success :=
      Z.of_nat (length (filter (fun e => e < e_thresh) (zip_with abs_err tv pv))) in
    Ok {| metric := Some (Qc_of_Z success / Qc_of_Z (Z.of_nat (length pv)));
          total := Qc_of_Z success;
          numel := Z.of_nat (length pv) |}.
Proof.
  intros Hp Ht Hlen Hne.
  unfold energy_within_threshold, getattr. rewrite Hp, Ht.
  unfold elementwise, vec. cbn [shape data]. rewrite Hlen.
  rewrite bool_decide_eq_true_2 by reflexivity.
  destruct (Z.eqb_spec (Z.of_nat (length tv)) 0) as [Hz|_]; [|reflexivity].
  destruct pv; [contradiction | simpl in Hlen; lia].
Qed.

Lemma threshold_loop_ok (dE dF : list Qc) (N : nat) :
  length dF = (N * 3)%nat ->
  forall (ns : list nat) (i start : nat),
  Forall (fun n => (0 < n)%nat) ns ->
  (start + sum_list ns <= N)%nat ->
  (i + length ns <= length dE)%nat ->
  exists success : Z,
    threshold_loop (map of_index ns) i start
      {| shape := [length dE]; data := dE |}
      {| shape := [N; 3%nat]; data := dF |} = Ok success /\
    (0 <= success <=
       Z.of_nat (length (filter (fun e : Qc => (e < e_thresh)%Qc)
                                (take (length ns) (drop i dE)))))%Z.
Proof.
  intros HdF. induction ns as [|n ns IH]; intros i start Hpos Hsum Hlen.
  - exists 0%Z. split; [reflexivity|]. simpl. lia.
  - apply Forall_cons in Hpos as [Hn Hpos]. simpl in Hsum, Hlen.
    destruct (lookup_lt_is_Some_2 dE i ltac:(lia)) as [x Hx].
    destruct (IH (S i) (start + n)%nat Hpos ltac:(lia) ltac:(lia))
      as (more & Hmore & Hbound).
    cbn [map threshold_loop].
    assert (item_lt {| shape := [length dE]; data := dE |} i e_thresh =
            Ok (bool_decide (x < e_thresh))) as ->.
    { unfold item_lt, row_size. cbn [shape data tail fold_right].
      destruct (Nat.ltb_spec i (length dE)) as [_|Hge]; [|lia].
      rewrite Nat.mul_1_r, (drop_S _ _ _ Hx). reflexivity. }
    rewrite to_index_of_index, Hmore.
    assert (take (S (length ns)) (drop i dE) =
            x :: take (length ns) (drop (S i) dE)) as Htake.
    { now rewrite (drop_S _ _ _ Hx). }
    cbn [length]. rewrite Htake, filter_cons.
    unfold mbind at 2. unfold result_bind at 2.
    destruct (decide (x < e_thresh)) as [Hlt|Hge].
    + rewrite bool_decide_eq_true_2 by exact Hlt.
      assert (exists m, slice_max {| shape := [N; 3%nat]; data := dF |} start n = Ok m)
        as [m ->].
      { unfold slice_max, row_size. cbn [shape data tail fold_right].
        destruct (take (n * (3 * 1)) (drop (start * (3 * 1)) dF)) as [|y ys] eqn:Hslice;
          [|eauto].
        apply (f_equal length) in Hslice.
        rewrite length_take, length_drop, HdF in Hslice. simpl in Hslice. lia. }
      unfold mbind, result_bind.
      destruct (bool_decide (m < f_thresh)); eexists; (split; [reflexivity|]);
        simpl; lia.
    + rewrite bool_decide_eq_false_2 by exact Hge.
      unfold mbind, result_bind. eexists. split; [reflexivity|]. lia.
Qed.

Lemma length_rows3_data (rows : list (Qc * Qc * Qc)) :
  length (data (rows3 rows)) = (length rows * 3)%nat.
Proof.
  unfold rows3. cbn [data]. induction rows as [|r rows IH]; simpl; [reflexivity|].
  now rewrite IH.
Qed.

(** X26: on a batch of systems with at least one atom each, whose atom
    counts add up to the number of force rows, and with one energy per
    system, [energy_force_within_threshold] returns; it counts the same
    number of systems as [energy_within_threshold] and never more
    successes: a system within both thresholds is within the energy
    threshold. *)
Theorem energy_force_success_implies_energy_success
    (prediction target : tdict) (ns : list nat)
    (P T : list (Qc * Qc * Qc)) (pe te : list Qc) :
  target !! "natoms"%string = Some (vec (map of_index ns)) ->
  target !! "forces"%string = Some (rows3 T) ->
  target !! "energy"%string = Some (vec te) ->
  prediction !! "forces"%string = Some (rows3 P) ->
  prediction !! "energy"%string = Some (vec pe) ->
  ns <> [] /\ Forall (fun n => (0 < n)%nat) ns /\
    sum_list ns = length P /\ length T = length P /\
    length pe = length ns /\ length te = length ns ->
  exists s s',
    energy_force_within_threshold prediction target = Ok s /\
    energy_within_threshold prediction target = Ok s' /\
    0 <= total s /\ total s <= total s' /\
    numel s = numel s' /\ numel s = Z.of_nat (length ns).
Proof.
  intros Hnat Htf Hte Hpf Hpe (Hne & Hpos & Hsum & HT & Hlpe & Hlte).
  rewrite (energy_within_threshold_lookup prediction target pe te Hpe Hte)
    by (try congruence; destruct pe, ns; simpl in *; congruence).
  unfold energy_force_within_threshold, getattr.
  rewrite Hnat, Htf, Hte, Hpf, Hpe.
  unfold mbind, result_bind.
  cbn [size0 rows3 vec shape data].
  rewrite sumQc_of_index, Hsum.
  rewrite bool_decide_eq_true_2 by reflexivity. cbn [negb].
  rewrite length_map, Hlpe, Nat.eqb_refl. cbn [negb].
  unfold elementwise. cbn [rows3 vec shape data].
  rewrite HT, bool_decide_eq_true_2 by reflexivity.
  rewrite Hlte, <- Hlpe, bool_decide_eq_true_2 by reflexivity.
  set (dE := zip_with abs_err te pe).
  set (dF := zip_with abs_err (flat_map (fun r => [r.1.1; r.1.2; r.2]) T)
                              (flat_map (fun r => [r.1.1; r.1.2; r.2]) P)).
  assert (length dE = length pe) as HdE.
  { unfold dE. rewrite length_zip_with. lia. }
  assert (length dF = (length P * 3)%nat) as HdF.
  { unfold dF. rewrite length_zip_with.
    pose proof (length_rows3_data T) as H1. pose proof (length_rows3_data P) as H2.
    unfold rows3 in H1, H2. cbn [data] in H1, H2. rewrite H1, H2, HT. lia. }
  destruct (threshold_loop_ok dE dF (length P) HdF ns 0 0 Hpos ltac:(lia) ltac:(lia))
    as (success & Hloop & Hbound).
  rewrite HdE in Hloop. rewrite Hloop.
  destruct (Nat.eqb_spec (length pe) 0) as [Hz|_];
    [destruct ns; [contradiction | simpl in Hlpe; lia]|].
  rewrite drop_0, <- Hlpe, <- HdE, take_ge in Hbound by lia.
  do 2 eexists. split; [reflexivity|]. split; [reflexivity|].
  cbv zeta. cbn [total numel].
  split; [|split; [|split; reflexivity]].
  - rewrite <- Z2Qc_inj_0. apply (proj1 (Z2Qc_inj_le 0 success)). lia.
  - apply (proj1 (Z2Qc_inj_le success _)). lia.
Qed.

(** X27: [energy_force_within_threshold] refuses a batch whose atom
    counts do not add up to the number of rows of the predicted forces:
    it raises AssertionError. *)
Theorem energy_force_counts_must_add_up (prediction target : tdict)
    (natoms pf : tensor) (N : nat) (rest : list nat) :
  target !! "natoms"%string = Some natoms ->
  prediction !! "forces"%string = Some pf ->
  shape pf = N :: rest ->
  sumQc (data natoms) <> of_index N ->
  energy_force_within_threshold prediction target = Raise AssertionError.
Proof.
  intros Hnat Hpf Hshape Hsum.
  unfold energy_force_within_threshold, getattr.
  rewrite Hnat, Hpf. unfold mbind, result_bind, size0. rewrite Hshape.
  now rewrite bool_decide_eq_false_2 by exact Hsum.
Qed.

Lemma energy_force_success_implies_energy_success_witness :
  exists s s',
    energy_force_within_threshold
      {[ "forces"%string := rows3 [(Q2Qc 1, Q2Qc 2, Q2Qc 3); (Q2Qc 0, Q2Qc 0, Q2Qc 1)];
         "energy"%string := vec [Q2Qc (101 # 100)]%list ]}
      {[ "natoms"%string := vec (map of_index [2%nat]);
         "forces"%string := rows3 [(Q2Qc 1, Q2Qc 2, Q2Qc 3); (Q2Qc 0, Q2Qc (1 # 2), Q2Qc 1)];
         "energy"%string := vec [Q2Qc 1]%list ]} = Ok s /\
    energy_within_threshold
      {[ "forces"%string := rows3 [(Q2Qc 1, Q2Qc 2, Q2Qc 3); (Q2Qc 0, Q2Qc 0, Q2Qc 1)];
         "energy"%string := vec [Q2Qc (101 # 100)]%list ]}
      {[ "natoms"%string := vec (map of_index [2%nat]);
         "forces"%string := rows3 [(Q2Qc 1, Q2Qc 2, Q2Qc 3); (Q2Qc 0, Q2Qc (1 # 2), Q2Qc 1)];
         "energy"%string := vec [Q2Qc 1]%list ]} = Ok s' /\
    0 <= total s /\ total s <= total s' /\
    numel s = numel s' /\ numel s = 1%Z.
Proof.
  apply (energy_force_success_implies_energy_success _ _ [2%nat]
           [(Q2Qc 1, Q2Qc 2, Q2Qc 3); (Q2Qc 0, Q2Qc 0, Q2Qc 1)]
           [(Q2Qc 1, Q2Qc 2, Q2Qc 3); (Q2Qc 0, Q2Qc (1 # 2), Q2Qc 1)]
           [Q2Qc (101 # 100)]%list [Q2Qc 1]%list);
    try reflexivity.
  repeat split; try reflexivity; try discriminate.
  repeat constructor.
Defined.

Lemma energy_force_counts_must_add_up_witness :
  energy_force_within_threshold
    {[ "forces"%string := rows3 [(Q2Qc 1, Q2Qc 2, Q2Qc 3)] ]}
    {[ "natoms"%string := vec (map of_index [2%nat]) ]} = Raise AssertionError.
Proof.
  apply (energy_force_counts_must_add_up _ _
           (vec (map of_index [2%nat])) (rows3 [(Q2Qc 1, Q2Qc 2, Q2Qc 3)])
           1 [3%nat]); try reflexivity.
  vm_compute. discriminate.
Defined.

End EvaluatorSpec.

(* ===================================================================== *)
(** * The accumulated records in floating-point arithmetic                *)
(* ===================================================================== *)

Module EvaluatorBinarySpec.
Import EvaluatorBinary.
#[local] Set Warnings "-inexact-float".
Local Open Scope float_scope.

(** A finite number is a zero or has a mantissa and an exponent. *)
Lemma is_finite_cases (x : float) :
  is_finite x = true ->
  match Prim2SF x with
  | S754_zero _ | S754_finite _ _ _ => True
  | _ => False
  end.
Proof.
  unfold is_finite, is_nan, is_infinity.
  rewrite !FloatAxioms.eqb_spec, FloatAxioms.abs_spec.
  destruct (Prim2SF x) as [s|s| |s m e]; simpl; try discriminate; auto.
  destruct s; vm_compute; discriminate.
Qed.

Lemma sub_self (x : float) : is_finite x = true -> x - x = 0.
Proof.
  intros H. apply is_finite_cases in H. apply Prim2SF_inj.
  rewrite FloatAxioms.sub_spec.
  destruct (Prim2SF x) as [s|s| |s m e]; try contradiction.
  - destruct s; reflexivity.
  - unfold SF64sub, SFsub. rewrite Z.sub_diag. reflexivity.
Qed.

Lemma abs_err_self (x : float) : is_finite x = true -> abs_err x x = 0.
Proof. intros H. unfold abs_err. rewrite (sub_self x H). reflexivity. Qed.

Lemma zip_abs_err_self (v : list float) :
  Forall (fun x => is_finite x = true) v ->
  zip_with abs_err v v = map (fun _ => 0) v.
Proof.
  induction 1 as [|x v Hx Hv IH]; simpl; [reflexivity|].
  now rewrite (abs_err_self x Hx), IH.
Qed.

Lemma tsum32_zeros {A} (v : list A) : tsum32 (map (fun _ => 0) v) = 0.
Proof.
  unfold tsum32. induction v as [|x v IH]; simpl; [reflexivity|].
  change (round32 (0 + 0)) with 0. exact IH.
Qed.

Lemma filter_zeros_below {A} (v : list A) :
  List.filter (fun e => e <? e_thresh) (map (fun _ => 0) v) = map (fun _ => 0) v.
Proof.
  induction v as [|x v IH]; simpl; [reflexivity|].
  change (0 <? e_thresh) with true. cbv iota. now rewrite IH.
Qed.

(** What a merge leaves under its key. *)
Lemma update_dict_rounds (key : string) (s : stat) (m : gmap string stat) :
  let a := acc_at m key in
  let tot := total a + total s in
  let num := (numel a + numel s)%Z in
  update key (StatDict s) m =
    if Z.eqb num 0
    then (Raise Evaluator.ZeroDivisionError,
          <[key := {| metric := metric a; total := tot; numel := num |}]> m)
    else (Ok tt,
          <[key := {| metric := Some (tot / of_int num);
                      total := tot; numel := num |}]> m).
Proof.
  cbv zeta. unfold acc_at, update, accumulate.
  destruct (m !! key) as [a|] eqn:Hm.
  - rewrite bool_decide_eq_false_2 by discriminate. rewrite Hm. simpl.
    destruct (Z.eqb (numel a + numel s) 0); [reflexivity|].
    now rewrite insert_insert_eq.
  - rewrite bool_decide_eq_true_2 by reflexivity.
    rewrite lookup_insert_eq. simpl.
    destruct (Z.eqb (0 + numel s) 0); now rewrite !insert_insert_eq.
Qed.

Lemma acc_at_inserted (k : string) (v : stat) (m : gmap string stat) :
  acc_at (<[k := v]> m) k = v.
Proof. unfold acc_at. now rewrite lookup_insert_eq. Qed.




(** X11: when the prediction equals the target and every value is finite,
    the absolute error is 0 in total, and every system is within the
    energy threshold: the count of successes is the number of systems. *)
Theorem perfect_prediction_finite (v : list float) :
  v <> [] ->
  Forall (fun x => is_finite x = true) v ->
  (exists s, absolute_error v v = Ok s /\ total s = 0 /\
             numel s = Z.of_nat (length v)) /\
  energy_within_threshold v v =
    Ok {| metric := Some (of_int (Z.of_nat (length v)) / of_int (Z.of_nat (length v)));
          total := of_int (Z.of_nat (length v));
          numel := Z.of_nat (length v) |}.
Proof.
  intros Hne Hfin. split.
  - unfold absolute_error, elementwise. rewrite Nat.eqb_refl.
    eexists. split; [reflexivity|]. cbn [total numel].
    rewrite (zip_abs_err_self v Hfin), tsum32_zeros. split; reflexivity.
  - unfold energy_within_threshold, elementwise. rewrite Nat.eqb_refl.
    rewrite (zip_abs_err_self v Hfin), filter_zeros_below, length_map.
    destruct (Z.eqb_spec (Z.of_nat (length v)) 0) as [Hz|_]; [|reflexivity].
    destruct v; [contradiction | simpl in Hz; lia].
Qed.

Lemma perfect_prediction_finite_witness :
  energy_within_threshold [1; 2] [1; 2] =
    Ok {| metric := Some 1; total := 2; numel := 2 |}.
Proof.
  destruct (perfect_prediction_finite [1; 2]) as [_ Hrate].
  - discriminate.
  - repeat constructor.
  - rewrite Hrate. vm_compute. reflexivity.
Defined.

End EvaluatorBinarySpec.

(* ===================================================================== *)
(** * Properties of the batched L-BFGS relaxation                         *)
(* ===================================================================== *)

Module LBFGSSpec.
Import LBFGS.
#[local] Set Warnings "-inexact-float".

Section Generic.
Context {T OB Atoms : Type} {ST : Scalar T} {OP : Optimizable T OB Atoms}.
Implicit Types (cfg : config T) (st : state T OB) (loc : locals T).

Lemma write_loop_no_file_event cfg i atoms ntraj masks :
  forallb (fun e : event T Atoms => negb (file_event e)) (write_loop cfg i atoms ntraj masks).1 = true.
Proof.
  revert i ntraj masks.
  induction atoms as [|atm atoms IH]; intros i ntraj masks; simpl; [reflexivity|].
  destruct ntraj as [|ntraj]; [reflexivity|].
  destruct masks as [|mask masks]; [reflexivity|].
  destruct mask as [|m0 mask]; [reflexivity|].
  specialize (IH (S i) ntraj masks).
  destruct (write_loop cfg (S i) atoms ntraj masks) as [evs e]. simpl in *.
  destruct (m0 || negb (save_full cfg)); simpl; exact IH.
Qed.

Lemma write_no_file_event cfg energy forces mask ob :
  forallb (fun e : event T Atoms => negb (file_event e)) (write cfg energy forces mask ob).1.1 = true.
Proof.
  unfold write.
  destruct (split_sizes mask (natoms (set_energy_forces energy forces ob)));
    [|reflexivity].
  pose proof (write_loop_no_file_event cfg 0
    (get_atoms_list (set_energy_forces energy forces ob))
    (length (traj_names cfg)) l) as Hw.
  destruct (write_loop cfg 0 _ _ l) as [evs e]. exact Hw.
Qed.

(** The loop itself opens, closes and renames nothing. *)
Lemma run_loop_no_file_event cfg fmax_ steps fuel :
  forall loc st,
  forallb (fun e : event T Atoms => negb (file_event e)) (run_loop cfg fmax_ steps fuel loc st).1 = true.
Proof.
  induction fuel as [|fuel IH]; intros loc st; simpl; [reflexivity|].
  destruct (negb _); [reflexivity|].
  match goal with
  | |- context [if ?c then write ?a1 ?a2 ?a3 ?a4 ?a5 else _] =>
      pose proof (write_no_file_event a1 a2 a3 a4 a5) as Hw;
      destruct c; [destruct (write a1 a2 a3 a4 a5) as [[written failed] ob'] | ]
  end; simpl in *.
  - destruct failed as [e|]; [simpl; exact Hw|].
    match goal with |- context [if ?c then step ?a1 ?a2 ?a3 ?a4 ?a5 else ?x] =>
      destruct (if c then step a1 a2 a3 a4 a5 else x) as [st'|e] end.
    + match goal with |- context [run_loop cfg fmax_ steps fuel ?l ?s] =>
        specialize (IH l s); destruct (run_loop cfg fmax_ steps fuel l s) as [evs r] end.
      simpl in *. rewrite forallb_app, Hw, IH. reflexivity.
    + simpl. exact Hw.
  - match goal with |- context [if ?c then step ?a1 ?a2 ?a3 ?a4 ?a5 else ?x] =>
      destruct (if c then step a1 a2 a3 a4 a5 else x) as [st'|e] end.
    + match goal with |- context [run_loop cfg fmax_ steps fuel ?l ?s] =>
        specialize (IH l s); destruct (run_loop cfg fmax_ steps fuel l s) as [evs r] end.
      simpl in *. exact IH.
    + reflexivity.
Qed.

(** The exceptions of [step] are those of its operands: never the
    unbound local of [run]. *)
Lemma first_loop_raises index st todo q alpha_ e :
  first_loop index st todo q alpha_ = Raise e -> e = IndexError.
Proof.
  revert q alpha_. induction todo as [|i todo IH]; intros q alpha_; simpl.
  - discriminate.
  - destruct (rho_ st !! i); [|congruence].
    destruct (s_ st !! i); [|congruence].
    destruct (y_ st !! i); [|congruence].
    apply IH.
Qed.

Lemma second_loop_raises index st todo alpha_ z e :
  second_loop index st todo alpha_ z = Raise e -> e = IndexError.
Proof.
  revert z. induction todo as [|i todo IH]; intros z; simpl.
  - discriminate.
  - destruct (rho_ st !! i); [|congruence].
    destruct (s_ st !! i); [|congruence].
    destruct (y_ st !! i); [|congruence].
    destruct ((list_to_map alpha_ : gmap nat (list T)) !! i); [|congruence].
    apply IH.
Qed.

Lemma step_raises cfg iteration forces mask st e :
  step cfg iteration forces mask st = Raise e -> e <> UnboundLocalError.
Proof.
  unfold step, update_history.
  destruct (0 <? iteration)%Z.
  - destruct (r0 st); [destruct (f0 st)|]; try (intros [= <-]; discriminate).
    match goal with |- context [first_loop ?a1 ?a2 ?a3 ?a4 ?a5] =>
      destruct (first_loop a1 a2 a3 a4 a5) as [[q al]|e1] eqn:H1 end.
    + match goal with |- context [second_loop ?a1 ?a2 ?a3 ?a4 ?a5] =>
        destruct (second_loop a1 a2 a3 a4 a5) as [z|e2] eqn:H2 end.
      * destruct (abs_max _); [|intros [= <-]; discriminate].
        destruct (flt _ _); discriminate.
      * apply second_loop_raises in H2 as ->. intros [= <-]. discriminate.
    + apply first_loop_raises in H1 as ->. intros [= <-]. discriminate.
  - match goal with |- context [first_loop ?a1 ?a2 ?a3 ?a4 ?a5] =>
      destruct (first_loop a1 a2 a3 a4 a5) as [[q al]|e1] eqn:H1 end.
    + match goal with |- context [second_loop ?a1 ?a2 ?a3 ?a4 ?a5] =>
        destruct (second_loop a1 a2 a3 a4 a5) as [z|e2] eqn:H2 end.
      * destruct (abs_max _); [|intros [= <-]; discriminate].
        destruct (flt _ _); discriminate.
      * apply second_loop_raises in H2 as ->. intros [= <-]. discriminate.
    + apply first_loop_raises in H1 as ->. intros [= <-]. discriminate.
Qed.

Lemma write_loop_raises cfg i (atoms : list Atoms) ntraj masks e :
  (write_loop cfg i atoms ntraj masks).2 = Some e -> e = IndexError.
Proof.
  revert i ntraj masks.
  induction atoms as [|atm atoms IH]; intros i ntraj masks; simpl; [discriminate|].
  destruct ntraj as [|ntraj]; [discriminate|].
  destruct masks as [|mask masks]; [discriminate|].
  destruct mask as [|m0 mask]; [simpl; congruence|].
  specialize (IH (S i) ntraj masks).
  destruct (write_loop cfg (S i) atoms ntraj masks) as [evs e']. exact IH.
Qed.

Lemma write_raises cfg energy forces mask (ob : OB) e :
  (write cfg energy forces mask ob).1.2 = Some e -> e <> UnboundLocalError.
Proof.
  unfold write.
  destruct (split_sizes mask (natoms (set_energy_forces energy forces ob)));
    [|simpl; intros [= <-]; discriminate].
  pose proof (write_loop_raises cfg 0
    (get_atoms_list (set_energy_forces energy forces ob))
    (length (traj_names cfg)) l e) as Hw.
  destruct (write_loop cfg 0 _ _ l) as [evs e']. simpl in *.
  intros He. rewrite (Hw He). discriminate.
Qed.

Lemma run_loop_raises cfg fmax_ steps fuel :
  forall loc st e,
  (run_loop cfg fmax_ steps fuel loc st).2 = Raise e -> e <> UnboundLocalError.
Proof.
  induction fuel as [|fuel IH]; intros loc st e; simpl; [discriminate|].
  destruct (negb _); [discriminate|].
  match goal with
  | |- context [if ?c then write ?a1 ?a2 ?a3 ?a4 ?a5 else _] =>
      pose proof (write_raises a1 a2 a3 a4 a5) as Hw;
      destruct c; [destruct (write a1 a2 a3 a4 a5) as [[written failed] ob'] | ]
  end; simpl in *.
  - destruct failed as [e'|]; [simpl; intros [= <-]; now apply Hw|].
    match goal with |- context [if ?c then step ?a1 ?a2 ?a3 ?a4 ?a5 else ?x] =>
      destruct (if c then step a1 a2 a3 a4 a5 else x) as [st'|e'] eqn:Hstep end.
    + match goal with |- context [run_loop cfg fmax_ steps fuel ?l ?s] =>
        specialize (IH l s e); destruct (run_loop cfg fmax_ steps fuel l s) as [evs r] end.
      exact IH.
    + simpl. intros [= <-].
      match type of Hstep with (if ?c then _ else _) = _ => destruct c end;
        [now apply step_raises in Hstep | discriminate].
  - match goal with |- context [if ?c then step ?a1 ?a2 ?a3 ?a4 ?a5 else ?x] =>
      destruct (if c then step a1 a2 a3 a4 a5 else x) as [st'|e'] eqn:Hstep end.
    + match goal with |- context [run_loop cfg fmax_ steps fuel ?l ?s] =>
        specialize (IH l s e); destruct (run_loop cfg fmax_ steps fuel l s) as [evs r] end.
      exact IH.
    + simpl. intros [= <-].
      match type of Hstep with (if ?c then _ else _) = _ => destruct c end;
        [now apply step_raises in Hstep | discriminate].
Qed.

(** The bound on the iterations never cuts the loop short: once it covers
    the steps that remain, the loop does not depend on it. *)
Lemma run_loop_fuel cfg fmax_ steps fuel :
  forall fuel' loc st,
  (Z.to_nat (steps - iteration_ loc) <= fuel)%nat ->
  (Z.to_nat (steps - iteration_ loc) <= fuel')%nat ->
  run_loop cfg fmax_ steps fuel loc st = run_loop cfg fmax_ steps fuel' loc st.
Proof.
  induction fuel as [|fuel IH]; intros fuel' loc st Hf Hf'.
  - destruct fuel' as [|fuel']; [reflexivity|]. simpl.
    destruct (Z.ltb_spec (iteration_ loc) steps) as [Hlt|Hge]; [lia|reflexivity].
  - destruct fuel' as [|fuel'].
    + simpl.
      destruct (Z.ltb_spec (iteration_ loc) steps) as [Hlt|Hge]; [lia|reflexivity].
    + simpl.
      destruct (Z.ltb_spec (iteration_ loc) steps) as [Hlt|Hge]; [|reflexivity].
      destruct (negb _); [reflexivity|].
      match goal with
      | |- context [if ?c then write ?a1 ?a2 ?a3 ?a4 ?a5 else ?x] =>
          destruct (if c then write a1 a2 a3 a4 a5 else x) as [[written failed] ob']
      end.
      destruct failed; [reflexivity|].
      match goal with |- context [if ?c then step ?a1 ?a2 ?a3 ?a4 ?a5 else ?x] =>
        destruct (if c then step a1 a2 a3 a4 a5 else x) as [st'|e'] end;
        [|reflexivity].
      rewrite (IH fuel'); [reflexivity | simpl; lia | simpl; lia].
Qed.

(** C2 (what the code does): with [steps = 0] the loop body never runs,
    so no energy or force is evaluated and nothing is logged; the cache is
    emptied, the trajectory files (if any) are closed and renamed, and the
    assignment of the unbound local [energy] raises: no batch is
    returned. *)
Theorem run_zero_steps_raises cfg fmax_ (ob : OB) :
  run cfg fmax_ 0 ob =
    ((if traj_dir cfg then map Open (traj_names cfg) else []) ++
     [EmptyCache] ++
     (if traj_dir cfg
      then map Close (seq 0 (length (traj_names cfg))) ++
           map Rename (traj_names cfg)
      else []),
     Raise UnboundLocalError).
Proof. reflexivity. Qed.


(** The clamp written out for two systems of two and three atoms. *)
Lemma determine_step_two_systems cfg (a0 a1 b0 b1 b2 : list T) :
  _determine_step cfg [0; 0; 1; 1; 1] [a0; a1; b0; b1; b2] =
  let L0 := fmax (row_norm a0) (row_norm a1) in
  let L1 := fmax (fmax (row_norm b0) (row_norm b1)) (row_norm b2) in
  let c0 := fmul (fdiv fone (fadd L0 feps)) (fmin L0 (maxstep cfg)) in
  let c1 := fmul (fdiv fone (fadd L1 feps)) (fmin L1 (maxstep cfg)) in
  let clamp c row := map (fun x => fmul x (damping cfg)) (map (fun x => fmul x c) row) in
  [clamp c0 a0; clamp c0 a1; clamp c1 b0; clamp c1 b1; clamp c1 b2].
Proof. reflexivity. Qed.

End Generic.

(** ** Runs in binary64 arithmetic *)

Section Binary64.
Local Open Scope float_scope.

Lemma float_eqb_zero (d : float) : (d =? 0) = true -> d = 0 \/ d = -0.
Proof.
  intros Hd. rewrite FloatAxioms.eqb_spec in Hd.
  rewrite <- (SF2Prim_Prim2SF d).
  destruct (Prim2SF d) as [s|s| |s m e]; try discriminate.
  - destruct s; [right | left]; reflexivity.
  - destruct s; discriminate.
  - destruct s; discriminate.
Qed.

(** [set_positions] with [mask_converged]: the rows of the systems that
    are not updated are stored as zeros, whatever the step proposed for
    them. *)
Lemma set_positions_zeroes_masked {T : Type} {ST : Scalar T} (cfg : config T)
    (positions : list (list T)) (mask : list bool) (b : batch T) (i : nat)
    (row : list T) :
  mask_converged cfg = true ->
  mask !! i = Some false ->
  positions !! i = Some row ->
  pos (set_positions cfg positions mask b) !! i =
    Some (map (fun _ => to_float32 fzero) row).
Proof.
  intros Hm Hmask Hrow. unfold set_positions. rewrite Hm.
  assert (pos (set_positions_batch (map (map to_float32) (where_rows mask positions)) b)
          !! i = Some (map (fun _ => to_float32 fzero) row)) as Hpos.
  { simpl. rewrite list_lookup_fmap. unfold where_rows.
    rewrite lookup_zip_with, Hmask. simpl. rewrite Hrow. simpl.
    rewrite map_map. reflexivity. }
  destruct (otf_graph cfg); exact Hpos.
Qed.

(** C1 (what the code does): in a batch of two systems of which the
    first is converged at iteration 0, with [mask_converged] on, the run
    does not keep the first system where it converged, at (1, 2, 3): the
    step stores zeros for its atom, and the batch returned has it at the
    origin, where the force on it (of norm 3.74, as logged at iterations
    1 and 2) is no longer below [fmax]. *)
Theorem converged_system_moved_to_origin :
  (@check_convergence _ _ (list (list float)) _ _ 0.05 0 two_atoms).1.1.1
    = [true; false] /\
  pos two_atoms !! 0%nat = Some [1; 2; 3] /\
  returned_positions (run default_config 0.05 3 two_atoms).2 =
    Some [[0; 0; 0]; [0x1.fc28f8p-2; 0; 0]] /\
  (run default_config 0.05 3 two_atoms).1 =
    [Log 0 [0; 0.5];
     Log 1 [0x1.deeea11683f49p+1; 0x1.feb854p-2];
     Log 2 [0x1.deeea11683f49p+1; 0x1.fc28f8p-2];
     EmptyCache].
Proof.
  split; [|split; [|split]].
  - vm_compute. reflexivity.
  - reflexivity.
  - vm_compute. reflexivity.
  - vm_compute. reflexivity.
Qed.

(** A comparison that holds has no operand that is not a number. *)
Lemma ltb_not_nan (x y : float) :
  (x <? y) = true -> is_nan x = false /\ is_nan y = false.
Proof.
  unfold is_nan. rewrite FloatAxioms.ltb_spec, !FloatAxioms.eqb_spec.
  unfold SFltb, SFeqb.
  destruct (Prim2SF x) as [s|s| |s m e], (Prim2SF y) as [s'|s'| |s' m' e']; simpl;
    try discriminate; intros _; split; try reflexivity;
    repeat match goal with |- context [if ?b then _ else _] => destruct b end;
    try reflexivity.
  all: rewrite ?Z.compare_refl, ?Pos.compare_cont_refl; reflexivity.
Qed.




Section History.
Context {OB Atoms : Type} {OP : Optimizable float OB Atoms}.

(** C3 (amended): the history update computes rho as the plain reciprocal
    [1 / dot(y0, s0)] of each system's segmented dot product and appends
    it to the history; no zero denominator is replaced, and for a system
    whose dot product is zero the quotient is an infinity. *)
Theorem update_history_rho_is_plain_reciprocal (cfg : config float)
    (iteration : Z) (forces r : list (list float)) (st : state float OB)
    (r0_ f0_ : list (list float)) :
  (0 < iteration)%Z ->
  r0 st = Some r0_ ->
  f0 st = Some f0_ ->
  let dots := _batched_dot (batch_indices (optimizable st))
                (tneg (tsub forces f0_)) (tsub r r0_) in
  exists st',
    update_history cfg iteration forces r st = Ok st' /\
    rho_ st' = deque_append (memory cfg) (map (fun d => 1 / d) dots) (rho_ st) /\
    forall k d, dots !! k = Some d -> (d =? 0) = true ->
      1 / d = infinity \/ 1 / d = neg_infinity.
Proof.
  intros Hit Hr0 Hf0 dots. unfold update_history.
  destruct (Z.ltb_spec 0 iteration) as [_|Hle]; [|lia].
  rewrite Hr0, Hf0. eexists. split; [reflexivity|]. split; [reflexivity|].
  intros k d _ Hd. destruct (float_eqb_zero d Hd) as [-> | ->]; [left | right];
    reflexivity.
Qed.

End History.

Lemma update_history_rho_is_plain_reciprocal_witness :
  exists st',
    update_history default_config 1 [[0; 0; 0]; [-0.25; 0; 0]]
      [[1; 2; 3]; [0.25; 0; 0]] stalled = Ok st' /\
    rho_ st' = [[infinity; 16]].
Proof.
  destruct (update_history_rho_is_plain_reciprocal (Atoms := list (list float))
              default_config 1 [[0; 0; 0]; [-0.25; 0; 0]]
              [[1; 2; 3]; [0.25; 0; 0]] stalled
              [[1; 2; 3]; [0.5; 0; 0]] [[0; 0; 0]; [-0.5; 0; 0]]
              ltac:(lia) eq_refl eq_refl) as (st' & Hst' & Hrho & _).
  exists st'. split; [exact Hst'|]. rewrite Hrho. vm_compute. reflexivity.
Defined.

(** After a step that left the first system where it was, its dot product
    is zero and the reciprocal stored for it is infinite, not 1; in the
    first loop of the recursion it turns into a value that is not a
    number. *)
Lemma rho_of_zero_dot_is_infinite :
  _batched_dot [0; 1]%nat
    (tneg (tsub [[0; 0; 0]; [-0.25; 0; 0]] [[0; 0; 0]; [-0.5; 0; 0]]))
    (tsub [[1; 2; 3]; [0.25; 0; 0]] [[1; 2; 3]; [0.5; 0; 0]]) = [0; 0.0625] /\
  match update_history (Atoms := list (list float)) default_config 1
          [[0; 0; 0]; [-0.25; 0; 0]] [[1; 2; 3]; [0.25; 0; 0]] stalled with
  | Ok st' =>
      rho_ st' = [[infinity; 16]] /\
      match first_loop [0; 1]%nat st' [0%nat]
              (tneg [[0; 0; 0]; [-0.25; 0; 0]]) [] with
      | Ok (q, alpha_) => alpha_ = [(0%nat, [nan; -1])] /\
                          q = [[nan; nan; nan]; [0; -0; -0]]
      | Raise _ => False
      end
  | Raise _ => False
  end.
Proof. vm_compute. repeat split; reflexivity. Qed.


(** The clamp in binary64 arithmetic: the longest displacement of the
    first system ends within 2.5e-8 of [maxstep * damping], and the second
    system's rows do not change with the first system's. *)
Example determine_step_binary64 :
  let b := [[0.001; 0; 0]; [0; 0.002; 0]; [0; 0; 0.003]] in
  let out := _determine_step default_config [0; 0; 1; 1; 1]%nat
               ([[0.03; 0; 0]; [0; 0.04; 0]] ++ b) in
  let out' := _determine_step default_config [0; 0; 1; 1; 1]%nat
                ([[7; 0; 0]; [0; 9; 8]] ++ b) in
  scatter_max (map row_norm out) [0; 0; 1; 1; 1]%nat
    = [0x1.47addecb04ddfp-9; 0x1.8933f0cfa908p-11] /\
  (abs (0x1.47addecb04ddfp-9 - maxstep default_config * damping default_config)
     <? 0x1.ad7f29abcaf48p-26) = true /\
  drop 2 out = drop 2 out'.
Proof. vm_compute. repeat split; reflexivity. Qed.


End Binary64.

(** ** The loop of [run], one iteration at a time *)

Section Run.
Context {T OB Atoms : Type} {ST : Scalar T} {OP : Optimizable T OB Atoms}.
Implicit Types (cfg : config T) (st : state T OB) (loc : locals T).

(** One iteration of the loop when no trajectory is written. *)
Lemma run_loop_turn cfg fmax_ steps fuel loc st :
  traj_dir cfg = false ->
  (iteration_ loc <? steps)%Z && negb (converged_ loc) = true ->
  run_loop cfg fmax_ steps (S fuel) loc st =
    let ob := optimizable st in
    let log : event T Atoms := Log (iteration_ loc) (get_max_forces ob) in
    let converged_mask :=
      zip_with orb (converged_mask_ loc)
        (map (fun f => flt f fmax_) (gather (get_max_forces ob) (batch_indices ob))) in
    let converged := forallb (fun b => b) converged_mask in
    match (if negb converged && (iteration_ loc <? steps - 1)%Z
           then step cfg (iteration_ loc) (Some (get_forces ob))
                     (map negb converged_mask) st
           else Ok st) with
    | Raise e => ([log], Raise e)
    | Ok st' =>
        (log :: (run_loop cfg fmax_ steps fuel
                   {| iteration_ := (iteration_ loc + 1)%Z;
                      converged_ := converged;
                      converged_mask_ := converged_mask;
                      energy_ := Some (get_potential_energies ob);
                      forces_ := Some (get_forces ob) |} st').1,
         (run_loop cfg fmax_ steps fuel
                   {| iteration_ := (iteration_ loc + 1)%Z;
                      converged_ := converged;
                      converged_mask_ := converged_mask;
                      energy_ := Some (get_potential_energies ob);
                      forces_ := Some (get_forces ob) |} st').2)
    end.
Proof.
  intros Hdir Hgo. destruct st as [ob s y rho r f].
  cbn [run_loop]. rewrite Hgo, Hdir. cbn [negb andb check_convergence].
  cbv zeta. cbn [optimizable s_ y_ rho_ r0 f0].
  match goal with |- context [if ?c then step ?a1 ?a2 ?a3 ?a4 ?a5 else ?x] =>
    destruct (if c then step a1 a2 a3 a4 a5 else x) as [st'|e] end;
    [|reflexivity].
  match goal with |- context [run_loop cfg fmax_ steps fuel ?l ?s] =>
    destruct (run_loop cfg fmax_ steps fuel l s) as [evs res] end.
  reflexivity.
Qed.

Lemma run_loop_done cfg fmax_ steps fuel loc st :
  (iteration_ loc <? steps)%Z && negb (converged_ loc) = false ->
  run_loop cfg fmax_ steps fuel loc st = ([], Ok (loc, st)).
Proof.
  intros Hstop. destruct fuel; [reflexivity|]. simpl. now rewrite Hstop.
Qed.

Lemma zip_with_orb_false {A} (h : A -> bool) (l : list A) :
  zip_with orb (map (fun _ => false) l) (map h l) = map h l.
Proof. induction l as [|x l IH]; simpl; [reflexivity | now rewrite IH]. Qed.

Lemma forallb_id_map {A} (h : A -> bool) (l : list A) :
  forallb (fun b => b) (map h l) = forallb h l.
Proof. induction l as [|x l IH]; simpl; [reflexivity | now rewrite IH]. Qed.

(** X16: when at least one step is allowed ([steps >= 1]) and no
    trajectory directory is given, and either the budget is exactly one
    step or every system of the batch already has its largest force below
    [fmax], [run] evaluates the model once, logs iteration 0, takes no
    step, and returns the batch it was given with the energies and forces
    of that evaluation attached.  (With [steps = 0] nothing is evaluated
    and [run] raises, whatever the forces are.) *)
Theorem run_single_evaluation cfg fmax_ steps (ob : OB) :
  traj_dir cfg = false ->
  (1 <= steps)%Z ->
  steps = 1%Z \/
    forallb (fun b => flt (nth b (get_max_forces ob) fzero) fmax_)
            (batch_indices ob) = true ->
  run cfg fmax_ steps ob =
    ([Log 0 (get_max_forces ob); EmptyCache],
     Ok (set_energy_forces (get_potential_energies ob)
           (take (pos_rows ob) (get_forces ob)) ob)).
Proof.
  intros Hdir Hsteps Hcase. unfold run. rewrite Hdir.
  destruct (Z.to_nat steps) as [|fuel] eqn:Hfuel; [lia|].
  rewrite run_loop_turn;
    [| exact Hdir
     | cbn [iteration_ converged_ negb];
       destruct (Z.ltb_spec 0 steps); [reflexivity | lia]].
  cbv zeta. cbn [optimizable iteration_ converged_mask_].
  unfold gather. rewrite map_map, zip_with_orb_false, forallb_id_map.
  assert ((negb (forallb (fun b => flt (nth b (get_max_forces ob) fzero) fmax_)
                         (batch_indices ob)) && (0 <? steps - 1)%Z) = false) as ->.
  { destruct Hcase as [-> | ->]; [apply andb_false_r | reflexivity]. }
  rewrite run_loop_done; [reflexivity|].
  cbn [iteration_ converged_].
  destruct Hcase as [-> | ->]; [reflexivity | apply andb_false_r].
Qed.

Lemma write_loop_only_writes cfg i (atoms : list Atoms) ntraj masks :
  Forall (fun e : event T Atoms => exists j a, e = WriteAtoms j a)
         (write_loop cfg i atoms ntraj masks).1.
Proof.
  revert i ntraj masks.
  induction atoms as [|atm atoms IH]; intros i ntraj masks; simpl; [constructor|].
  destruct ntraj as [|ntraj]; [constructor|].
  destruct masks as [|mask masks]; [constructor|].
  destruct mask as [|m0 mask]; [constructor|].
  specialize (IH (S i) ntraj masks).
  destruct (write_loop cfg (S i) atoms ntraj masks) as [evs e]. simpl in *.
  destruct (m0 || negb (save_full cfg)); [constructor; eauto | exact IH].
Qed.

Lemma write_only_writes cfg energy forces mask (ob : OB) :
  Forall (fun e : event T Atoms => exists j a, e = WriteAtoms j a)
         (write cfg energy forces mask ob).1.1.
Proof.
  unfold write.
  destruct (split_sizes mask (natoms (set_energy_forces energy forces ob)));
    [|constructor].
  pose proof (write_loop_only_writes cfg 0
    (get_atoms_list (set_energy_forces energy forces ob))
    (length (traj_names cfg)) l) as Hw.
  destruct (write_loop cfg 0 _ _ l) as [evs e]. exact Hw.
Qed.

Lemma run_loop_logs cfg fmax_ steps fuel :
  forall loc st i mf,
  Log i mf ∈ (run_loop cfg fmax_ steps fuel loc st).1 ->
  (iteration_ loc <= i < steps)%Z.
Proof.
  induction fuel as [|fuel IH]; intros loc st i mf; simpl.
  - intros Hin. now apply elem_of_nil in Hin.
  - destruct (Z.ltb_spec (iteration_ loc) steps) as [Hlt|Hge];
      [|intros Hin; now apply elem_of_nil in Hin].
    destruct (converged_ loc); simpl;
      [intros Hin; now apply elem_of_nil in Hin|].
    assert (forall written : list (event T Atoms),
              Forall (fun e => exists j a, e = WriteAtoms j a) written ->
              Log i mf ∈ written -> False) as Hnolog.
    { intros written Hall Hin. rewrite Forall_forall in Hall.
      destruct (Hall _ Hin) as (j & a & Heq). discriminate Heq. }
    match goal with
    | |- context [if ?c then write ?a1 ?a2 ?a3 ?a4 ?a5 else _] =>
        pose proof (write_only_writes a1 a2 a3 a4 a5) as Hw;
        destruct c; [destruct (write a1 a2 a3 a4 a5) as [[written failed] ob'] | ]
    end; simpl in *.
    + destruct failed as [e|].
      * simpl. intros Hin. apply elem_of_cons in Hin as [[= -> _]|Hin]; [lia|].
        destruct (Hnolog _ Hw Hin).
      * match goal with |- context [if ?c then step ?a1 ?a2 ?a3 ?a4 ?a5 else ?x] =>
          destruct (if c then step a1 a2 a3 a4 a5 else x) as [st'|e] end.
        -- match goal with |- context [run_loop cfg fmax_ steps fuel ?l ?s] =>
             specialize (IH l s i mf);
             destruct (run_loop cfg fmax_ steps fuel l s) as [evs r] end.
           simpl in *. intros Hin.
           apply elem_of_cons in Hin as [[= -> _]|Hin]; [lia|].
           apply elem_of_app in Hin as [Hin|Hin]; [destruct (Hnolog _ Hw Hin)|].
           specialize (IH Hin). lia.
        -- simpl. intros Hin. apply elem_of_cons in Hin as [[= -> _]|Hin]; [lia|].
           destruct (Hnolog _ Hw Hin).
    + match goal with |- context [if ?c then step ?a1 ?a2 ?a3 ?a4 ?a5 else ?x] =>
        destruct (if c then step a1 a2 a3 a4 a5 else x) as [st'|e] end.
      * match goal with |- context [run_loop cfg fmax_ steps fuel ?l ?s] =>
          specialize (IH l s i mf);
          destruct (run_loop cfg fmax_ steps fuel l s) as [evs r] end.
        simpl in *. intros Hin.
        apply elem_of_cons in Hin as [[= -> _]|Hin]; [lia|].
        specialize (IH Hin). lia.
      * simpl. intros Hin. apply elem_of_cons in Hin as [[= -> _]|Hin]; [lia|].
        now apply elem_of_nil in Hin.
Qed.

(** X17: whatever the batch and the configuration, every line [run] logs
    carries an iteration number from 0 up to [steps - 1]: the model is
    never evaluated for an iteration outside the step budget. *)
Theorem run_logs_within_budget cfg fmax_ steps (ob : OB) (i : Z) (mf : list T) :
  Log i mf ∈ (run cfg fmax_ steps ob).1 -> (0 <= i < steps)%Z.
Proof.
  unfold run.
  match goal with |- context [run_loop cfg fmax_ steps ?f ?l ?s] =>
    pose proof (run_loop_logs cfg fmax_ steps f l s i mf) as Hlog;
    destruct (run_loop cfg fmax_ steps f l s) as [evs [[loc st]|e]]
  end; simpl in Hlog.
  - assert (Log i mf ∈
              (if traj_dir cfg then map Open (traj_names cfg) else []) ++ evs ++
              [EmptyCache] ++
              (if traj_dir cfg
               then map Close (seq 0 (length (traj_names cfg))) ++
                    map Rename (traj_names cfg)
               else []) -> (0 <= i < steps)%Z) as Hall.
    { intros Hin.
      apply elem_of_app in Hin as [Hin|Hin].
      { destruct (traj_dir cfg); [|now apply elem_of_nil in Hin].
        apply list_elem_of_fmap in Hin as (n & Heq & _). discriminate Heq. }
      apply elem_of_app in Hin as [Hin|Hin]; [exact (Hlog Hin)|].
      apply elem_of_cons in Hin as [Heq|Hin]; [discriminate Heq|].
      destruct (traj_dir cfg); [|now apply elem_of_nil in Hin].
      apply elem_of_app in Hin as [Hin|Hin];
        apply list_elem_of_fmap in Hin as (n & Heq & _); discriminate Heq. }
    destruct (energy_ loc); [destruct (forces_ loc)|]; exact Hall.
  - simpl. intros Hin. apply elem_of_app in Hin as [Hin|Hin]; [|exact (Hlog Hin)].
    destruct (traj_dir cfg); [|now apply elem_of_nil in Hin].
    apply list_elem_of_fmap in Hin as (n & Heq & _). discriminate Heq.
Qed.

Lemma zip_with_orb_diag (l : list bool) : zip_with orb l l = l.
Proof.
  induction l as [|b l IH]; simpl; [reflexivity|].
  now rewrite IH, orb_diag.
Qed.

(** X18: when the step proposed at iteration 0 is degenerate (its largest
    component is below 1e-7), [step] returns before it sets [r0] and
    [f0]; if the batch is not converged and at least three steps are
    allowed, the history update of iteration 1 then subtracts [None] and
    [run] ends in a TypeError, after two evaluations of the model. *)
Theorem run_degenerate_first_step_raises cfg fmax_ steps (ob : OB) (biggest : T) :
  traj_dir cfg = false ->
  (3 <= steps)%Z ->
  forallb (fun b => flt (nth b (get_max_forces ob) fzero) fmax_)
          (batch_indices ob) = false ->
  abs_max (_determine_step cfg (batch_indices ob)
             (tneg (tscale (H0 cfg) (tneg (get_forces ob))))) = Some biggest ->
  flt biggest feps = true ->
  run cfg fmax_ steps ob =
    ([Log 0 (get_max_forces ob); Log 1 (get_max_forces ob)], Raise TypeError).
Proof.
  intros Hdir Hsteps Hconv Hmax Hsmall. unfold run. rewrite Hdir.
  destruct (Z.to_nat steps) as [|[|fuel]] eqn:Hfuel; [lia | lia |].
  assert ((0 <? steps)%Z = true) as H0s by (apply Z.ltb_lt; lia).
  assert ((0 <? steps - 1)%Z = true) as H0s1 by (apply Z.ltb_lt; lia).
  assert ((1 <? steps)%Z = true) as H1s by (apply Z.ltb_lt; lia).
  assert ((1 <? steps - 1)%Z = true) as H1s1 by (apply Z.ltb_lt; lia).
  rewrite run_loop_turn;
    [| exact Hdir | cbn [iteration_ converged_ negb]; now rewrite H0s].
  cbv zeta. cbn [optimizable iteration_ converged_mask_].
  unfold gather. rewrite map_map, zip_with_orb_false, forallb_id_map.
  rewrite Hconv, H0s1. cbn [negb andb].
  unfold step at 1. cbn [update_history Z.ltb Z.compare optimizable].
  rewrite Nat.min_0_r. cbn [seq rev first_loop second_loop app].
  rewrite Hmax, Hsmall. change (0 + 1)%Z with 1%Z.
  rewrite run_loop_turn;
    [| exact Hdir | cbn [iteration_ converged_ negb]; now rewrite H1s].
  cbv zeta. cbn [optimizable iteration_ converged_mask_].
  unfold gather. rewrite map_map, zip_with_orb_diag, forallb_id_map.
  rewrite Hconv, H1s1. cbn [negb andb].
  unfold step, update_history. cbn [Z.ltb Z.compare r0 f0].
  reflexivity.
Qed.

Lemma run_loop_only_logs cfg fmax_ steps fuel :
  traj_dir cfg = false ->
  forall loc st,
  Forall (fun e : event T Atoms => exists i mf, e = Log i mf)
         (run_loop cfg fmax_ steps fuel loc st).1.
Proof.
  intros Hdir. induction fuel as [|fuel IH]; intros loc st; [constructor|].
  destruct ((iteration_ loc <? steps)%Z && negb (converged_ loc)) eqn:Hgo.
  - rewrite run_loop_turn by assumption. cbv zeta.
    match goal with |- context [if ?c then step ?a1 ?a2 ?a3 ?a4 ?a5 else ?x] =>
      destruct (if c then step a1 a2 a3 a4 a5 else x) as [st'|e] end; simpl.
    + constructor; [eauto | apply IH].
    + constructor; [eauto | constructor].
  - rewrite run_loop_done by assumption. constructor.
Qed.

(** X19: without a trajectory directory [run] touches no file: whatever
    the batch and however the run ends, it opens, writes, closes and
    renames nothing; its only effects outside the batch are the log lines
    and the release of the cache. *)
Theorem run_without_trajectories cfg fmax_ steps (ob : OB) :
  traj_dir cfg = false ->
  Forall (fun e : event T Atoms => e = EmptyCache \/ exists i mf, e = Log i mf)
         (run cfg fmax_ steps ob).1.
Proof.
  intros Hdir. unfold run. rewrite Hdir.
  match goal with |- context [run_loop cfg fmax_ steps ?f ?l ?s] =>
    pose proof (run_loop_only_logs cfg fmax_ steps f Hdir l s) as Hlog;
    destruct (run_loop cfg fmax_ steps f l s) as [evs [[loc st]|e]]
  end; simpl in Hlog.
  - assert (Forall (fun e : event T Atoms =>
                      e = EmptyCache \/ exists i mf, e = Log i mf)
                   ([] ++ evs ++ [EmptyCache] ++ [])) as Hall.
    { simpl. apply Forall_app. split.
      - eapply Forall_impl; [exact Hlog|]. intros e He. now right.
      - constructor; [now left | constructor]. }
    destruct (energy_ loc); [destruct (forces_ loc)|]; exact Hall.
  - simpl. eapply Forall_impl; [exact Hlog|]. intros e' He. now right.
Qed.

Lemma write_loop_writes cfg i (atoms : list Atoms) ntraj masks (j : nat) (a : Atoms) :
  save_full cfg = true ->
  WriteAtoms j a ∈ (write_loop cfg i atoms ntraj masks).1 ->
  (i <= j)%nat /\ (j - i < ntraj)%nat /\ atoms !! (j - i)%nat = Some a /\
  exists rest, masks !! (j - i)%nat = Some (true :: rest).
Proof.
  intros Hfull. revert i ntraj masks.
  induction atoms as [|atm atoms IH]; intros i ntraj masks; simpl.
  - intros Hin. now apply elem_of_nil in Hin.
  - destruct ntraj as [|ntraj]; [intros Hin; now apply elem_of_nil in Hin|].
    destruct masks as [|mask masks]; [intros Hin; now apply elem_of_nil in Hin|].
    destruct mask as [|m0 mask]; [intros Hin; now apply elem_of_nil in Hin|].
    specialize (IH (S i) ntraj masks).
    destruct (write_loop cfg (S i) atoms ntraj masks) as [evs e]. simpl in *.
    rewrite Hfull, orb_false_r.
    assert (WriteAtoms j a ∈ evs ->
            (i <= j)%nat /\ (j - i < S ntraj)%nat /\
            (atm :: atoms) !! (j - i)%nat = Some a /\
            exists rest, ((m0 :: mask) :: masks) !! (j - i)%nat = Some (true :: rest))
      as Hrest.
    { intros Hin. destruct (IH Hin) as (Hle & Hlt & Hat & rest & Hmask).
      replace (j - i)%nat with (S (j - S i)) by lia. simpl.
      repeat split; [lia | lia | exact Hat | eauto]. }
    destruct m0; [|exact Hrest].
    intros Hin. apply elem_of_cons in Hin as [[= -> ->]|Hin]; [|exact (Hrest Hin)].
    rewrite Nat.sub_diag. simpl. repeat split; [lia | lia | eauto].
Qed.

(** X20: with [save_full], [write] stores a system only while its first
    atom is still being updated, and stores it in the trajectory that has
    the system's own index: a write to trajectory [j] carries the [j]-th
    atoms object, [j] is below the number of trajectory names, and the
    [j]-th piece of the update mask starts with True. *)
Theorem write_skips_converged_systems cfg (energy : list T)
    (forces : list (list T)) (update_mask : list bool) (ob : OB)
    (j : nat) (a : Atoms) :
  save_full cfg = true ->
  WriteAtoms j a ∈ (write cfg energy forces update_mask ob).1.1 ->
  let ob' := set_energy_forces energy forces ob in
  (j < length (traj_names cfg))%nat /\
  get_atoms_list ob' !! j = Some a /\
  exists rest, split_go update_mask (natoms ob') !! j = Some (true :: rest).
Proof.
  intros Hfull. unfold write. cbv zeta.
  destruct (split_sizes update_mask (natoms (set_energy_forces energy forces ob)))
    as [masks|] eqn:Hsplit; [|intros Hin; now apply elem_of_nil in Hin].
  unfold split_sizes in Hsplit.
  destruct (Nat.eqb _ _); [|discriminate]. injection Hsplit as <-.
  pose proof (write_loop_writes cfg 0
    (get_atoms_list (set_energy_forces energy forces ob))
    (length (traj_names cfg))
    (split_go update_mask (natoms (set_energy_forces energy forces ob))) j a Hfull)
    as Hw.
  destruct (write_loop cfg 0 _ _ _) as [evs e]. simpl in *.
  intros Hin. destruct (Hw Hin) as (_ & Hlt & Hat & Hmask).
  rewrite Nat.sub_0_r in *. auto.
Qed.

(** *** The stored history *)

Lemma deque_append_length {A} (n : nat) (x : A) (d : list A) :
  length (deque_append n x d) = Nat.min n (S (length d)).
Proof.
  unfold deque_append. rewrite length_drop, length_app. simpl. lia.
Qed.

Lemma first_loop_ok index st (todo : list nat) :
  forall q alpha_,
  (forall i, i ∈ todo ->
     (i < length (rho_ st))%nat /\ (i < length (s_ st))%nat /\
     (i < length (y_ st))%nat) ->
  exists q' alpha',
    first_loop index st todo q alpha_ = Ok (q', alpha') /\
    forall i, i ∈ todo \/ is_Some ((list_to_map alpha_ : gmap nat (list T)) !! i) ->
              is_Some ((list_to_map alpha' : gmap nat (list T)) !! i).
Proof.
  induction todo as [|i todo IH]; intros q alpha_ Hbound; simpl.
  - do 2 eexists. split; [reflexivity|].
    intros i [Hin|Hin]; [now apply elem_of_nil in Hin | exact Hin].
  - destruct (Hbound i (list_elem_of_here _ _)) as (Hr & Hs & Hy).
    apply lookup_lt_is_Some_2 in Hr as [rho_i ->].
    apply lookup_lt_is_Some_2 in Hs as [s_i ->].
    apply lookup_lt_is_Some_2 in Hy as [y_i ->].
    match goal with |- context [first_loop index st todo ?q1 ?a1] =>
      destruct (IH q1 a1) as (q' & alpha' & -> & Hkeys) end.
    { intros j Hj. apply Hbound. now apply list_elem_of_further. }
    do 2 eexists. split; [reflexivity|].
    intros j Hj. apply Hkeys. simpl.
    destruct (decide (j = i)) as [->|Hne].
    + right. rewrite lookup_insert_eq. eauto.
    + destruct Hj as [Hj|Hj].
      * apply elem_of_cons in Hj as [?|Hj]; [contradiction | now left].
      * right. now rewrite lookup_insert_ne.
Qed.

Lemma second_loop_ok index st alpha_ (todo : list nat) :
  forall z,
  (forall i, i ∈ todo ->
     (i < length (rho_ st))%nat /\ (i < length (s_ st))%nat /\
     (i < length (y_ st))%nat /\
     is_Some ((list_to_map alpha_ : gmap nat (list T)) !! i)) ->
  exists z', second_loop index st todo alpha_ z = Ok z'.
Proof.
  induction todo as [|i todo IH]; intros z Hbound; simpl.
  - eauto.
  - destruct (Hbound i (list_elem_of_here _ _)) as (Hr & Hs & Hy & [a Ha]).
    apply lookup_lt_is_Some_2 in Hr as [rho_i ->].
    apply lookup_lt_is_Some_2 in Hs as [s_i ->].
    apply lookup_lt_is_Some_2 in Hy as [y_i ->].
    rewrite Ha. apply IH.
    intros j Hj. apply Hbound. now apply list_elem_of_further.
Qed.

(** What [step] needs of the history and what it leaves. *)
Lemma step_history cfg (iteration : Z) forces mask st :
  length (s_ st) = Nat.min (memory cfg) (Z.to_nat (iteration - 1)) ->
  length (y_ st) = Nat.min (memory cfg) (Z.to_nat (iteration - 1)) ->
  length (rho_ st) = Nat.min (memory cfg) (Z.to_nat (iteration - 1)) ->
  step cfg iteration forces mask st <> Raise IndexError /\
  forall st', step cfg iteration forces mask st = Ok st' ->
    length (s_ st') = Nat.min (memory cfg) (Z.to_nat iteration) /\
    length (y_ st') = Nat.min (memory cfg) (Z.to_nat iteration) /\
    length (rho_ st') = Nat.min (memory cfg) (Z.to_nat iteration).
Proof.
  intros Hs Hy Hr. unfold step.
  set (f := match forces with Some f => f | None => get_forces (optimizable st) end).
  assert (forall st1,
            update_history cfg iteration f (get_positions (optimizable st)) st = Ok st1 ->
            length (s_ st1) = Nat.min (memory cfg) (Z.to_nat iteration) /\
            length (y_ st1) = Nat.min (memory cfg) (Z.to_nat iteration) /\
            length (rho_ st1) = Nat.min (memory cfg) (Z.to_nat iteration)) as Hupd.
  { intros st1. unfold update_history.
    destruct (Z.ltb_spec 0 iteration) as [Hpos|Hneg].
    - destruct (r0 st); [|discriminate]. destruct (f0 st); [|discriminate].
      intros [= <-]. cbn [s_ y_ rho_]. rewrite !deque_append_length, Hs, Hy, Hr.
      replace (Z.to_nat iteration) with (S (Z.to_nat (iteration - 1))) by lia.
      lia.
    - intros [= <-]. rewrite Hs, Hy, Hr.
      replace (Z.to_nat (iteration - 1)) with 0%nat by lia.
      replace (Z.to_nat iteration) with 0%nat by lia. lia. }
  destruct (update_history cfg iteration f (get_positions (optimizable st)) st)
    as [st1|e] eqn:Hst1.
  - destruct (Hupd st1 eq_refl) as (Hs1 & Hy1 & Hr1).
    match goal with |- context [first_loop ?a1 st1 ?a3 ?a4 ?a5] =>
      destruct (first_loop_ok a1 st1 a3 a4 a5) as (q' & alpha' & -> & Hkeys) end.
    { intros i Hi. apply list_elem_of_In in Hi. apply in_rev, in_seq in Hi. lia. }
    match goal with |- context [second_loop ?a1 st1 ?a3 alpha' ?a5] =>
      destruct (second_loop_ok a1 st1 alpha' a3 a5) as (z' & ->) end.
    { intros i Hi. split; [|split; [|split]].
      1-3: apply list_elem_of_In, in_seq in Hi; lia.
      apply Hkeys. left. apply list_elem_of_In. rewrite <- in_rev.
      now apply list_elem_of_In. }
    destruct (abs_max _) as [biggest|].
    + destruct (flt biggest feps).
      * split; [discriminate|]. intros st' [= <-]. auto.
      * split; [discriminate|]. intros st' [= <-]. cbn [s_ y_ rho_]. auto.
    + split; [discriminate | discriminate].
  - split; [|discriminate].
    unfold update_history in Hst1.
    destruct (0 <? iteration)%Z; [|discriminate].
    destruct (r0 st); [destruct (f0 st)|]; try discriminate;
      injection Hst1 as <-; discriminate.
Qed.

(** X21: when the three histories hold min(memory, iteration - 1) entries
    each, as they do when [step] has been called at every iteration so
    far, [step] never indexes past them (it raises no IndexError), and a
    step that returns leaves min(memory, iteration) entries in each:
    the histories never grow beyond [memory]. *)
Theorem step_stays_within_history cfg (iteration : Z)
    (forces : option (list (list T))) (mask : list bool) st :
  length (s_ st) = Nat.min (memory cfg) (Z.to_nat (iteration - 1)) ->
  length (y_ st) = Nat.min (memory cfg) (Z.to_nat (iteration - 1)) ->
  length (rho_ st) = Nat.min (memory cfg) (Z.to_nat (iteration - 1)) ->
  step cfg iteration forces mask st <> Raise IndexError /\
  forall st', step cfg iteration forces mask st = Ok st' ->
    length (s_ st') = Nat.min (memory cfg) (Z.to_nat iteration) /\
    length (y_ st') = Nat.min (memory cfg) (Z.to_nat iteration) /\
    length (rho_ st') = Nat.min (memory cfg) (Z.to_nat iteration) /\
    (length (s_ st') <= memory cfg)%nat.
Proof.
  intros Hs Hy Hr.
  destruct (step_history cfg iteration forces mask st Hs Hy Hr) as [Hne Hok].
  split; [exact Hne|]. intros st' Hst'.
  destruct (Hok st' Hst') as (Hs' & Hy' & Hr'). repeat split; try assumption. lia.
Qed.

Lemma run_loop_no_index_error cfg fmax_ steps fuel :
  traj_dir cfg = false ->
  forall loc st,
  ((iteration_ loc <? steps)%Z && negb (converged_ loc) = true ->
   length (s_ st) = Nat.min (memory cfg) (Z.to_nat (iteration_ loc - 1)) /\
   length (y_ st) = Nat.min (memory cfg) (Z.to_nat (iteration_ loc - 1)) /\
   length (rho_ st) = Nat.min (memory cfg) (Z.to_nat (iteration_ loc - 1))) ->
  (run_loop cfg fmax_ steps fuel loc st).2 <> Raise IndexError.
Proof.
  intros Hdir. induction fuel as [|fuel IH]; intros loc st Hinv; [discriminate|].
  destruct ((iteration_ loc <? steps)%Z && negb (converged_ loc)) eqn:Hgo;
    [|rewrite run_loop_done by assumption; discriminate].
  destruct (Hinv eq_refl) as (Hs & Hy & Hr).
  rewrite run_loop_turn by assumption. cbv zeta.
  match goal with |- context [if ?c then step ?a1 ?a2 ?a3 ?a4 ?a5 else ?x] =>
    destruct c eqn:Hc;
    [destruct (step_history a1 a2 a3 a4 a5 Hs Hy Hr) as [Hne Hok];
     destruct (step a1 a2 a3 a4 a5) as [st'|e] | ]
  end; simpl.
  - apply IH. intros _. cbn [iteration_].
    destruct (Hok st' eq_refl) as (Hs' & Hy' & Hr').
    replace (iteration_ loc + 1 - 1)%Z with (iteration_ loc) by lia. auto.
  - intros [= ->]. now apply Hne.
  - apply IH. cbn [iteration_ converged_]. intros Hnext. exfalso.
    apply andb_prop in Hnext as [Hlt Hnc].
    rewrite Hnc in Hc. simpl in Hc.
    apply Z.ltb_lt in Hlt. apply Z.ltb_ge in Hc. lia.
Qed.

(** X22: in a run without a trajectory directory the two-loop recursion
    never reads an entry of the history that is not there: whatever the
    batch, the memory and the step budget, none of the lookups [rho[i]],
    [s[i]], [y[i]] and [alpha[i]] of [step] is out of range, so [run] does
    not end in their IndexError. *)
Theorem run_never_index_error cfg fmax_ steps (ob : OB) :
  traj_dir cfg = false ->
  (run cfg fmax_ steps ob).2 <> Raise IndexError.
Proof.
  intros Hdir. unfold run.
  match goal with |- context [run_loop cfg fmax_ steps ?f ?l ?s] =>
    pose proof (run_loop_no_index_error cfg fmax_ steps f Hdir l s) as Hloop;
    destruct (run_loop cfg fmax_ steps f l s) as [evs [[loc st]|e]]
  end; simpl in Hloop.
  - destruct (energy_ loc); [destruct (forces_ loc)|]; discriminate.
  - simpl. intros [= ->]. apply Hloop; [|reflexivity]. intros _.
    replace (Z.to_nat (0 - 1)) with 0%nat by lia. rewrite Nat.min_0_r. auto.
Qed.

Lemma run_loop_binds cfg fmax_ steps fuel :
  forall loc st loc' st',
  (run_loop cfg fmax_ steps fuel loc st).2 = Ok (loc', st') ->
  (is_Some (energy_ loc) /\ is_Some (forces_ loc)) \/
  (fuel <> 0%nat /\ (iteration_ loc <? steps)%Z && negb (converged_ loc) = true) ->
  is_Some (energy_ loc') /\ is_Some (forces_ loc').
Proof.
  induction fuel as [|fuel IH]; intros loc st loc' st'; simpl.
  - intros [= <- <-] [Hb|[Hf _]]; [exact Hb | contradiction].
  - destruct ((iteration_ loc <? steps)%Z && negb (converged_ loc)) eqn:Hgo; simpl.
    + match goal with
      | |- context [if ?c then write ?a1 ?a2 ?a3 ?a4 ?a5 else ?x] =>
          destruct (if c then write a1 a2 a3 a4 a5 else x) as [[written failed] ob']
      end.
      destruct failed as [e|]; [discriminate|].
      match goal with |- context [if ?c then step ?a1 ?a2 ?a3 ?a4 ?a5 else ?x] =>
        destruct (if c then step a1 a2 a3 a4 a5 else x) as [st1|e] end;
        [|discriminate].
      match goal with |- context [run_loop cfg fmax_ steps fuel ?l ?s] =>
        specialize (IH l s loc' st');
        destruct (run_loop cfg fmax_ steps fuel l s) as [evs r] end.
      simpl in *. intros Hr _. apply IH; [exact Hr|].
      left. split; eexists; reflexivity.
    + intros [= <- <-] [Hb|[_ Hf]]; [exact Hb | discriminate].
Qed.

(** X23: with a step budget of at least one, [energy] and [forces] are
    bound whenever the loop of [run] ends normally: [run] never raises
    UnboundLocalError, and a batch it returns comes from
    [set_energy_forces]. *)
Theorem run_binds_energy_and_forces cfg fmax_ steps (ob : OB) :
  (1 <= steps)%Z ->
  (run cfg fmax_ steps ob).2 <> Raise UnboundLocalError /\
  forall ob', (run cfg fmax_ steps ob).2 = Ok ob' ->
    exists energy forces ob1, ob' = set_energy_forces energy forces ob1.
Proof.
  intros Hsteps. unfold run.
  match goal with |- context [run_loop cfg fmax_ steps ?f ?l ?s] =>
    pose proof (run_loop_raises cfg fmax_ steps f l s) as Hraise;
    pose proof (run_loop_binds cfg fmax_ steps f l s) as Hbind;
    destruct (run_loop cfg fmax_ steps f l s) as [evs [[loc st]|e]]
  end; simpl in *.
  - destruct (Hbind loc st eq_refl) as [[en Hen] [fo Hfo]].
    { right. split; [lia|].
      destruct (Z.ltb_spec 0 steps); [reflexivity | lia]. }
    rewrite Hen, Hfo. simpl. split; [discriminate|].
    intros ob' [= <-]. eauto.
  - split; [|discriminate]. intros [= ->]. now apply (Hraise UnboundLocalError).
Qed.

End Run.

(** ** The step clamp on any batch *)

Section Systems.
Context {T : Type} {ST : Scalar T}.

Lemma segment_ext (b : nat) (index : list nat) :
  forall src src' : list T,
  length src = length index ->
  length src' = length index ->
  (forall i, index !! i = Some b -> src !! i = src' !! i) ->
  segment src index b = segment src' index b.
Proof.
  induction index as [|k index IH]; intros [|x src] [|x' src'] H1 H2 Hag;
    try discriminate; [reflexivity|].
  unfold segment in *. simpl. rewrite !filter_cons. simpl.
  assert ((filter (fun p : T * nat => p.2 = b) (zip src index)).*1 =
          (filter (fun p : T * nat => p.2 = b) (zip src' index)).*1) as Hrest.
  { apply IH; [simpl in H1; lia | simpl in H2; lia|].
    intros i Hi. exact (Hag (S i) Hi). }
  destruct (decide (k = b)) as [->|Hne].
  - specialize (Hag 0%nat eq_refl). simpl in Hag. injection Hag as ->.
    rewrite !fmap_cons, Hrest. reflexivity.
  - exact Hrest.
Qed.

Lemma nth_map_seq_ext {A} (h h' : nat -> A) (d : A) (n : nat) :
  forall start b,
  h (start + b)%nat = h' (start + b)%nat ->
  nth b (map h (seq start n)) d = nth b (map h' (seq start n)) d.
Proof.
  induction n as [|n IH]; intros start b Heq; simpl.
  - now destruct b.
  - destruct b as [|b].
    + now rewrite Nat.add_0_r in Heq.
    + apply IH. now rewrite Nat.add_succ_comm.
Qed.

(** X24: [_determine_step] treats the systems of a batch separately: the
    displacements it returns for the atoms of one system depend on the
    proposed displacements of that system only, whatever the other
    systems' displacements are. *)
Theorem determine_step_per_system (cfg : config T) (index : list nat)
    (dr dr' : list (list T)) (b : nat) :
  length dr = length index ->
  length dr' = length index ->
  (forall i, index !! i = Some b -> dr !! i = dr' !! i) ->
  forall i, index !! i = Some b ->
    _determine_step cfg index dr !! i = _determine_step cfg index dr' !! i.
Proof.
  intros Hlen Hlen' Hag i Hi. unfold _determine_step, scale_rows, gather.
  rewrite !list_lookup_fmap, !lookup_zip_with, !list_lookup_fmap, Hi, (Hag i Hi).
  cbn [fmap option_fmap option_map].
  assert (nth b (scatter_max (map row_norm dr) index) fzero =
          nth b (scatter_max (map row_norm dr') index) fzero) as ->;
    [|reflexivity].
  unfold scatter_max. apply nth_map_seq_ext. simpl.
  rewrite (segment_ext b index (map row_norm dr) (map row_norm dr'));
    [reflexivity | now rewrite length_map | now rewrite length_map |].
  intros j Hj. change map with (@fmap list _) in *.
  now rewrite !list_lookup_fmap, (Hag j Hj).
Qed.

End Systems.

(** X28: [set_positions] stores the row proposed for an atom, cast to
    float32, whenever the mask is not applied ([mask_converged] off) or
    the atom's entry of the update mask is True. *)
Theorem set_positions_stores_unmasked {T : Type} {ST : Scalar T} (cfg : config T)
    (positions : list (list T)) (mask : list bool) (b : batch T) (i : nat)
    (row : list T) :
  mask_converged cfg = false \/ mask !! i = Some true ->
  positions !! i = Some row ->
  pos (set_positions cfg positions mask b) !! i = Some (map to_float32 row).
Proof.
  intros Hcase Hrow. unfold set_positions.
  assert (pos (set_positions_batch
                 (map (map to_float32)
                    (if mask_converged cfg then where_rows mask positions
                     else positions)) b) !! i = Some (map to_float32 row)) as Hpos.
  { simpl. rewrite list_lookup_fmap.
    destruct (mask_converged cfg) eqn:Hm.
    - destruct Hcase as [Hoff|Hmask]; [discriminate|].
      unfold where_rows. rewrite lookup_zip_with, Hmask. simpl.
      now rewrite Hrow.
    - now rewrite Hrow. }
  destruct (otf_graph cfg); exact Hpos.
Qed.

Lemma set_positions_stores_unmasked_witness :
  pos (set_positions default_config [[1; 2; 3]; [0.25; 0; 0]]%float [false; true]
         two_atoms) !! 1%nat = Some (map to_float32 [0.25; 0; 0]%float).
Proof.
  apply (set_positions_stores_unmasked default_config
           [[1; 2; 3]; [0.25; 0; 0]]%float [false; true] two_atoms 1).
  - right. reflexivity.
  - reflexivity.
Defined.

Lemma determine_step_per_system_witness :
  _determine_step default_config [0; 1]%nat [[1; 0; 0]; [2; 0; 0]]%float !! 1%nat =
  _determine_step default_config [0; 1]%nat [[5; 0; 0]; [2; 0; 0]]%float !! 1%nat.
Proof.
  apply (determine_step_per_system default_config [0; 1]%nat
           [[1; 0; 0]; [2; 0; 0]]%float [[5; 0; 0]; [2; 0; 0]]%float 1).
  - reflexivity.
  - reflexivity.
  - intros [|[|i]]; simpl; try discriminate; reflexivity.
  - reflexivity.
Defined.

Lemma step_stays_within_history_witness :
  step (Atoms := list (list float)) default_config 1 None [false; true] stalled
    <> Raise IndexError.
Proof.
  apply (step_stays_within_history (Atoms := list (list float))
           default_config 1 None [false; true] stalled eq_refl eq_refl eq_refl).
Defined.

Lemma run_never_index_error_witness :
  (run default_config 0.05%float 3 two_atoms).2 <> Raise IndexError.
Proof.
  exact (run_never_index_error (Atoms := list (list float))
           default_config 0.05%float 3 two_atoms eq_refl).
Defined.

Lemma run_binds_energy_and_forces_witness :
  (run default_config 0.05%float 3 two_atoms).2 <> Raise UnboundLocalError.
Proof.
  apply (run_binds_energy_and_forces (Atoms := list (list float))
           default_config 0.05%float 3 two_atoms).
  lia.
Defined.

Lemma run_single_evaluation_witness :
  run default_config 0.05%float 1 two_atoms =
    ([Log 0 (get_max_forces two_atoms); EmptyCache],
     Ok (set_energy_forces (get_potential_energies two_atoms)
           (take (pos_rows two_atoms) (get_forces two_atoms)) two_atoms)).
Proof.
  apply (run_single_evaluation (Atoms := list (list float))
           default_config 0.05%float 1 two_atoms eq_refl).
  - lia.
  - left. reflexivity.
Defined.

Lemma run_logs_within_budget_witness :
  Log 2 [0x1.deeea11683f49p+1; 0x1.fc28f8p-2]%float
    ∈ (run default_config 0.05%float 3 two_atoms).1 /\
  (0 <= 2 < 3)%Z.
Proof.
  assert (Log 2 [0x1.deeea11683f49p+1; 0x1.fc28f8p-2]%float
            ∈ (run default_config 0.05%float 3 two_atoms).1) as Hin.
  { vm_compute. apply list_elem_of_In. simpl. auto. }
  split; [exact Hin|].
  exact (run_logs_within_budget default_config 0.05%float 3 two_atoms 2
           [0x1.deeea11683f49p+1; 0x1.fc28f8p-2]%float Hin).
Defined.

Lemma run_degenerate_first_step_raises_witness :
  run default_config 0x1p-30%float 3 nearly_relaxed =
    ([Log 0 (get_max_forces nearly_relaxed); Log 1 (get_max_forces nearly_relaxed)],
     Raise TypeError).
Proof.
  apply (run_degenerate_first_step_raises (Atoms := list (list float))
           default_config 0x1p-30%float 3 nearly_relaxed
           0x1.c877c40812e3p-33%float eq_refl).
  - lia.
  - vm_compute. reflexivity.
  - vm_compute. reflexivity.
  - vm_compute. reflexivity.
Defined.

Lemma run_without_trajectories_witness :
  Forall (fun e : event float (list (list float)) =>
            e = EmptyCache \/ exists i mf, e = Log i mf)
         (run default_config 0.05%float 3 two_atoms).1.
Proof.
  exact (run_without_trajectories default_config 0.05%float 3 two_atoms eq_refl).
Defined.

Lemma write_skips_converged_systems_witness :
  (1 < length (traj_names traj_config))%nat /\
  get_atoms_list (set_energy_forces [0; 0.125]%float [[0; 0; 0]; [-0.5; 0; 0]]%float
                    two_atoms)
    !! 1%nat = Some [[0.5; 0; 0]]%float /\
  exists rest,
    split_go [false; true]
      (natoms (set_energy_forces [0; 0.125]%float [[0; 0; 0]; [-0.5; 0; 0]]%float
                 two_atoms)) !! 1%nat = Some (true :: rest).
Proof.
  apply (write_skips_converged_systems traj_config [0; 0.125]%float
           [[0; 0; 0]; [-0.5; 0; 0]]%float [false; true] two_atoms 1
           [[0.5; 0; 0]]%float eq_refl).
  vm_compute. apply list_elem_of_In. simpl. auto.
Defined.

End LBFGSSpec.
